(** * Monad NFT staking: the two contracts and the browser client

    A shallow embedding of
    - [monad-nft-project/src/MonadNFT.sol]: the ERC721 collection
      [MonadNFT] and the staking contract [NFTStaking] that follows it in
      the file, and
    - [src/App.tsx]: the resilient RPC caller, the owned/staked
      reconciliation, the stake handlers, the reward refresher and the
      handler of the rewards-claimed event,
    followed by the properties of the specification that concern them.

    Conventions.
    - A [uint256] is an [N]; Solidity 0.8 arithmetic and SafeMath revert on
      overflow and underflow, so an arithmetic operation returns an
      [option] and a reverted call is [None].  A reverted transaction leaves
      the chain as it was ([NFTStaking.exec]).
    - An [address] is an [N] in the contracts ([0] is [address(0)]) and the
      string web3 hands out in the client.
    - A Solidity mapping is a [gmap] read with the zero value as default.
    - OpenZeppelin's ERC721 is a library outside the repository; it is
      modelled at the level of its documented interface in [ERC721], the
      notification of a recipient included.
    - Asynchronous client code is a state and exception monad over the
      outside world, the component state and a trace of what the run did;
      a function of the component reads the state its closure captured
      ([cap]) and writes through the setters.
    - A token identifier is an [N]; the decimal string web3 or
      [toString] gives for it is identified with it, and [Number] rounds it
      as a double does. *)

From Stdlib Require Import NArith ZArith QArith Qround String Ascii List Permutation Lia.
From stdpp Require Import base option gmap strings list pretty.

Local Open Scope N_scope.

Definition address := N.

(** ** Checked 256-bit arithmetic *)

Module Sol.

Definition MAX_UINT256 : N := 2 ^ 256 - 1.

(** [a + b], [a.add(b)] *)
Definition add (a b : N) : option N :=
  if a + b <=? MAX_UINT256 then Some (a + b) else None.

(** [a - b], [a.sub(b)] *)
Definition sub (a b : N) : option N :=
  if b <=? a then Some (a - b) else None.

(** [a * b] *)
Definition mul (a b : N) : option N :=
  if a * b <=? MAX_UINT256 then Some (a * b) else None.

(** [require(cond, ...)] *)
Definition require (cond : bool) : option unit :=
  if cond then Some tt else None.

Definition DAY : N := 86400.      (* [1 days] *)
Definition ETHER : N := 10 ^ 18.  (* [1 ether] *)

End Sol.

(** ** The ERC721 ledger (OpenZeppelin interface) *)

Module ERC721.

Record Ledger := mkLedger {
  owners : gmap N address;                 (* _owners *)
  tokenApprovals : gmap N address;         (* _tokenApprovals *)
  operatorApprovals : gset (address * address);  (* (owner, operator) *)
  allTokens : list N                       (* ERC721Enumerable._allTokens *)
}.

Definition empty : Ledger :=
  {| owners := ∅; tokenApprovals := ∅; operatorApprovals := ∅; allTokens := [] |}.

(** [ownerOf(tokenId)]: reverts for a token that does not exist. *)
Definition ownerOf (tokenId : N) (l : Ledger) : option address :=
  owners l !! tokenId.

Definition _exists (tokenId : N) (l : Ledger) : bool :=
  bool_decide (is_Some (owners l !! tokenId)).

(** [totalSupply()] of ERC721Enumerable. *)
Definition totalSupply (l : Ledger) : N := N.of_nat (length (allTokens l)).

Definition isApprovedOrOwner (spender : address) (tokenId : N) (l : Ledger) : bool :=
  match owners l !! tokenId with
  | None => false
  | Some o =>
      bool_decide (spender = o)
      || bool_decide (tokenApprovals l !! tokenId = Some spender)
      || bool_decide ((o, spender) ∈ operatorApprovals l)
  end.

(** [safeTransferFrom(from, to, tokenId)] called by [caller]; the
    recipient is taken to accept the token. *)
Definition safeTransferFrom (caller from to : address) (tokenId : N)
    (l : Ledger) : option Ledger :=
  _ ← Sol.require (isApprovedOrOwner caller tokenId l);
  _ ← Sol.require (bool_decide (owners l !! tokenId = Some from));
  _ ← Sol.require (negb (to =? 0));
  Some {| owners := <[tokenId := to]> (owners l);
          tokenApprovals := delete tokenId (tokenApprovals l);
          operatorApprovals := operatorApprovals l;
          allTokens := allTokens l |}.

(** [approve(to, tokenId)] called by [caller]. *)
Definition approve (caller to : address) (tokenId : N) (l : Ledger) : option Ledger :=
  o ← owners l !! tokenId;
  _ ← Sol.require (bool_decide (caller = o)
                   || bool_decide ((o, caller) ∈ operatorApprovals l));
  Some {| owners := owners l;
          tokenApprovals := <[tokenId := to]> (tokenApprovals l);
          operatorApprovals := operatorApprovals l;
          allTokens := allTokens l |}.

(** [_mint(to, tokenId)]: the state change of a mint, before the
    recipient is notified. *)
Definition _mint (to : address) (tokenId : N) (l : Ledger) : option Ledger :=
  _ ← Sol.require (negb (to =? 0));
  _ ← Sol.require (negb (_exists tokenId l));
  Some {| owners := <[tokenId := to]> (owners l);
          tokenApprovals := tokenApprovals l;
          operatorApprovals := operatorApprovals l;
          allTokens := allTokens l ++ [tokenId] |}.

End ERC721.

(** ** The staking contract, [contract NFTStaking] *)

Module NFTStaking.

(** [struct StakingInfo] *)
Record StakingInfo := mkInfo {
  owner : address;
  stakedAt : N;
  isStaked : bool
}.

(** The value a mapping returns for a key never written, or deleted. *)
Definition noInfo : StakingInfo :=
  {| owner := 0; stakedAt := 0; isStaked := false |}.

Record Storage := mkStorage {
  self : address;                          (* address(this) *)
  contractOwner : address;                 (* Ownable.owner() *)
  rewardRate : N;
  minimumStakingPeriod : N;
  stakedTokens : gmap N StakingInfo;
  _stakedTokensByOwner : gmap address (list N);
  _stakedTokensIndex : gmap N N;
  accumulatedRewards : gmap address N;
  lastClaimTime : gmap address N;
  totalStaked : N
}.

(** The staking contract together with the NFT contract it points to. *)
Record Chain := mkChain {
  nftContract : ERC721.Ledger;
  store : Storage
}.

(** [constructor(address nftContractAddress) Ownable(msg.sender)] *)
Definition deploy (deployer this : address) (nft : ERC721.Ledger) : Chain :=
  {| nftContract := nft;
     store := {| self := this; contractOwner := deployer;
                 rewardRate := 10 * Sol.ETHER;
                 minimumStakingPeriod := 1 * Sol.DAY;
                 stakedTokens := ∅; _stakedTokensByOwner := ∅;
                 _stakedTokensIndex := ∅; accumulatedRewards := ∅;
                 lastClaimTime := ∅; totalStaked := 0 |} |}.

(** Mapping reads. *)
Definition info (s : Storage) (tokenId : N) : StakingInfo :=
  default noInfo (stakedTokens s !! tokenId).
Definition tokensOf (s : Storage) (a : address) : list N :=
  default [] (_stakedTokensByOwner s !! a).
Definition indexOf (s : Storage) (tokenId : N) : N :=
  default 0 (_stakedTokensIndex s !! tokenId).
Definition accumulated (s : Storage) (a : address) : N :=
  default 0 (accumulatedRewards s !! a).

(** Storage arrays: an index out of range and a pop of the empty array
    revert. *)
Definition array_get (l : list N) (i : N) : option N := l !! N.to_nat i.
Definition array_set (l : list N) (i v : N) : option (list N) :=
  if i <? N.of_nat (length l) then Some (<[N.to_nat i := v]> l) else None.
Definition array_pop (l : list N) : option (list N) :=
  match l with
  | [] => None
  | _ => Some (take (length l - 1)%nat l)
  end.

(** [function calculateReward(uint256 tokenId) public view] *)
Definition calculateReward (now tokenId : N) (s : Storage) : option N :=
  if negb (isStaked (info s tokenId)) then Some 0
  else
    stakingDuration ← Sol.sub now (stakedAt (info s tokenId));
    product ← Sol.mul stakingDuration (rewardRate s);
    Some (product / Sol.DAY).

(** The loop of [getRewardAmount], from the running total [pendingRewards]. *)
Fixpoint pendingLoop (now : N) (s : Storage) (tokens : list N)
    (pendingRewards : N) : option N :=
  match tokens with
  | [] => Some pendingRewards
  | tokenId :: rest =>
      reward ← calculateReward now tokenId s;
      pendingRewards' ← Sol.add pendingRewards reward;
      pendingLoop now s rest pendingRewards'
  end.

(** [function getRewardAmount(address owner) public view] *)
Definition getRewardAmount (now : N) (a : address) (s : Storage) : option N :=
  pendingRewards ← pendingLoop now s (tokensOf s a) 0;
  Sol.add (accumulated s a) pendingRewards.

(** The sum [getRewardAmount] accumulates, without the overflow checks. *)
Fixpoint pendingTotal (now : N) (s : Storage) (tokens : list N) : option N :=
  match tokens with
  | [] => Some 0%N
  | tokenId :: rest =>
      reward ← calculateReward now tokenId s;
      others ← pendingTotal now s rest;
      Some (reward + others)%N
  end.

(** [function getStakedTokens(address owner) external view] *)
Definition getStakedTokens (a : address) (s : Storage) : list N := tokensOf s a.

(** [function stake(uint256 tokenId) external nonReentrant] *)
Definition stake (sender now tokenId : N) (c : Chain) : option Chain :=
  let s := store c in
  tokenOwner ← ERC721.ownerOf tokenId (nftContract c);
  _ ← Sol.require (tokenOwner =? sender);
  _ ← Sol.require (negb (isStaked (info s tokenId)));
  let tokens := tokensOf s sender ++ [tokenId] in
  index ← Sol.sub (N.of_nat (length tokens)) 1;
  total ← Sol.add (totalStaked s) 1;
  nft' ← ERC721.safeTransferFrom (self s) sender (self s) tokenId (nftContract c);
  Some {| nftContract := nft';
          store := {| self := self s; contractOwner := contractOwner s;
                      rewardRate := rewardRate s;
                      minimumStakingPeriod := minimumStakingPeriod s;
                      stakedTokens :=
                        <[tokenId := {| owner := sender; stakedAt := now;
                                        isStaked := true |}]> (stakedTokens s);
                      _stakedTokensByOwner :=
                        <[sender := tokens]> (_stakedTokensByOwner s);
                      _stakedTokensIndex :=
                        <[tokenId := index]> (_stakedTokensIndex s);
                      accumulatedRewards := accumulatedRewards s;
                      lastClaimTime := lastClaimTime s;
                      totalStaked := total |} |}.

(** The swap-with-last step of [unstake]: the array of the caller and the
    index mapping after the [if (tokenIndex != lastTokenIndex)] block. *)
Definition moveLast (tokens : list N) (index : gmap N N)
    (tokenIndex lastTokenIndex : N) : option (list N * gmap N N) :=
  if tokenIndex =? lastTokenIndex then Some (tokens, index)
  else
    lastTokenId ← array_get tokens lastTokenIndex;
    tokens' ← array_set tokens tokenIndex lastTokenId;
    Some (tokens', <[lastTokenId := tokenIndex]> index).

(** [function unstake(uint256 tokenId) external nonReentrant] *)
Definition unstake (sender now tokenId : N) (c : Chain) : option Chain :=
  let s := store c in
  _ ← Sol.require (owner (info s tokenId) =? sender);
  _ ← Sol.require (isStaked (info s tokenId));
  unlock ← Sol.add (stakedAt (info s tokenId)) (minimumStakingPeriod s);
  _ ← Sol.require (unlock <=? now);
  reward ← calculateReward now tokenId s;
  acc ← Sol.add (accumulated s sender) reward;
  lastTokenIndex ← Sol.sub (N.of_nat (length (tokensOf s sender))) 1;
  let tokenIndex := indexOf s tokenId in
  moved ← moveLast (tokensOf s sender) (_stakedTokensIndex s)
                   tokenIndex lastTokenIndex;
  tokens ← array_pop moved.1;
  total ← Sol.sub (totalStaked s) 1;
  nft' ← ERC721.safeTransferFrom (self s) (self s) sender tokenId (nftContract c);
  Some {| nftContract := nft';
          store := {| self := self s; contractOwner := contractOwner s;
                      rewardRate := rewardRate s;
                      minimumStakingPeriod := minimumStakingPeriod s;
                      stakedTokens := delete tokenId (stakedTokens s);
                      _stakedTokensByOwner :=
                        <[sender := tokens]> (_stakedTokensByOwner s);
                      _stakedTokensIndex := delete tokenId moved.2;
                      accumulatedRewards :=
                        <[sender := acc]> (accumulatedRewards s);
                      lastClaimTime := lastClaimTime s;
                      totalStaked := total |} |}.

(** [function claimRewards() external nonReentrant] *)
Definition claimRewards (sender now : N) (c : Chain) : option Chain :=
  let s := store c in
  rewards ← getRewardAmount now sender s;
  _ ← Sol.require (0 <? rewards);
  Some {| nftContract := nftContract c;
          store := {| self := self s; contractOwner := contractOwner s;
                      rewardRate := rewardRate s;
                      minimumStakingPeriod := minimumStakingPeriod s;
                      stakedTokens := stakedTokens s;
                      _stakedTokensByOwner := _stakedTokensByOwner s;
                      _stakedTokensIndex := _stakedTokensIndex s;
                      accumulatedRewards :=
                        <[sender := 0]> (accumulatedRewards s);
                      lastClaimTime := <[sender := now]> (lastClaimTime s);
                      totalStaked := totalStaked s |} |}.

(** [function setRewardRate(uint256 newRate) external onlyOwner] *)
Definition setRewardRate (sender newRate : N) (c : Chain) : option Chain :=
  let s := store c in
  _ ← Sol.require (sender =? contractOwner s);
  Some {| nftContract := nftContract c;
          store := {| self := self s; contractOwner := contractOwner s;
                      rewardRate := newRate;
                      minimumStakingPeriod := minimumStakingPeriod s;
                      stakedTokens := stakedTokens s;
                      _stakedTokensByOwner := _stakedTokensByOwner s;
                      _stakedTokensIndex := _stakedTokensIndex s;
                      accumulatedRewards := accumulatedRewards s;
                      lastClaimTime := lastClaimTime s;
                      totalStaked := totalStaked s |} |}.

(** [function setMinimumStakingPeriod(uint256 newPeriod) external onlyOwner] *)
Definition setMinimumStakingPeriod (sender newPeriod : N) (c : Chain)
    : option Chain :=
  let s := store c in
  _ ← Sol.require (sender =? contractOwner s);
  Some {| nftContract := nftContract c;
          store := {| self := self s; contractOwner := contractOwner s;
                      rewardRate := rewardRate s;
                      minimumStakingPeriod := newPeriod;
                      stakedTokens := stakedTokens s;
                      _stakedTokensByOwner := _stakedTokensByOwner s;
                      _stakedTokensIndex := _stakedTokensIndex s;
                      accumulatedRewards := accumulatedRewards s;
                      lastClaimTime := lastClaimTime s;
                      totalStaked := totalStaked s |} |}.

(** The array of a staker and the two mappings agree: every listed token
    is recorded as staked by that staker at that index, and every token
    recorded as staked is listed there. *)
Definition consistent (s : Storage) : Prop :=
  (forall a i t, tokensOf s a !! i = Some t ->
     owner (info s t) = a /\ isStaked (info s t) = true
     /\ indexOf s t = N.of_nat i)
  /\ (forall t, isStaked (info s t) = true ->
        tokensOf s (owner (info s t)) !! N.to_nat (indexOf s t) = Some t).

(** The state-changing entry points of the contract. *)
Inductive call :=
  | Stake (tokenId : N)
  | Unstake (tokenId : N)
  | ClaimRewards
  | SetRewardRate (newRate : N)
  | SetMinimumStakingPeriod (newPeriod : N).

(** One call by [sender] in a block stamped [now]. *)
Definition run (sender now : N) (k : call) (c : Chain) : option Chain :=
  match k with
  | Stake tokenId => stake sender now tokenId c
  | Unstake tokenId => unstake sender now tokenId c
  | ClaimRewards => claimRewards sender now c
  | SetRewardRate r => setRewardRate sender r c
  | SetMinimumStakingPeriod p => setMinimumStakingPeriod sender p c
  end.

(** A transaction: a call that reverts changes nothing. *)
Definition exec (sender now : N) (k : call) (c : Chain) : Chain :=
  default c (run sender now k c).

(** The chains the contract can be in: deployed against any NFT ledger,
    then any calls; the NFT contract is a contract of its own, so its
    ledger may change between two calls of the staking contract. *)
Inductive reachable : Chain -> Prop :=
  | reach_deploy deployer this nft :
      reachable (deploy deployer this nft)
  | reach_call c sender now k c' :
      reachable c -> run sender now k c = Some c' -> reachable c'
  | reach_ledger c nft' :
      reachable c -> reachable {| nftContract := nft'; store := store c |}.

(** The records kept in [stakedTokens] are those of the staked tokens, and
    [totalStaked] is their number. *)
Definition counted (s : Storage) : Prop :=
  totalStaked s = N.of_nat (size (stakedTokens s))
  /\ forall t i, stakedTokens s !! t = Some i -> isStaked i = true.

End NFTStaking.

(** ** The collection contract, [contract MonadNFT] *)

Module MonadNFT.

Record State := mkState {
  ledger : ERC721.Ledger;          (* ERC721Enumerable *)
  contractOwner : address;         (* Ownable.owner() *)
  maxSupply : N;
  mintPrice : N;
  whitelisted : gset address;      (* the addresses mapped to true *)
  balance : N                      (* address(this).balance *)
}.

(** [constructor(...) ERC721(name, symbol) Ownable(msg.sender)]; the
    metadata strings ([_baseTokenURI], [tokenURI]) are left out. *)
Definition deploy (deployer : address) : State :=
  {| ledger := ERC721.empty; contractOwner := deployer;
     maxSupply := 10000; mintPrice := Sol.ETHER / 100;
     whitelisted := ∅; balance := 0 |}.

Definition totalSupply (s : State) : N := ERC721.totalSupply (ledger s).

Definition set_ledger (l : ERC721.Ledger) (s : State) : State :=
  {| ledger := l; contractOwner := contractOwner s; maxSupply := maxSupply s;
     mintPrice := mintPrice s; whitelisted := whitelisted s;
     balance := balance s |}.

(** [msg.value] reaches the balance when a payable function is entered. *)
Definition receive (value : N) (s : State) : State :=
  {| ledger := ledger s; contractOwner := contractOwner s;
     maxSupply := maxSupply s; mintPrice := mintPrice s;
     whitelisted := whitelisted s; balance := balance s + value |}.

(** What the recipient of a token does when ERC721 notifies it
    ([onERC721Received]), seen from this contract: an externally owned
    account and a passive holder leave the state alone, a contract that
    refuses the token reverts, and a contract may call back into
    [MonadNFT] before it returns. *)
Definition Hook := State -> option State.

Definition noHook : Hook := fun s => Some s.

(** [_safeMint(to, tokenId)]: OpenZeppelin mints, then notifies [to]. *)
Definition _safeMint (to : address) (tokenId : N) (onReceived : Hook)
    (s : State) : option State :=
  l' ← ERC721._mint to tokenId (ledger s);
  onReceived (set_ledger l' s).

(** [function mint() external payable] *)
Definition mint (sender value : N) (onReceived : Hook) (s0 : State)
    : option State :=
  let s := receive value s0 in
  _ ← Sol.require (totalSupply s <? maxSupply s);
  _ ← Sol.require (mintPrice s <=? value);
  tokenId ← Sol.add (totalSupply s) 1;
  _safeMint sender tokenId onReceived s.

(** The [for] loop of [mintMultiple]: [n] iterations left, at index [i];
    [onReceived i] is what the recipient does at the notification of
    iteration [i]. *)
Fixpoint mintLoop (sender : address) (n i : nat) (onReceived : nat -> Hook)
    (s : State) : option State :=
  match n with
  | O => Some s
  | S n' =>
      tokenId ← Sol.add (totalSupply s) 1;
      s' ← _safeMint sender tokenId (onReceived i) s;
      mintLoop sender n' (S i) onReceived s'
  end.

(** [function mintMultiple(uint256 count) external payable] *)
Definition mintMultiple (sender value count : N) (onReceived : nat -> Hook)
    (s0 : State) : option State :=
  let s := receive value s0 in
  supply ← Sol.add (totalSupply s) count;
  _ ← Sol.require (supply <=? maxSupply s);
  cost ← Sol.mul (mintPrice s) count;
  _ ← Sol.require (cost <=? value);
  mintLoop sender (N.to_nat count) 0 onReceived s.

(** [function whitelistMint() external] *)
Definition whitelistMint (sender : address) (onReceived : Hook) (s : State)
    : option State :=
  _ ← Sol.require (bool_decide (sender ∈ whitelisted s));
  _ ← Sol.require (totalSupply s <? maxSupply s);
  tokenId ← Sol.add (totalSupply s) 1;
  s' ← _safeMint sender tokenId onReceived s;
  Some {| ledger := ledger s'; contractOwner := contractOwner s';
          maxSupply := maxSupply s'; mintPrice := mintPrice s';
          whitelisted := whitelisted s' ∖ {[sender]};
          balance := balance s' |}.

(** [function addToWhitelist(address[] calldata addresses) external onlyOwner] *)
Definition addToWhitelist (sender : address) (addresses : list address)
    (s : State) : option State :=
  _ ← Sol.require (sender =? contractOwner s);
  Some {| ledger := ledger s; contractOwner := contractOwner s;
          maxSupply := maxSupply s; mintPrice := mintPrice s;
          whitelisted := list_to_set addresses ∪ whitelisted s;
          balance := balance s |}.

(** [function setMintPrice(uint256 newPrice) external onlyOwner] *)
Definition setMintPrice (sender newPrice : N) (s : State) : option State :=
  _ ← Sol.require (sender =? contractOwner s);
  Some {| ledger := ledger s; contractOwner := contractOwner s;
          maxSupply := maxSupply s; mintPrice := newPrice;
          whitelisted := whitelisted s; balance := balance s |}.

(** [function setMaxSupply(uint256 newMaxSupply) external onlyOwner] *)
Definition setMaxSupply (sender newMaxSupply : N) (s : State) : option State :=
  _ ← Sol.require (sender =? contractOwner s);
  _ ← Sol.require (totalSupply s <=? newMaxSupply);
  Some {| ledger := ledger s; contractOwner := contractOwner s;
          maxSupply := newMaxSupply; mintPrice := mintPrice s;
          whitelisted := whitelisted s; balance := balance s |}.

(** [function withdraw() external onlyOwner]: the balance leaves with the
    call to the owner, whose code runs before [withdraw] returns. *)
Definition withdraw (sender : address) (onPaid : Hook) (s : State)
    : option State :=
  _ ← Sol.require (sender =? contractOwner s);
  _ ← Sol.require (0 <? balance s);
  onPaid {| ledger := ledger s; contractOwner := contractOwner s;
            maxSupply := maxSupply s; mintPrice := mintPrice s;
            whitelisted := whitelisted s; balance := 0 |}.

(** The state-changing entry points, each with the behaviour of the
    contracts it notifies. *)
Inductive call :=
  | Mint (value : N) (onReceived : Hook)
  | MintMultiple (value count : N) (onReceived : nat -> Hook)
  | WhitelistMint (onReceived : Hook)
  | AddToWhitelist (addresses : list address)
  | SetMintPrice (newPrice : N)
  | SetMaxSupply (newMaxSupply : N)
  | Withdraw (onPaid : Hook).

Definition run (sender : address) (k : call) (s : State) : option State :=
  match k with
  | Mint value h => mint sender value h s
  | MintMultiple value count h => mintMultiple sender value count h s
  | WhitelistMint h => whitelistMint sender h s
  | AddToWhitelist l => addToWhitelist sender l s
  | SetMintPrice p => setMintPrice sender p s
  | SetMaxSupply m => setMaxSupply sender m s
  | Withdraw h => withdraw sender h s
  end.

(** A notified contract that does not call back: it accepts or refuses. *)
Definition passive (h : Hook) : Prop := forall s, h s = Some s \/ h s = None.

Definition passive_call (k : call) : Prop :=
  match k with
  | Mint _ h | WhitelistMint h | Withdraw h => passive h
  | MintMultiple _ _ h => forall i, passive (h i)
  | _ => True
  end.

(** The supply cap. *)
Definition capped (s : State) : Prop := totalSupply s <= maxSupply s.

(** [function tokenURI(uint256 tokenId) public view].  The base URI it
    reads from [_baseTokenURI], which none of the calls above writes, is
    an argument. *)
Definition tokenURI (_baseTokenURI : string) (tokenId : N) (s : State)
    : option string :=
  _ ← Sol.require (ERC721._exists tokenId (ledger s));
  Some (if (0 <? String.length _baseTokenURI)%nat
        then _baseTokenURI +:+ pretty tokenId +:+ ".json"
        else "")%string.

(** The states of the collection when no notified contract calls back. *)
Inductive reachable : State -> Prop :=
  | reach_deploy deployer : reachable (deploy deployer)
  | reach_call s sender k s' :
      reachable s -> passive_call k -> run sender k s = Some s' -> reachable s'.

(** Token identifiers are handed out in sequence from 1: the tokens
    minted so far are [1], ..., [totalSupply()]. *)
Definition sequential (l : ERC721.Ledger) : Prop :=
  ERC721.allTokens l = map N.of_nat (seq 1 (length (ERC721.allTokens l)))
  /\ forall t, is_Some (ERC721.owners l !! t) <-> (1 <= t <= ERC721.totalSupply l).

End MonadNFT.

(** ** The browser client, [src/App.tsx] *)

Module Client.

Local Open Scope string_scope.

(** *** JavaScript values the client handles *)

(** [String.prototype.includes] *)
Fixpoint includes (needle s : string) : bool :=
  String.prefix needle s
  || match s with
     | EmptyString => false
     | String _ rest => includes needle rest
     end.

(** [String.prototype.toLowerCase], on the ASCII letters of an address. *)
Definition lowerAscii (c : ascii) : ascii :=
  let n := nat_of_ascii c in
  if (65 <=? n)%nat && (n <=? 90)%nat then ascii_of_nat (n + 32) else c.

Fixpoint toLowerCase (s : string) : string :=
  match s with
  | EmptyString => EmptyString
  | String c rest => String (lowerAscii c) (toLowerCase rest)
  end.

(** [Number(x)] of a token identifier: a double holds every integer up to
    2^53 and rounds a larger one to 53 significant bits, ties to even. *)
Definition Number (n : N) : N :=
  if (n <=? 2 ^ 53)%N then n
  else
    let e := (N.log2 n - 52)%N in
    let q := (n / 2 ^ e)%N in
    let r := (n mod 2 ^ e)%N in
    let half := (2 ^ (e - 1))%N in
    let q' := if (half <? r)%N || ((r =? half)%N && N.odd q) then (q + 1)%N else q in
    (q' * 2 ^ e)%N.

(** [interface NFT]: the identifier and the two flags; the display
    fields (name, description, image candidates, attributes) are a function
    of the identifier and of fetched metadata and are left out. *)
Record NFT := mkNFT {
  id : N;
  isStaked : bool;
  isLoading : bool
}.

(** [const createNFTObject = (tokenId, isStaked = false)], called with
    [Number(tokenId)]. *)
Definition createNFTObject (tokenId : N) (staked : bool) : NFT :=
  {| id := tokenId; isStaked := staked; isLoading := false |}.

(** A rejection: the [Error] object thrown by the provider or the client. *)
Record Err := mkErr { message : string }.

(** What a list-returning contract method can decode to: the code accepts
    [either a sequence result or a single-value result]. *)
Inductive idsResult :=
  | Arr (ids : list N)
  | Single (value : N).

(** A token identifier as handed to web3: the card buttons pass the string
    [nft.id.toString()], the quick-access form passes a number. *)
Inductive tokenArg :=
  | ArgStr (s : string)
  | ArgNum (n : N).

(** The contract methods the client calls, with the type each decodes to. *)
Inductive request : Type -> Type :=
  (* nftContract.methods.*.call() *)
  | BalanceOf (owner : string) : request N
  | TokenOfOwnerByIndex (owner : string) (index : N) : request N
  | OwnerOf (tokenId : N) : request string
  | GetApproved (tokenId : N) : request string
  (* contract.methods.*.call() *)
  | GetStakedTokens (user : string) : request idsResult
  | StakedNFTs (user : string) : request N
  | GetStaked (user : string) : request idsResult
  | StakedTokens (user : string) : request idsResult
  | IsStaker (user : string) : request bool
  | StakerToTokenId (user : string) : request N
  | TokenIdToStaker (tokenId : N) : request string
  | IsStaked (tokenId : N) : request bool
  | StakerOf (tokenId : N) : request string
  | GetTotalStakedNFTs : request N
  | Rewards (user : string) : request N
  | DailyRewardCap : request N
  (* nftContract.methods.approve(...).send(...) *)
  | SendApprove (spender : string) (tokenId : tokenArg) (from : string) : request unit
  (* contract.methods.*(...).send(...) *)
  | SendStakeNFT (tokenId : tokenArg) (from : string) : request unit
  | SendStake (tokenId : tokenArg) (from : string) : request unit.

(** A transaction submitted to the staking contract. *)
Definition stakingWrite {A} (r : request A) : bool :=
  match r with
  | SendStakeNFT _ _ | SendStake _ _ => true
  | _ => false
  end.

(** Any transaction. *)
Definition isWrite {A} (r : request A) : bool :=
  match r with
  | SendApprove _ _ _ | SendStakeNFT _ _ | SendStake _ _ => true
  | _ => false
  end.

(** *** What lies outside the client *)

(** The wallet provider, the chain behind it and the JavaScript runtime.
    [World] is everything that can change between two calls; a call steps
    it and either resolves or rejects. *)
Class Env := {
  World : Type;
  (** [contract.methods.m(args).call()] and [.send(...)] *)
  rpc : forall {A}, request A -> World -> World * (Err + A);
  (** [Math.random()] *)
  Math_random : World -> World * Q;
  (** the [tokenURI] reads and metadata fetches started for a list of
      identifiers ([Promise.all]); every failure in them is caught. *)
  fetchMetadata : list N -> World -> World;
  (** [web3.utils.toChecksumAddress] *)
  toChecksumAddress : string -> Err + string;
  (** [web3.utils.fromWei(_, 'ether')] *)
  fromWei : N -> string;
  (** [Number(s)] of a form input that denotes an integer; [None] is NaN *)
  NumberOfInput : string -> option Z;
  (** whether web3 decodes a [uint256] to a [bigint] (4.x) or to a decimal
      string (1.x) *)
  bigintUints : bool;
  (** [VITE_STAKING_CONTRACT_ADDRESS] *)
  stakingContractAddress : string
}.

(** Truthiness of a decoded [uint256]: [0n] is falsy, a string is not. *)
Definition truthy `{Env} (v : N) : bool :=
  if bigintUints then negb (v =? 0)%N else true.

(** *** Observable behaviour *)

Inductive level := Log | Warn | Error.

Inductive event :=
  | EvAttempt (name : string) (rejection : option Err)
      (* one [await fn()] of a retry wrapper, and how it settled *)
  | EvRpc {A} (r : request A)     (* a contract method called or sent *)
  | EvConsole (l : level) (text : string)
  | EvSleep (ms : Q)              (* an awaited [setTimeout] *)
  | EvTimer (ms : Q).             (* a callback left with [setTimeout] *)

(** *** The component state ([useState]) *)

Record UI := mkUI {
  account : string;
  web3 : bool;          (* web3 !== null *)
  contract : bool;      (* contract !== null *)
  nftContract : bool;   (* nftContract !== null *)
  isLoading_ : bool;    (* isLoading; the cards have a field of that name *)
  transactionMessage : string;
  rewardBalance : string;
  ownedNFTs : list NFT;
  stakedNFTs : list NFT;
  totalStaked : Z;
  earnedRewards : string;
  dailyRewardCap : string;
  activeTab : string;
  errorMessage : option string;
  nftIdInput : string
}.

Definition setIsLoading (b : bool) (u : UI) : UI :=
  mkUI (account u) (web3 u) (contract u) (nftContract u) b
       (transactionMessage u) (rewardBalance u) (ownedNFTs u) (stakedNFTs u)
       (totalStaked u) (earnedRewards u) (dailyRewardCap u) (activeTab u)
       (errorMessage u) (nftIdInput u).
Definition setTransactionMessage (m : string) (u : UI) : UI :=
  mkUI (account u) (web3 u) (contract u) (nftContract u) (isLoading_ u)
       m (rewardBalance u) (ownedNFTs u) (stakedNFTs u)
       (totalStaked u) (earnedRewards u) (dailyRewardCap u) (activeTab u)
       (errorMessage u) (nftIdInput u).
Definition setRewardBalance (m : string) (u : UI) : UI :=
  mkUI (account u) (web3 u) (contract u) (nftContract u) (isLoading_ u)
       (transactionMessage u) m (ownedNFTs u) (stakedNFTs u)
       (totalStaked u) (earnedRewards u) (dailyRewardCap u) (activeTab u)
       (errorMessage u) (nftIdInput u).
Definition setOwnedNFTs (f : list NFT -> list NFT) (u : UI) : UI :=
  mkUI (account u) (web3 u) (contract u) (nftContract u) (isLoading_ u)
       (transactionMessage u) (rewardBalance u) (f (ownedNFTs u)) (stakedNFTs u)
       (totalStaked u) (earnedRewards u) (dailyRewardCap u) (activeTab u)
       (errorMessage u) (nftIdInput u).
Definition setStakedNFTs (f : list NFT -> list NFT) (u : UI) : UI :=
  mkUI (account u) (web3 u) (contract u) (nftContract u) (isLoading_ u)
       (transactionMessage u) (rewardBalance u) (ownedNFTs u) (f (stakedNFTs u))
       (totalStaked u) (earnedRewards u) (dailyRewardCap u) (activeTab u)
       (errorMessage u) (nftIdInput u).
Definition setTotalStaked (f : Z -> Z) (u : UI) : UI :=
  mkUI (account u) (web3 u) (contract u) (nftContract u) (isLoading_ u)
       (transactionMessage u) (rewardBalance u) (ownedNFTs u) (stakedNFTs u)
       (f (totalStaked u)) (earnedRewards u) (dailyRewardCap u) (activeTab u)
       (errorMessage u) (nftIdInput u).
Definition setEarnedRewards (m : string) (u : UI) : UI :=
  mkUI (account u) (web3 u) (contract u) (nftContract u) (isLoading_ u)
       (transactionMessage u) (rewardBalance u) (ownedNFTs u) (stakedNFTs u)
       (totalStaked u) m (dailyRewardCap u) (activeTab u)
       (errorMessage u) (nftIdInput u).
Definition setDailyRewardCap (m : string) (u : UI) : UI :=
  mkUI (account u) (web3 u) (contract u) (nftContract u) (isLoading_ u)
       (transactionMessage u) (rewardBalance u) (ownedNFTs u) (stakedNFTs u)
       (totalStaked u) (earnedRewards u) m (activeTab u)
       (errorMessage u) (nftIdInput u).
Definition setActiveTab (m : string) (u : UI) : UI :=
  mkUI (account u) (web3 u) (contract u) (nftContract u) (isLoading_ u)
       (transactionMessage u) (rewardBalance u) (ownedNFTs u) (stakedNFTs u)
       (totalStaked u) (earnedRewards u) (dailyRewardCap u) m
       (errorMessage u) (nftIdInput u).
Definition setErrorMessage (m : option string) (u : UI) : UI :=
  mkUI (account u) (web3 u) (contract u) (nftContract u) (isLoading_ u)
       (transactionMessage u) (rewardBalance u) (ownedNFTs u) (stakedNFTs u)
       (totalStaked u) (earnedRewards u) (dailyRewardCap u) (activeTab u)
       m (nftIdInput u).
Definition setNftIdInput (m : string) (u : UI) : UI :=
  mkUI (account u) (web3 u) (contract u) (nftContract u) (isLoading_ u)
       (transactionMessage u) (rewardBalance u) (ownedNFTs u) (stakedNFTs u)
       (totalStaked u) (earnedRewards u) (dailyRewardCap u) (activeTab u)
       (errorMessage u) m.

(** The state declared by [const App = () => {...}]. *)
Definition initialUI : UI :=
  mkUI "" false false false false "" "0" [] [] 0 "0" "0" "your" None "".

(** *** Asynchronous code as a state and exception monad *)

Section WithEnv.
Context `{E : Env}.

(** The world, the component state as React holds it now, and what the
    run has done so far. *)
Record St := mkSt {
  world : World;
  ui : UI;
  trace : list event
}.

(** An [async] body: it changes the state and resolves or rejects. *)
Definition M (A : Type) : Type := St -> St * (Err + A).

Definition ret {A} (a : A) : M A := fun st => (st, inr a).

Definition bind {A B} (m : M A) (k : A -> M B) : M B :=
  fun st =>
    match m st with
    | (st', inl e) => (st', inl e)
    | (st', inr a) => k a st'
    end.

#[global] Instance M_ret : MRet M := @ret.
#[global] Instance M_bind : MBind M := fun A B k m => bind m k.

(** [throw e] *)
Definition throw {A} (e : Err) : M A := fun st => (st, inl e).

(** [try { body } catch (e) { handler }] *)
Definition tryCatch {A} (body : M A) (handler : Err -> M A) : M A :=
  fun st =>
    match body st with
    | (st', inl e) => handler e st'
    | (st', inr a) => (st', inr a)
    end.

(** [try { body } finally { fin }] *)
Definition finally {A} (body : M A) (fin : M unit) : M A :=
  fun st =>
    let (st', r) := body st in
    match fin st' with
    | (st'', inl e) => (st'', inl e)
    | (st'', inr _) => (st'', r)
    end.

Definition emit (ev : event) : M unit :=
  fun st => (mkSt (world st) (ui st) (trace st ++ [ev]), inr tt).

Definition console (l : level) (text : string) : M unit := emit (EvConsole l text).

(** A state setter of React. *)
Definition set (f : UI -> UI) : M unit :=
  fun st => (mkSt (world st) (f (ui st)) (trace st), inr tt).

(** A zero-argument asynchronous operation on the outside world. *)
Definition Op (A : Type) : Type := World -> World * (Err + A).

Definition liftOp {A} (op : Op A) : M A :=
  fun st => let (w, r) := op (world st) in (mkSt w (ui st) (trace st), r).

(** [() => contract.methods.m(args).call()], once invoked. *)
Definition method {A} (r : request A) : M A :=
  _ ← emit (EvRpc r); liftOp (rpc r).

(** [await new Promise(resolve => setTimeout(resolve, ms))] *)
Definition sleep (ms : Q) : M unit := emit (EvSleep ms).

Definition random : M Q :=
  liftOp (fun w => let (w', q) := Math_random w in (w', inr q)).

(** One [await fn()] of a retry wrapper; how it settled is recorded. *)
Definition attemptOf {A} (name : string) (fn : M A) : M A :=
  fun st =>
    match fn st with
    | (st', inl e) =>
        (mkSt (world st') (ui st') (trace st' ++ [EvAttempt name (Some e)]), inl e)
    | (st', inr a) =>
        (mkSt (world st') (ui st') (trace st' ++ [EvAttempt name None]), inr a)
    end.

(** *** The resilient RPC caller *)

(** [const isRateLimitError = err.message && (...)] *)
Definition isRateLimitError (err : Err) : bool :=
  negb (String.eqb (message err) "")
  && (includes "429" (message err)
      || includes "rate limit" (message err)
      || includes "too many requests" (message err)).

(** [1000 * Math.pow(1.5, attempt)] *)
Definition baseDelay (attempt : nat) : Q :=
  (1000 * Qpower (3 # 2) (Z.of_nat attempt))%Q.

(** [Math.round] *)
Definition Math_round (q : Q) : Z := Qfloor (q + (1 # 2))%Q.

(** The body of the [for] loop of [safeRpcCall] at index [attempt]:
    [Some result] when the body returns, [None] when the loop goes on. *)
Definition safeRpcAttempt {A} (fn : M A) (name : string)
    (maxAttempts attempt : nat) : M (option A) :=
  tryCatch
    (result ← attemptOf name fn;
     _ ← (if (0 <? attempt)%nat
          then console Log (name +:+ " succeeded on attempt " +:+ pretty (S attempt))
          else mret tt);
     mret (Some result))
    (fun err =>
       _ ← console Warn
             ("Attempt " +:+ pretty (S attempt) +:+ "/" +:+ pretty maxAttempts
              +:+ " failed for " +:+ name +:+ ": "
              +:+ (if isRateLimitError err then "Rate limit exceeded"
                   else message err));
       if (S attempt =? maxAttempts)%nat then
         _ ← console Error ("All " +:+ pretty maxAttempts
                            +:+ " attempts failed for " +:+ name);
         throw err
       else
         r ← random;
         let jitter := (r * 500)%Q in
         let delay := (baseDelay attempt + jitter)%Q in
         _ ← console Log ("Waiting " +:+ pretty (Math_round delay)
                          +:+ "ms before retry...");
         _ ← sleep delay;
         mret None).

(** The [for] loop with [remaining = maxAttempts - attempt] turns left. *)
Fixpoint safeRpcLoop {A} (fn : M A) (name : string)
    (maxAttempts remaining attempt : nat) : M A :=
  match remaining with
  | O => throw (mkErr ("Failed after " +:+ pretty maxAttempts +:+ " attempts"))
  | S remaining' =>
      settled ← safeRpcAttempt fn name maxAttempts attempt;
      match settled with
      | Some result => mret result
      | None => safeRpcLoop fn name maxAttempts remaining' (S attempt)
      end
  end.

(** [const safeRpcCall = async (fn, name, maxAttempts = 5)] *)
Definition safeRpcCall {A} (fn : M A) (name : string) (maxAttempts : nat) : M A :=
  safeRpcLoop fn name maxAttempts maxAttempts 0.

(** [retryRpcCall] throws [lastError], which is [undefined] ([None]) when
    the loop never ran. *)
Definition M' (A : Type) : Type := St -> St * (option Err + A).

(** The [for] loop of [retryRpcCall]. *)
Fixpoint retryRpcLoop {A} (fn : M A) (maxRetries remaining i : nat)
    (lastError : option Err) : M' A :=
  match remaining with
  | O => fun st =>
      match console Error ("Maximum retry attempts reached ("
                           +:+ pretty maxRetries +:+ "). Last error:") st with
      | (st', _) => (st', inl lastError)
      end
  | S remaining' => fun st =>
      match attemptOf "retryRpcCall" fn st with
      | (st', inr result) => (st', inr result)
      | (st', inl error) =>
          let waitTime := (2000 * 2 ^ Z.of_nat i)%Z in
          match (_ ← console Warn ("RPC call failed (" +:+ pretty (S i) +:+ "/"
                                   +:+ pretty maxRetries +:+ "): "
                                   +:+ message error);
                 _ ← console Log ("Waiting " +:+ pretty waitTime
                                  +:+ "ms before retrying...");
                 sleep (inject_Z waitTime)) st' with
          | (st'', _) =>
              retryRpcLoop fn maxRetries remaining' (S i) (Some error) st''
          end
      end
  end.

(** [const retryRpcCall = async (fn, maxRetries = 5)] *)
Definition retryRpcCall {A} (fn : M A) (maxRetries : nat) : M' A :=
  retryRpcLoop fn maxRetries maxRetries 0 None.

(** *** The NFT reconciliation engine *)

(** A synchronous library call that may throw. *)
Definition liftE {A} (r : Err + A) : M A := fun st => (st, r).

(** The metadata phase: it steps the world and cannot reject. *)
Definition metadataPhase (tokenIds : list N) : M unit :=
  liftOp (fun w => (fetchMetadata tokenIds w, inr tt)).

(** [for (let i = 0; i < n; i++) { body }], threading the local variable
    the body updates; [i] is the current index and [n] the turns left. *)
Fixpoint forLoop {S} (n : nat) (i : N) (body : N -> S -> M S) (acc : S) : M S :=
  match n with
  | O => mret acc
  | S n' => acc' ← body i acc; forLoop n' (i + 1)%N body acc'
  end.

Definition isEmpty {A} (l : list A) : bool :=
  match l with [] => true | _ => false end.

(** [const loadNFTsFromBlockchain = async (userAddress, nftContract, web3Instance)] *)
Definition loadNFTsFromBlockchain (userAddress : string)
    (nftContract_ web3Instance : bool) : M unit :=
  finally
    (tryCatch
       (_ ← set (setIsLoading true);
        _ ← (if String.eqb userAddress "" || negb web3Instance || negb nftContract_
             then throw (mkErr "Missing required connection parameters")
             else mret tt);
        checksumAddress ← liftE (toChecksumAddress userAddress);
        balance ← safeRpcCall (method (BalanceOf checksumAddress))
                    "Get NFT balance" 3;
        if (Number balance =? 0)%N then
          _ ← set (setOwnedNFTs (fun _ => []));
          set (setIsLoading false)
        else
          ownedTokenIds ←
            forLoop (N.to_nat (Number balance)) 0
              (fun i ownedTokenIds =>
                 tryCatch
                   (tokenId ← safeRpcCall
                                (method (TokenOfOwnerByIndex checksumAddress i))
                                ("Get token ID at index " +:+ pretty i) 3;
                    mret (ownedTokenIds ++ [tokenId])%list)
                   (fun _ => mret ownedTokenIds))
              [];
          _ ← metadataPhase ownedTokenIds;
          set (setOwnedNFTs (fun _ =>
                 map (fun tokenId => createNFTObject (Number tokenId) false)
                     ownedTokenIds)))
       (fun error =>
          _ ← set (setErrorMessage
                     (Some ("Failed to load NFTs: " +:+ message error)));
          set (setOwnedNFTs (fun _ => []))))
    (set (setIsLoading false)).

(** What the first attempt keeps of the answer of [getStakedTokens]. *)
Definition idsOfFirst (result : idsResult) : list N :=
  match result with
  | Arr [] => []
  | Arr ids => ids
  | Single value => if truthy value then [value] else []
  end.

(** [if (x && Number(x) > 0) stakedTokenIds.push(x.toString())] *)
Definition idsOfSingle (value : N) : list N :=
  if truthy value && (0 <? Number value)%N then [value] else [].

(** What the third and fourth attempts keep of their answer. *)
Definition idsOfAlternate (result : idsResult) : list N :=
  match result with
  | Arr [] => []
  | Arr ids => ids
  | Single value => idsOfSingle value
  end.

Definition firstAttempt (checksumAddress : string) : M idsResult :=
  safeRpcCall (method (GetStakedTokens checksumAddress))
    "Get staked tokens using getStakedTokens" 3.
Definition secondAttempt (checksumAddress : string) : M N :=
  safeRpcCall (method (StakedNFTs checksumAddress))
    "Get staked NFT ID from stakedNFTs mapping" 3.
Definition thirdAttempt (checksumAddress : string) : M idsResult :=
  safeRpcCall (method (GetStaked checksumAddress))
    "Get staked NFTs using getStaked" 3.
Definition fourthAttempt (checksumAddress : string) : M idsResult :=
  safeRpcCall (method (StakedTokens checksumAddress))
    "Get staked NFTs using stakedTokens" 3.
Definition lastAttempt (checksumAddress : string) : M (list N) :=
  isStaker ← safeRpcCall (method (IsStaker checksumAddress))
               "Check if address is a staker" 3;
  if isStaker : bool then
    tokenId ← safeRpcCall (method (StakerToTokenId checksumAddress))
                "Get staked token ID from stakerToTokenId" 3;
    mret (idsOfSingle tokenId)
  else mret [].

(** The nested [try]/[catch] blocks that query the staking contract:
    [stakedTokenIds] when the outermost block is left. *)
Definition contractMethods (checksumAddress : string) : M (list N) :=
  tryCatch (result ← firstAttempt checksumAddress; mret (idsOfFirst result))
    (fun _ =>
  tryCatch (stakedTokenId ← secondAttempt checksumAddress;
            mret (idsOfSingle stakedTokenId))
    (fun _ =>
  tryCatch (result ← thirdAttempt checksumAddress; mret (idsOfAlternate result))
    (fun _ =>
  tryCatch (result ← fourthAttempt checksumAddress; mret (idsOfAlternate result))
    (fun _ =>
  tryCatch (lastAttempt checksumAddress)
    (fun _ => mret []))))).

(** Whether [tokenId], held by the staking contract, was staked by the
    user: [isStakedByUser] at the end of the innermost [try] block. *)
Definition isStakedByUser (checksumAddress : string) (tokenId : N) : M bool :=
  viaMapping ←
    tryCatch
      (stakerAddress ← safeRpcCall (method (TokenIdToStaker tokenId))
                         ("Check staker of NFT " +:+ pretty tokenId) 3;
       mret (String.eqb (toLowerCase stakerAddress) (toLowerCase checksumAddress)))
      (fun _ => mret false);
  if viaMapping : bool then mret true
  else
    tryCatch
      (isStaked ← safeRpcCall (method (IsStaked tokenId))
                    ("Check if NFT " +:+ pretty tokenId +:+ " is staked") 3;
       if isStaked : bool then
         tryCatch
           (stakerAddress ← safeRpcCall (method (StakerOf tokenId))
                              ("Check staker of NFT " +:+ pretty tokenId) 3;
            mret (String.eqb (toLowerCase stakerAddress)
                             (toLowerCase checksumAddress)))
           (fun _ => mret false)
       else mret false)
      (fun _ => mret false).

(** The block entered when [stakedTokenIds.length === 0] after the
    contract methods: the tokens of the staking contract that the user
    staked. *)
Definition ownershipVerification (checksumAddress : string) : M (list N) :=
  tryCatch
    (nftBalance ← safeRpcCall (method (BalanceOf stakingContractAddress))
                    "Get NFT balance of staking contract" 3;
     if (0 <? Number nftBalance)%N then
       forLoop (N.to_nat (Number nftBalance)) 0
         (fun i stakedTokenIds =>
            tryCatch
              (tokenId ← safeRpcCall
                           (method (TokenOfOwnerByIndex stakingContractAddress i))
                           ("Get token ID at index " +:+ pretty i
                            +:+ " for staking contract") 3;
               mine ← isStakedByUser checksumAddress tokenId;
               mret (if mine : bool then (stakedTokenIds ++ [tokenId])%list
                     else stakedTokenIds))
              (fun _ => mret stakedTokenIds))
         []
     else mret [])
    (fun _ => mret []).

(** [stakedTokenIds] before the cached fallback: the contract methods,
    else the ownership verification; and where [Final staked token IDs]
    is logged: those, else the identifiers of the [stakedNFTs] the closure
    captured. *)
Definition chainTokenIds (checksumAddress : string) : M (list N) :=
  fromMethods ← contractMethods checksumAddress;
  if isEmpty fromMethods then ownershipVerification checksumAddress
  else mret fromMethods.

Definition stakedTokenIdsOf (cap : UI) (checksumAddress : string) : M (list N) :=
  fromChain ← chainTokenIds checksumAddress;
  mret (if isEmpty fromChain then map id (stakedNFTs cap) else fromChain).

(** The loop over [stakedTokenIds] that fills [uniqueStakedNFTs], with
    the [Set] [uniqueTokenIds] of the identifiers seen. *)
Fixpoint uniqueLoop (stakedTokenIds : list N) (uniqueTokenIds : gset N)
    (uniqueStakedNFTs : list NFT) : list NFT :=
  match stakedTokenIds with
  | [] => uniqueStakedNFTs
  | tokenId :: rest =>
      if decide (tokenId ∈ uniqueTokenIds)
      then uniqueLoop rest uniqueTokenIds uniqueStakedNFTs
      else uniqueLoop rest ({[tokenId]} ∪ uniqueTokenIds)
             (uniqueStakedNFTs ++ [createNFTObject (Number tokenId) true])%list
  end.

(** [const loadStakedNFTs = async (userAddress)]; [cap] is the component
    state the closure was created in. *)
Definition loadStakedNFTs (cap : UI) (userAddress : string) : M unit :=
  tryCatch
    (_ ← (if negb (contract cap) || negb (web3 cap) || negb (nftContract cap)
          then throw (mkErr "Contracts not initialized")
          else mret tt);
     checksumAddress ← liftE (toChecksumAddress userAddress);
     stakedTokenIds ← stakedTokenIdsOf cap checksumAddress;
     if isEmpty stakedTokenIds then set (setStakedNFTs (fun _ => []))
     else
       _ ← metadataPhase stakedTokenIds;
       set (setStakedNFTs (fun _ => uniqueLoop stakedTokenIds ∅ [])))
    (fun error =>
       _ ← set (setErrorMessage
                  (Some ("Failed to load staked NFTs: " +:+ message error)));
       set (setStakedNFTs (fun _ => []))).

(** *** The reward refresher *)

(** [const refreshRewardData = async (userAddress)]; the run it leaves
    with [setTimeout] is recorded, not followed. *)
Definition refreshRewardData (cap : UI) (userAddress : string) : M unit :=
  if negb (web3 cap) || negb (contract cap) then mret tt
  else
    tryCatch
      (checksumAddress ← liftE (toChecksumAddress userAddress);
       _ ← tryCatch
             (rewards ← safeRpcCall (method (Rewards checksumAddress))
                          "Get rewards in refresh" 5;
              _ ← set (setEarnedRewards (fromWei rewards));
              set (setRewardBalance (fromWei rewards)))
             (fun _ => mret tt);
       _ ← tryCatch
             (rewardCap ← safeRpcCall (method DailyRewardCap)
                            "Get reward cap in refresh" 5;
              set (setDailyRewardCap (fromWei rewardCap)))
             (fun _ => mret tt);
       _ ← tryCatch
             (totalStakedCount ← safeRpcCall (method GetTotalStakedNFTs)
                                   "Get total staked in refresh" 5;
              set (setTotalStaked (fun _ => Z.of_N totalStakedCount)))
             (fun _ => mret tt);
       emit (EvTimer 60000))
      (fun _ => emit (EvTimer 90000)).

(** [const refreshAllNFTData = async ()] *)
Definition refreshAllNFTData (cap : UI) : M unit :=
  if String.eqb (account cap) "" || negb (web3 cap) || negb (nftContract cap)
     || negb (contract cap)
  then mret tt
  else
    _ ← set (setIsLoading true);
    finally
      (tryCatch
         (_ ← loadNFTsFromBlockchain (account cap) (nftContract cap) (web3 cap);
          _ ← loadStakedNFTs cap (account cap);
          refreshRewardData cap (account cap))
         (fun error =>
            set (setErrorMessage
                   (Some ("Failed to refresh NFT data: " +:+ message error)))))
      (set (setIsLoading false)).

(** [const loadAccurateNFTData = async ()] *)
Definition loadAccurateNFTData (cap : UI) : M unit :=
  if String.eqb (account cap) "" || negb (web3 cap) || negb (nftContract cap)
     || negb (contract cap)
  then mret tt
  else
    _ ← set (setIsLoading true);
    _ ← set (setTransactionMessage "Loading NFT data...");
    finally
      (tryCatch
         (totalStakedCount ← safeRpcCall (method GetTotalStakedNFTs)
                               "Get total staked" 3;
          _ ← set (setTotalStaked (fun _ => Z.of_N totalStakedCount));
          _ ← loadNFTsFromBlockchain (account cap) (nftContract cap) (web3 cap);
          _ ← loadStakedNFTs cap (account cap);
          refreshRewardData cap (account cap))
         (fun error =>
            set (setErrorMessage
                   (Some ("Failed to load NFT data: " +:+ message error)))))
      (_ ← set (setIsLoading false); set (setTransactionMessage "")).

(** *** The transaction orchestrator *)

(** [{...nft, isLoading: b}] *)
Definition withLoading (b : bool) (nft : NFT) : NFT :=
  {| id := id nft; isStaked := isStaked nft; isLoading := b |}.

(** [nft.id.toString() === tokenId] *)
Definition hasId (tokenId : string) (nft : NFT) : bool :=
  String.eqb (pretty (id nft)) tokenId.

(** [const stakeNFT = async (tokenIdToStake)], the handler of the Stake
    button of a card.  An asynchronous call the source does not await
    ([refreshRewardData]) is run where it is started. *)
Definition stakeNFT (cap : UI) (tokenIdToStake : string) : M unit :=
  if negb (web3 cap) || negb (contract cap) || negb (nftContract cap)
     || String.eqb (account cap) ""
  then set (setErrorMessage (Some "Please connect your wallet first"))
  else if String.eqb tokenIdToStake ""
  then set (setErrorMessage (Some "Please select an NFT to stake"))
  else
    _ ← set (setIsLoading true);
    _ ← set (setTransactionMessage "NFT staking in progress...");
    finally
      (tryCatch
         (_ ← set (setOwnedNFTs (map (fun nft =>
                     if hasId tokenIdToStake nft then withLoading true nft
                     else nft)));
          _ ← method (SendApprove stakingContractAddress
                        (ArgStr tokenIdToStake) (account cap));
          _ ← method (SendStakeNFT (ArgStr tokenIdToStake) (account cap));
          _ ← match List.find (hasId tokenIdToStake) (ownedNFTs cap) with
              | Some stakedNFT =>
                  _ ← set (setStakedNFTs (fun prev =>
                             prev ++ [{| id := id stakedNFT; isStaked := true;
                                         isLoading := false |}])%list);
                  _ ← set (setOwnedNFTs
                             (List.filter (fun nft => negb (hasId tokenIdToStake nft))));
                  set (setTotalStaked (fun prev => prev + 1)%Z)
              | None => mret tt
              end;
          _ ← set (setTransactionMessage "NFT staked successfully!");
          _ ← sleep 2000;
          _ ← tryCatch (loadAccurateNFTData cap) (fun _ => mret tt);
          _ ← (if negb (String.eqb (account cap) "")
               then refreshRewardData cap (account cap) else mret tt);
          set (setActiveTab "staked"))
         (fun error =>
            _ ← set (setTransactionMessage ("Staking failed: " +:+ message error));
            _ ← set (setErrorMessage (Some ("Staking failed: " +:+ message error)));
            set (setOwnedNFTs (map (fun nft =>
                   if hasId tokenIdToStake nft then withLoading false nft
                   else nft)))))
      (set (setIsLoading false)).

(** [!s.trim()] *)
Definition isWhitespace (c : ascii) : bool :=
  match nat_of_ascii c with
  | 9 | 10 | 11 | 12 | 13 | 32 => true
  | _ => false
  end%nat.

Fixpoint isBlank (s : string) : bool :=
  match s with
  | EmptyString => true
  | String c rest => isWhitespace c && isBlank rest
  end.

(** The error of the ownership check of [quickStakeNFT]. *)
Definition notOwnerError (nftId : N) : Err :=
  mkErr ("You don't own NFT #" +:+ pretty nftId).

(** [const quickStakeNFT = async ()], the handler of the quick-access
    form; the refresh and the message reset it leaves with [setTimeout]
    are recorded, not followed. *)
Definition quickStakeNFT (cap : UI) : M unit :=
  if isBlank (nftIdInput cap) || negb (web3 cap) || negb (nftContract cap)
     || negb (contract cap) || String.eqb (account cap) ""
  then set (setErrorMessage
              (Some "Please enter a valid NFT ID and connect your wallet"))
  else
    _ ← set (setIsLoading true);
    _ ← set (setErrorMessage None);
    _ ← set (setTransactionMessage ("Staking NFT #" +:+ nftIdInput cap +:+ "..."));
    finally
      (tryCatch
         (nftId ← match NumberOfInput (nftIdInput cap) with
                  | None => throw (mkErr "Invalid NFT ID")
                  | Some z => if (z <? 0)%Z then throw (mkErr "Invalid NFT ID")
                              else mret (Z.to_N z)
                  end;
          owner ← safeRpcCall (method (OwnerOf nftId))
                    ("Check owner of NFT " +:+ pretty nftId) 3;
          checksumAddress ← liftE (toChecksumAddress (account cap));
          _ ← (if negb (String.eqb (toLowerCase owner) (toLowerCase checksumAddress))
               then throw (notOwnerError nftId) else mret tt);
          approved ← safeRpcCall (method (GetApproved nftId))
                       ("Check approval for NFT " +:+ pretty nftId) 3;
          _ ← (if negb (String.eqb (toLowerCase approved)
                                   (toLowerCase stakingContractAddress))
               then
                 _ ← set (setTransactionMessage
                            ("Approving NFT #" +:+ pretty nftId +:+ " for staking..."));
                 safeRpcCall (method (SendApprove stakingContractAddress
                                        (ArgNum nftId) (account cap)))
                   ("Approve NFT " +:+ pretty nftId +:+ " for staking") 3
               else mret tt);
          _ ← set (setTransactionMessage ("Staking NFT #" +:+ pretty nftId +:+ "..."));
          _ ← safeRpcCall (method (SendStake (ArgNum nftId) (account cap)))
                ("Stake NFT " +:+ pretty nftId) 3;
          _ ← set (setStakedNFTs (fun prev =>
                     List.filter (fun nft => negb (id nft =? nftId)%N) prev
                     ++ [createNFTObject nftId true])%list);
          _ ← set (setOwnedNFTs (List.filter (fun nft => negb (id nft =? nftId)%N)));
          _ ← set (setTransactionMessage
                     ("Successfully staked NFT #" +:+ pretty nftId));
          _ ← set (setNftIdInput "");
          emit (EvTimer 2000))
         (fun error =>
            set (setErrorMessage (Some ("Failed to stake NFT: " +:+ message error)))))
      (_ ← set (setIsLoading false); emit (EvTimer 5000)).

(** *** Events of the staking contract *)

(** The ['data'] handler of [contract.events.RewardsClaimed]. *)
Definition onRewardsClaimed (cap : UI) (staker : string) (amount : N) : M unit :=
  if String.eqb (toLowerCase staker) (toLowerCase (account cap)) then
    _ ← refreshRewardData cap (account cap);
    _ ← set (setTransactionMessage
               (fromWei amount +:+ " MON rewards claimed successfully"));
    emit (EvTimer 5000)
  else mret tt.

(** *** Further handlers of the component *)

(** As in the handlers above, what a handler writes to the console and
    the dialog of [alert] are not part of the state or the trace. *)

(** [list.some(nft => nft.id === nftId)] *)
Definition hasNumber (nftId : N) (l : list NFT) : bool :=
  existsb (fun nft => (id nft =? nftId)%N) l.

(** [const executeTransaction = async (transaction, loadingMessage,
    successMessage)]; [refreshRewardData], which the source does not
    await, is run where it is started. *)
Definition executeTransaction (cap : UI) (transaction : M unit)
    (loadingMessage successMessage : string) : M unit :=
  if negb (web3 cap) || negb (contract cap) || String.eqb (account cap) ""
  then mret tt
  else
    _ ← set (setIsLoading true);
    _ ← set (setTransactionMessage loadingMessage);
    finally
      (tryCatch
         (_ ← transaction;
          _ ← set (setTransactionMessage successMessage);
          refreshRewardData cap (account cap))
         (fun error =>
            set (setTransactionMessage ("Transaction failed: " +:+ message error))))
      (set (setIsLoading false)).

(** The ['data'] handler of [contract.events.Staked]. *)
Definition onStaked (cap : UI) (tokenId : N) (staker : string) : M unit :=
  if String.eqb (toLowerCase staker) (toLowerCase (account cap)) then
    _ ← (if negb (hasNumber (Number tokenId) (stakedNFTs cap)) then
           _ ← set (setStakedNFTs (fun prev =>
                      prev ++ [createNFTObject (Number tokenId) true])%list);
           _ ← set (setOwnedNFTs
                      (List.filter (fun nft => negb (id nft =? Number tokenId)%N)));
           _ ← set (setTransactionMessage
                      ("NFT #" +:+ pretty tokenId +:+ " staked successfully"));
           emit (EvTimer 5000)
         else mret tt);
    refreshRewardData cap (account cap)
  else mret tt.

(** The ['data'] handler of [contract.events.Unstaked]. *)
Definition onUnstaked (cap : UI) (tokenId : N) (staker : string) : M unit :=
  if String.eqb (toLowerCase staker) (toLowerCase (account cap)) then
    _ ← (if negb (hasNumber (Number tokenId) (ownedNFTs cap)) then
           _ ← set (setOwnedNFTs (fun prev =>
                      prev ++ [createNFTObject (Number tokenId) false])%list);
           _ ← set (setStakedNFTs
                      (List.filter (fun nft => negb (id nft =? Number tokenId)%N)));
           _ ← set (setTransactionMessage
                      ("NFT #" +:+ pretty tokenId +:+ " unstaked successfully"));
           emit (EvTimer 5000)
         else mret tt);
    refreshRewardData cap (account cap)
  else mret tt.

(** The value of [isNftStaked] where [checkAndAddStakedNFT] tests it. *)
Definition isNftStaked (nftId : N) : M bool :=
  tryCatch
    (safeRpcCall (method (IsStaked nftId))
       ("Check if NFT " +:+ pretty nftId +:+ " is staked") 3)
    (fun _ =>
       tryCatch
         (owner ← safeRpcCall (method (OwnerOf nftId))
                    ("Check owner of NFT " +:+ pretty nftId) 3;
          mret (String.eqb (toLowerCase owner)
                           (toLowerCase stakingContractAddress)))
         (fun _ => mret false)).

(** The branch of [checkAndAddStakedNFT] for a token that is not staked. *)
Definition addIfOwned (cap : UI) (nftId : N) : M unit :=
  tryCatch
    (owner ← safeRpcCall (method (OwnerOf nftId))
               ("Check owner of NFT " +:+ pretty nftId) 3;
     checksumAddress ← liftE (toChecksumAddress (account cap));
     if String.eqb (toLowerCase owner) (toLowerCase checksumAddress)
     then
       if negb (hasNumber nftId (ownedNFTs cap)) then
         _ ← set (setOwnedNFTs (fun prev =>
                    prev ++ [createNFTObject nftId false])%list);
         _ ← set (setTransactionMessage
                    ("NFT #" +:+ pretty nftId
                     +:+ " is in your wallet and added to your NFTs list"));
         set (setActiveTab "your")
       else
         set (setTransactionMessage
                ("NFT #" +:+ pretty nftId +:+ " is already in your NFTs list"))
     else
       set (setTransactionMessage
              ("NFT #" +:+ pretty nftId +:+ " is not staked and not owned by you")))
    (fun _ =>
       set (setTransactionMessage
              ("Could not determine ownership of NFT #" +:+ pretty nftId))).

(** [const checkAndAddStakedNFT = async ()], the handler of the Check
    button of the quick-access form; the message reset it leaves with
    [setTimeout] is recorded, not followed. *)
Definition checkAndAddStakedNFT (cap : UI) : M unit :=
  if isBlank (nftIdInput cap) || negb (web3 cap) || negb (nftContract cap)
     || negb (contract cap) || String.eqb (account cap) ""
  then set (setErrorMessage
              (Some "Please enter a valid NFT ID and connect your wallet"))
  else
    _ ← set (setIsLoading true);
    _ ← set (setErrorMessage None);
    _ ← set (setTransactionMessage ("Checking NFT #" +:+ nftIdInput cap +:+ "..."));
    finally
      (tryCatch
         (nftId ← match NumberOfInput (nftIdInput cap) with
                  | None => throw (mkErr "Invalid NFT ID")
                  | Some z => if (z <? 0)%Z then throw (mkErr "Invalid NFT ID")
                              else mret (Z.to_N z)
                  end;
          _ ← tryCatch
                (_ ← safeRpcCall (method (OwnerOf nftId))
                       ("Check if NFT " +:+ pretty nftId +:+ " exists") 3;
                 mret tt)
                (fun _ =>
                   throw (mkErr ("NFT #" +:+ pretty nftId +:+ " does not exist")));
          staked ← isNftStaked nftId;
          _ ← (if staked : bool then
                 if negb (hasNumber nftId (stakedNFTs cap)) then
                   _ ← set (setStakedNFTs (fun prev =>
                              prev ++ [createNFTObject nftId true])%list);
                   _ ← set (setTransactionMessage
                              ("NFT #" +:+ pretty nftId
                               +:+ " is staked and added to your staked NFTs list"));
                   set (setActiveTab "staked")
                 else
                   set (setTransactionMessage
                          ("NFT #" +:+ pretty nftId
                           +:+ " is already in your staked NFTs list"))
               else addIfOwned cap nftId);
          set (setNftIdInput ""))
         (fun error =>
            set (setErrorMessage (Some ("Failed to check NFT: " +:+ message error)))))
      (_ ← set (setIsLoading false); emit (EvTimer 5000)).

(** What [checkSingleNftId] resolves to. *)
Record checkResult := mkCheck {
  checkedId : string;
  status : string;
  owned : bool
}.

(** The [TypeError] of [contract.methods] when [contract] is [null]. *)
Definition nullContract {A} : M A :=
  throw (mkErr "Cannot read properties of null (reading 'methods')").

(** The inner [try] block of [checkSingleNftId] for a token held by the
    staking contract: whether the function returned [Staked by you]
    from it. *)
Definition stakedByUser (cap : UI) (checksumAddress : string) (nftIdNumber : N)
    : M bool :=
  tryCatch
    (stakedTokenId ←
       safeRpcCall
         (if contract cap then method (StakedNFTs checksumAddress)
          else nullContract)
         "Get staked NFT ID" 3;
     if (Number stakedTokenId =? nftIdNumber)%N then
       _ ← (if negb (hasNumber nftIdNumber (stakedNFTs cap))
            then set (setStakedNFTs (fun prev =>
                        prev ++ [createNFTObject nftIdNumber true])%list)
            else mret tt);
       mret true
     else mret false)
    (fun _ => mret false).

(** [const checkSingleNftId = async (id)] *)
Definition checkSingleNftId (cap : UI) (id_ : string) : M checkResult :=
  if negb (web3 cap) || negb (nftContract cap) || String.eqb (account cap) ""
  then mret (mkCheck id_ "Wallet not connected" false)
  else
    tryCatch
      (match NumberOfInput id_ with
       | None => mret (mkCheck id_ "Invalid NFT ID" false)
       | Some z =>
           if (z <? 0)%Z then mret (mkCheck id_ "Invalid NFT ID" false)
           else
             let nftIdNumber := Z.to_N z in
             if hasNumber nftIdNumber (ownedNFTs cap)
             then mret (mkCheck id_ "Already in your collection" true)
             else if hasNumber nftIdNumber (stakedNFTs cap)
             then mret (mkCheck id_ "Already in your staked NFTs" true)
             else
               checksumAddress ← liftE (toChecksumAddress (account cap));
               tryCatch
                 (owner ← safeRpcCall (method (OwnerOf nftIdNumber))
                            ("Check owner of NFT " +:+ pretty nftIdNumber) 3;
                  if String.eqb (toLowerCase owner) (toLowerCase checksumAddress)
                  then
                    _ ← (if negb (hasNumber nftIdNumber (ownedNFTs cap))
                         then set (setOwnedNFTs (fun prev =>
                                     prev ++ [createNFTObject nftIdNumber false])%list)
                         else mret tt);
                    mret (mkCheck id_ "Belongs to your wallet" true)
                  else if String.eqb (toLowerCase owner)
                                     (toLowerCase stakingContractAddress)
                  then
                    mine ← stakedByUser cap checksumAddress nftIdNumber;
                    mret (if mine : bool
                          then mkCheck id_ "Staked by you" true
                          else mkCheck id_ "Owned by staking contract" false)
                  else mret (mkCheck id_ "Owned by another wallet" false))
                 (fun _ => mret (mkCheck id_ "NFT not found" false))
       end)
      (fun _ => mret (mkCheck id_ "Check failed" false)).

(** *** Reading a run *)

(** A fresh run: the state before a handler starts. *)
Definition start (w : World) (u : UI) : St := mkSt w u [].

(** The settled attempts of a trace, oldest first. *)
Definition attempts (tr : list event) : list (option Err) :=
  omap (fun ev => match ev with EvAttempt _ r => Some r | _ => None end) tr.

(** The schedule of a trace: which attempts were made and whether each was
    rejected, and every wait with its length. *)
Inductive tick :=
  | Tried (rejected : bool)
  | Waited (ms : Q).

Definition schedule (tr : list event) : list tick :=
  omap (fun ev => match ev with
                  | EvAttempt _ r => Some (Tried (bool_decide (is_Some r)))
                  | EvSleep ms => Some (Waited ms)
                  | _ => None
                  end) tr.

(** The transactions of a trace that went to the staking contract. *)
Definition stakingWrites (tr : list event) : list event :=
  List.filter (fun ev => match ev with EvRpc r => stakingWrite r | _ => false end) tr.

Definition writes (tr : list event) : list event :=
  List.filter (fun ev => match ev with EvRpc r => isWrite r | _ => false end) tr.

(** Whether a contract method was called in a trace. *)
Definition consulted (p : forall A, request A -> bool) (tr : list event) : bool :=
  existsb (fun ev => match ev with EvRpc r => p _ r | _ => false end) tr.


(** The identifiers of a collection. *)
Definition ids (l : list NFT) : list N := map id l.

(** *** Vocabulary of the properties *)

(** What a run adds to the trace. *)
Definition added (st st' : St) (tr : list event) : Prop :=
  trace st' = (trace st ++ tr)%list.

(** An operation that rejects whenever it is invoked. *)
Definition alwaysFails {A} (fn : M A) : Prop :=
  forall st, exists e, (fn st).2 = inl e.

(** An operation that is not itself a retry wrapper and does not wait:
    invoking it adds no attempt and nothing to the schedule. *)
Definition plain {A} (fn : M A) : Prop :=
  forall st, attempts (trace (fn st).1) = attempts (trace st)
             /\ schedule (trace (fn st).1) = schedule (trace st).

(** Two outcomes that differ at most in the error raised. *)
Definition sameShape {A} (r1 r2 : Err + A) : Prop :=
  match r1, r2 with
  | inl _, inl _ => True
  | inr a, inr b => a = b
  | _, _ => False
  end.

(** Two operations that settle alike, invocation after invocation, in
    worlds related by [R]: both reject, with whatever errors, or both
    resolve to the same value. *)
Definition settleAlike {A} (R : World -> World -> Prop) (fn1 fn2 : M A) : Prop :=
  forall st1 st2, R (world st1) (world st2) ->
    sameShape (fn1 st1).2 (fn2 st2).2
    /\ R (world (fn1 st1).1) (world (fn2 st2).1).

(** [Math.random()] draws the same numbers in worlds related by [R]. *)
Definition sameDraws (R : World -> World -> Prop) : Prop :=
  forall w1 w2, R w1 w2 ->
    (Math_random w1).2 = (Math_random w2).2
    /\ R (Math_random w1).1 (Math_random w2).1.

(** The wallet is connected: the guards of the refresh functions pass. *)
Definition connected (cap : UI) : Prop :=
  account cap <> "" /\ web3 cap = true /\ contract cap = true
  /\ nftContract cap = true.


(** The records the engine builds for a list of identifiers. *)
Definition recordsOf (staked : bool) (tokenIds : list N) : list NFT :=
  map (fun tokenId => createNFTObject (Number tokenId) staked) tokenIds.

(** The identifiers the deduplication loop keeps: the first occurrence of
    each one that is not in [seen]. *)
Fixpoint firsts (seen : gset N) (tokenIds : list N) : list N :=
  match tokenIds with
  | [] => []
  | tokenId :: rest =>
      if decide (tokenId ∈ seen) then firsts seen rest
      else tokenId :: firsts ({[tokenId]} ∪ seen) rest
  end.

(** An error whose message carries the label of the call. *)
Definition tagged (name : string) (e : Err) : Prop :=
  includes name (message e) = true.

(** *** Vocabulary of the proofs *)

(** A computation that leaves a part [p] of the component state alone. *)
Definition keeps {A X} (p : UI -> X) (m : M A) : Prop :=
  forall st, p (ui (m st).1) = p (ui st).

(** A computation that never rejects. *)
Definition resolves {A} (m : M A) : Prop :=
  forall st, exists a, (m st).2 = inr a.

(** Whenever the computation resolves, the part [p] of the component
    state it leaves satisfies [Q]. *)
Definition leaves {A X} (p : UI -> X) (Q : X -> Prop) (m : M A) : Prop :=
  forall st a, (m st).2 = inr a -> Q (p (ui (m st).1)).

(** A computation that calls no contract method selected by [q]. *)
Definition silent {A} (q : forall T, request T -> bool) (m : M A) : Prop :=
  forall st, consulted q (trace (m st).1) = consulted q (trace st).

(** The three steps both passes share. *)
Definition reload (cap : UI) : M unit :=
  _ ← loadNFTsFromBlockchain (account cap) (nftContract cap) (web3 cap);
  _ ← loadStakedNFTs cap (account cap);
  refreshRewardData cap (account cap).


(** A computation that adds no event selected by [p] to the trace,
    whatever the trace held before. *)
Definition hush {A} (p : event -> bool) (m : M A) : Prop :=
  forall st, List.filter p (trace (m st).1) = List.filter p (trace st).

(** A selection that leaves out what a retry wrapper records of its own:
    the attempts, the console lines and the waits. *)
Definition blind (p : event -> bool) : Prop :=
  (forall name r, p (EvAttempt name r) = false)
  /\ (forall l text, p (EvConsole l text) = false)
  /\ (forall ms, p (EvSleep ms) = false).

(** The transactions among the events: [writes] is the filter by [sent]. *)
Definition sent (ev : event) : bool :=
  match ev with EvRpc r => isWrite r | _ => false end.

(** The callbacks left with [setTimeout]. *)
Definition timer (ev : event) : bool :=
  match ev with EvTimer _ => true | _ => false end.

(** The statuses [checkSingleNftId] reports with [owned: true]. *)
Definition ownedStatuses : list string :=
  ["Already in your collection"; "Already in your staked NFTs";
   "Belongs to your wallet"; "Staked by you"].

(** The schedule of rejected attempts, each followed by a wait. *)
Definition retried (delays : list Q) : list tick :=
  flat_map (fun ms => [Tried true; Waited ms]) delays.

(** The waits of [retryRpcCall] from the turn of index [i] on. *)
Fixpoint doubling (i n : nat) : list Q :=
  match n with
  | O => []
  | S n' => inject_Z (2000 * 2 ^ Z.of_nat i) :: doubling (S i) n'
  end.

(** The time a list of waits adds up to. *)
Definition totalWait (delays : list Q) : Q := fold_right Qplus 0%Q delays.

(** The state in which [executeTransaction] invokes the transaction. *)
Definition submitting (loadingMessage : string) (st : St) : St :=
  mkSt (world st) (setTransactionMessage loadingMessage (setIsLoading true (ui st)))
       (trace st).

End WithEnv.

End Client.

(** ** Sample chains and sessions *)

(** A chain to try the staking contract on: account 7 holds token 1 and
    has approved the staking contract (address 99, deployed by account 1),
    then stakes it in the block stamped 1000. *)
Definition sampleLedger : ERC721.Ledger :=
  {| ERC721.owners := {[ 1%N := 7%N ]};
     ERC721.tokenApprovals := {[ 1%N := 99%N ]};
     ERC721.operatorApprovals := ∅;
     ERC721.allTokens := [1%N] |}.

Definition sampleChain : NFTStaking.Chain :=
  NFTStaking.exec 7 1000 (NFTStaking.Stake 1)
    (NFTStaking.deploy 1 99 sampleLedger).

(** The collection after its owner, account 1, lowered the maximum supply
    to two. *)
Definition smallCollection : MonadNFT.State :=
  default (MonadNFT.deploy 1)
    (MonadNFT.run 1 (MonadNFT.SetMaxSupply 2) (MonadNFT.deploy 1)).

(** A minting contract, account 7, that answers the first token it
    receives by calling [mint] itself and then accepts every token. *)
Definition reentrantReceiver (i : nat) : MonadNFT.Hook :=
  match i with
  | O => MonadNFT.mint 7 (Sol.ETHER / 100) MonadNFT.noHook
  | S _ => MonadNFT.noHook
  end.

(** A chain that answers every call the same way each time it is asked. *)
Definition tableEnv (answer : forall A, Client.request A -> Client.Err + A)
    : Client.Env :=
  {| Client.World := unit;
     Client.rpc := fun A r w => (w, answer A r);
     Client.Math_random := fun w => (w, 1 # 4);
     Client.fetchMetadata := fun _ w => w;
     Client.toChecksumAddress := fun a => inr a;
     Client.fromWei := fun wei => pretty wei;
     Client.NumberOfInput := fun s =>
       if String.eqb s "7" then Some 7%Z
       else if String.eqb s "9" then Some 9%Z else None;
     Client.bigintUints := true;
     Client.stakingContractAddress := "0xstaking" |}.

Definition reverted {A} : Client.Err + A :=
  inl (Client.mkErr "execution reverted").

(** The wallet [0xuser] holds token 7 and has nothing staked; token 9
    belongs to [0xother], for whom [0xuser] is an approved operator, so
    that its approvals are accepted; the staking contract answers
    [getStakedTokens] with an empty array, would answer [stakedNFTs] with
    5, reports no staked token in total, holds no token and reverts a
    stake. *)
Definition quietChain (rewardsUp : bool) (A : Type) (r : Client.request A)
    : Client.Err + A :=
  match r in Client.request T return Client.Err + T with
  | Client.BalanceOf o => inr (if String.eqb o "0xuser" then 1%N else 0%N)
  | Client.TokenOfOwnerByIndex o i =>
      if String.eqb o "0xuser" && (i =? 0)%N then inr 7%N else reverted
  | Client.OwnerOf t => inr (if (t =? 7)%N then "0xUSER" else "0xother")
  | Client.GetApproved _ => inr "0x0"
  | Client.GetStakedTokens _ => inr (Client.Arr [])
  | Client.StakedNFTs _ => inr 5%N
  | Client.GetTotalStakedNFTs => inr 0%N
  | Client.Rewards _ => if rewardsUp then inr 0%N else reverted
  | Client.DailyRewardCap => inr 100%N
  | Client.SendApprove _ _ _ => inr tt
  | Client.SendStakeNFT _ _ => reverted
  | Client.SendStake _ _ => reverted
  | _ => reverted
  end.

Definition quietEnv : Client.Env := tableEnv (quietChain true).
Definition rewardsDownEnv : Client.Env := tableEnv (quietChain false).

(** The component state of the connected wallet [0xuser], with the given
    cards. *)
Definition session (owned staked : list N) : Client.UI :=
  Client.mkUI "0xuser" true true true false "" "0" 
    (map (fun t => Client.createNFTObject t false) owned)
    (map (fun t => Client.createNFTObject t true) staked)
    0 "20" "0" "your" None "".

(** The state a handler starts in on the quiet chain. *)
Definition quietStart (cap : Client.UI) : @Client.St quietEnv :=
  @Client.start quietEnv tt cap.

(** An operation that rejects with the given message whenever invoked. *)
Definition rejecting (msg : string) : @Client.M quietEnv N :=
  @Client.throw quietEnv N (Client.mkErr msg).

(** The small collection after account 7 minted a token for the price. *)
Definition mintedCollection : MonadNFT.State :=
  default smallCollection
    (MonadNFT.run 7 (MonadNFT.Mint (Sol.ETHER / 100) MonadNFT.noHook)
       smallCollection).

(** The small collection after its owner put accounts 7 and 8 on the
    whitelist. *)
Definition whitelistedCollection : MonadNFT.State :=
  default smallCollection
    (MonadNFT.run 1 (MonadNFT.AddToWhitelist [7%N; 8%N]) smallCollection).

(** A chain that reverts every call and every transaction. *)
Definition deadChain (A : Type) (r : Client.request A) : Client.Err + A :=
  reverted.

Definition deadEnv : Client.Env := tableEnv deadChain.

(** The quiet chain once token 7 is approved for the staking contract
    and the staking contract accepts a stake. *)
Definition approvedChain (A : Type) (r : Client.request A) : Client.Err + A :=
  match r in Client.request T return Client.Err + T with
  | Client.GetApproved _ => inr "0xStaking"
  | Client.SendStake _ _ => inr tt
  | Client.SendStakeNFT _ _ => inr tt
  | r' => quietChain true _ r'
  end.

Definition approvedEnv : Client.Env := tableEnv approvedChain.

(** * Properties of the contracts *)

Section SolFacts.

Lemma sol_add_Some a b c :
  Sol.add a b = Some c <-> c = (a + b)%N /\ (a + b <= Sol.MAX_UINT256)%N.
Proof.
  unfold Sol.add. destruct (N.leb_spec (a + b) Sol.MAX_UINT256); split; intros H0.
  - inversion H0; subst; split; [reflexivity | assumption].
  - destruct H0 as [-> _]; reflexivity.
  - discriminate.
  - destruct H0 as [_ H0]; lia.
Qed.

Lemma sol_sub_Some a b c :
  Sol.sub a b = Some c <-> c = (a - b)%N /\ (b <= a)%N.
Proof.
  unfold Sol.sub. destruct (N.leb_spec b a); split; intros H0.
  - inversion H0; subst; split; [reflexivity | assumption].
  - destruct H0 as [-> _]; reflexivity.
  - discriminate.
  - destruct H0 as [_ H0]; lia.
Qed.

Lemma sol_mul_Some a b c :
  Sol.mul a b = Some c <-> c = (a * b)%N /\ (a * b <= Sol.MAX_UINT256)%N.
Proof.
  unfold Sol.mul. destruct (N.leb_spec (a * b) Sol.MAX_UINT256); split; intros H0.
  - inversion H0; subst; split; [reflexivity | assumption].
  - destruct H0 as [-> _]; reflexivity.
  - discriminate.
  - destruct H0 as [_ H0]; lia.
Qed.

Lemma sol_require_Some b u : Sol.require b = Some u <-> b = true.
Proof. destruct b, u; simpl; split; congruence. Qed.

End SolFacts.

(** Splits a successful run of checked steps into its steps. *)
Ltac sol_inv :=
  repeat match goal with
  | H : mbind _ _ = Some _ |- _ => apply bind_Some in H; destruct H as (? & ? & H)
  | H : Sol.require _ = Some _ |- _ => apply sol_require_Some in H
  | H : Sol.add _ _ = Some _ |- _ => apply sol_add_Some in H; destruct H as [? ?]
  | H : Sol.sub _ _ = Some _ |- _ => apply sol_sub_Some in H; destruct H as [? ?]
  | H : Sol.mul _ _ = Some _ |- _ => apply sol_mul_Some in H; destruct H as [? ?]
  | H : Some _ = Some _ |- _ => inversion H; clear H
  end.

Section LedgerFacts.
Import ERC721.

Lemma safeTransferFrom_owner caller from to tokenId l l' :
  safeTransferFrom caller from to tokenId l = Some l' ->
  ownerOf tokenId l = Some from /\ ownerOf tokenId l' = Some to
  /\ forall t, t <> tokenId -> ownerOf t l' = ownerOf t l.
Proof.
  unfold safeTransferFrom, ownerOf. intros H. sol_inv. subst. simpl.
  match goal with H : bool_decide _ = true |- _ => apply bool_decide_eq_true in H end.
  split; [assumption |]. split.
  - apply lookup_insert_eq.
  - intros t Ht. apply lookup_insert_ne. congruence.
Qed.

End LedgerFacts.

Section StakingFacts.
Import NFTStaking.

Lemma info_insert s tokenId v t m :
  stakedTokens s = <[tokenId := v]> m ->
  info s t = if decide (tokenId = t) then v else default noInfo (m !! t).
Proof.
  intros Hs. unfold info. rewrite Hs, lookup_insert.
  destruct (decide (tokenId = t)); reflexivity.
Qed.

(** What a successful [stake] did. *)
Lemma stake_Some sender now tokenId c c' :
  stake sender now tokenId c = Some c' ->
  ERC721.ownerOf tokenId (nftContract c) = Some sender
  /\ isStaked (info (store c) tokenId) = false
  /\ ERC721.safeTransferFrom (self (store c)) sender (self (store c)) tokenId
       (nftContract c) = Some (nftContract c')
  /\ self (store c') = self (store c)
  /\ stakedTokens (store c')
     = <[tokenId := mkInfo sender now true]> (stakedTokens (store c))
  /\ _stakedTokensByOwner (store c')
     = <[sender := tokensOf (store c) sender ++ [tokenId]]>
         (_stakedTokensByOwner (store c))
  /\ _stakedTokensIndex (store c')
     = <[tokenId := N.of_nat (length (tokensOf (store c) sender))]>
         (_stakedTokensIndex (store c))
  /\ accumulatedRewards (store c') = accumulatedRewards (store c)
  /\ rewardRate (store c') = rewardRate (store c)
  /\ minimumStakingPeriod (store c') = minimumStakingPeriod (store c).
Proof.
  unfold stake. intros H. sol_inv. subst. simpl.
  match goal with H : (_ =? _)%N = true |- _ => apply N.eqb_eq in H; subst end.
  match goal with H : negb _ = true |- _ => apply negb_true_iff in H end.
  repeat split; try assumption; try reflexivity.
  f_equal. rewrite length_app. simpl. lia.
Qed.

(** What a successful [unstake] did. *)
Lemma unstake_Some sender now tokenId c c' :
  unstake sender now tokenId c = Some c' ->
  let s := store c in
  owner (info s tokenId) = sender
  /\ isStaked (info s tokenId) = true
  /\ (stakedAt (info s tokenId) + minimumStakingPeriod s <= now)%N
  /\ ERC721.safeTransferFrom (self s) (self s) sender tokenId (nftContract c)
     = Some (nftContract c')
  /\ exists reward moved tokens,
       calculateReward now tokenId s = Some reward
       /\ (accumulated s sender + reward <= Sol.MAX_UINT256)%N
       /\ moveLast (tokensOf s sender) (_stakedTokensIndex s) (indexOf s tokenId)
            (N.of_nat (length (tokensOf s sender)) - 1) = Some moved
       /\ (1 <= N.of_nat (length (tokensOf s sender)))%N
       /\ array_pop moved.1 = Some tokens
       /\ store c'
          = {| self := self s; contractOwner := contractOwner s;
               rewardRate := rewardRate s;
               minimumStakingPeriod := minimumStakingPeriod s;
               stakedTokens := delete tokenId (stakedTokens s);
               _stakedTokensByOwner := <[sender := tokens]> (_stakedTokensByOwner s);
               _stakedTokensIndex := delete tokenId moved.2;
               accumulatedRewards :=
                 <[sender := (accumulated s sender + reward)%N]> (accumulatedRewards s);
               lastClaimTime := lastClaimTime s;
               totalStaked := (totalStaked s - 1)%N |}.
Proof.
  unfold unstake. intros H. sol_inv. subst. simpl.
  match goal with H : (_ =? _)%N = true |- _ => apply N.eqb_eq in H end.
  match goal with H : (_ <=? _)%N = true |- _ => apply N.leb_le in H end.
  repeat split; try assumption.
  do 3 eexists. repeat split; eassumption.
Qed.

End StakingFacts.

Section Custody.
Import NFTStaking.

Lemma claimRewards_Some sender now c c' :
  claimRewards sender now c = Some c' ->
  nftContract c' = nftContract c
  /\ stakedTokens (store c') = stakedTokens (store c)
  /\ _stakedTokensByOwner (store c') = _stakedTokensByOwner (store c)
  /\ _stakedTokensIndex (store c') = _stakedTokensIndex (store c)
  /\ accumulatedRewards (store c') = <[sender := 0%N]> (accumulatedRewards (store c))
  /\ exists rewards, getRewardAmount now sender (store c) = Some rewards
                     /\ (0 < rewards)%N.
Proof.
  unfold claimRewards. intros H. sol_inv. subst. simpl.
  match goal with H : (_ <? _)%N = true |- _ => apply N.ltb_lt in H end.
  repeat split. eexists; split; eassumption.
Qed.

Lemma setRewardRate_Some sender r c c' :
  setRewardRate sender r c = Some c' ->
  nftContract c' = nftContract c
  /\ stakedTokens (store c') = stakedTokens (store c)
  /\ _stakedTokensByOwner (store c') = _stakedTokensByOwner (store c)
  /\ _stakedTokensIndex (store c') = _stakedTokensIndex (store c).
Proof.
  unfold setRewardRate. intros H; sol_inv; subst; simpl; repeat split; reflexivity.
Qed.

Lemma setMinimumStakingPeriod_Some sender p c c' :
  setMinimumStakingPeriod sender p c = Some c' ->
  nftContract c' = nftContract c
  /\ stakedTokens (store c') = stakedTokens (store c)
  /\ _stakedTokensByOwner (store c') = _stakedTokensByOwner (store c)
  /\ _stakedTokensIndex (store c') = _stakedTokensIndex (store c).
Proof.
  unfold setMinimumStakingPeriod. intros H; sol_inv; subst; simpl; repeat split; reflexivity.
Qed.

(** A call moves a token out of the contract only by unstaking it. *)
Lemma custody_step sender now k c c' t :
  run sender now k c = Some c' ->
  ERC721.ownerOf t (nftContract c) = Some (self (store c)) ->
  ERC721.ownerOf t (nftContract c') <> Some (self (store c)) ->
  k = Unstake t /\ unstake sender now t c = Some c'.
Proof.
  intros Hrun Hin Hout. destruct k as [t' | t' | | r | p]; simpl in Hrun.
  - exfalso. apply stake_Some in Hrun as (_ & _ & Htr & _).
    apply safeTransferFrom_owner in Htr as (_ & Hto & Hother).
    destruct (decide (t = t')) as [-> | Hne]; [congruence |].
    rewrite (Hother t Hne) in Hout. congruence.
  - destruct (decide (t = t')) as [-> | Hne]; [split; [reflexivity | assumption] |].
    exfalso. apply unstake_Some in Hrun as (_ & _ & _ & Htr & _).
    apply safeTransferFrom_owner in Htr as (_ & _ & Hother).
    rewrite (Hother t Hne) in Hout. congruence.
  - exfalso. apply claimRewards_Some in Hrun as (Hl & _). congruence.
  - exfalso. apply setRewardRate_Some in Hrun as (Hl & _). congruence.
  - exfalso. apply setMinimumStakingPeriod_Some in Hrun as (Hl & _). congruence.
Qed.

(** The record of a staked token is only changed by unstaking it. *)
Lemma record_step sender now k c c' t :
  run sender now k c = Some c' ->
  isStaked (info (store c) t) = true ->
  k <> Unstake t ->
  info (store c') t = info (store c) t.
Proof.
  intros Hrun Hst Hk. destruct k as [t' | t' | | r | p]; simpl in Hrun.
  - apply stake_Some in Hrun as (_ & Hfree & _ & _ & Hrec & _).
    destruct (decide (t' = t)) as [-> | Hne]; [congruence |].
    unfold info. rewrite Hrec, lookup_insert_ne by assumption. reflexivity.
  - apply unstake_Some in Hrun as (_ & _ & _ & _ & rw & mv & tk & _ & _ & _ & _ & _ & Hs).
    destruct (decide (t' = t)) as [-> | Hne]; [congruence |].
    unfold info. rewrite Hs. simpl. rewrite lookup_delete_ne by assumption. reflexivity.
  - apply claimRewards_Some in Hrun as (_ & Hrec & _). unfold info. rewrite Hrec. reflexivity.
  - apply setRewardRate_Some in Hrun as (_ & Hrec & _).
    unfold info. rewrite Hrec. reflexivity.
  - apply setMinimumStakingPeriod_Some in Hrun as (_ & Hrec & _).
    unfold info. rewrite Hrec. reflexivity.
Qed.

Lemma unstake_refused sender now t c :
  owner (info (store c) t) <> sender
  \/ (now < stakedAt (info (store c) t) + minimumStakingPeriod (store c))%N ->
  unstake sender now t c = None.
Proof.
  intros Hbad. destruct (unstake sender now t c) as [c' |] eqn:Hun; [| reflexivity].
  apply unstake_Some in Hun as (Ho & _ & Ht & _). simpl in *.
  destruct Hbad; [congruence | lia].
Qed.

End Custody.

(** C8.  In the staking contract a call takes a token out of the custody
    of the contract only if it is an [unstake] of that token sent by the
    address recorded as its staker, in a block at least
    [minimumStakingPeriod] after [stakedAt], and the token then belongs to
    that address; an [unstake] by another address or before the period
    reverts and leaves the chain as it was; the recorded staker and time
    are those of the [stake] call, and no other call changes them. *)
Theorem unstake_only_staker_after_period (c : NFTStaking.Chain) (sender now : N) :
  let s := NFTStaking.store c in
  (forall k c' t,
      NFTStaking.run sender now k c = Some c' ->
      ERC721.ownerOf t (NFTStaking.nftContract c) = Some (NFTStaking.self s) ->
      ERC721.ownerOf t (NFTStaking.nftContract c') <> Some (NFTStaking.self s) ->
      k = NFTStaking.Unstake t
      /\ NFTStaking.owner (NFTStaking.info s t) = sender
      /\ NFTStaking.isStaked (NFTStaking.info s t) = true
      /\ (NFTStaking.stakedAt (NFTStaking.info s t)
          + NFTStaking.minimumStakingPeriod s <= now)%N
      /\ ERC721.ownerOf t (NFTStaking.nftContract c') = Some sender)
  /\ (forall t,
        NFTStaking.owner (NFTStaking.info s t) <> sender
        \/ (now < NFTStaking.stakedAt (NFTStaking.info s t)
                  + NFTStaking.minimumStakingPeriod s)%N ->
        NFTStaking.unstake sender now t c = None
        /\ NFTStaking.exec sender now (NFTStaking.Unstake t) c = c)
  /\ (forall t c',
        NFTStaking.stake sender now t c = Some c' ->
        NFTStaking.info (NFTStaking.store c') t = NFTStaking.mkInfo sender now true)
  /\ (forall k c' t,
        NFTStaking.run sender now k c = Some c' ->
        NFTStaking.isStaked (NFTStaking.info s t) = true ->
        k <> NFTStaking.Unstake t ->
        NFTStaking.info (NFTStaking.store c') t = NFTStaking.info s t).
Proof.
  intros s. repeat split.
  - eapply custody_step; eassumption.
  - edestruct custody_step as [_ Hun]; [eassumption .. |].
    apply unstake_Some in Hun as (Ho & _). exact Ho.
  - edestruct custody_step as [_ Hun]; [eassumption .. |].
    apply unstake_Some in Hun as (_ & Hs & _). exact Hs.
  - edestruct custody_step as [_ Hun]; [eassumption .. |].
    apply unstake_Some in Hun as (_ & _ & Ht & _). exact Ht.
  - edestruct custody_step as [_ Hun]; [eassumption .. |].
    apply unstake_Some in Hun as (_ & _ & _ & Htr & _).
    apply safeTransferFrom_owner in Htr as (_ & Hto & _). exact Hto.
  - apply unstake_refused. assumption.
  - unfold NFTStaking.exec. simpl. rewrite unstake_refused by assumption. reflexivity.
  - intros t c' Hst. apply stake_Some in Hst as (_ & _ & _ & _ & Hrec & _).
    unfold NFTStaking.info. rewrite Hrec, lookup_insert_eq. reflexivity.
  - intros k c' t. apply record_step.
Qed.

Lemma unstake_only_staker_after_period_witness :
  NFTStaking.unstake 8 (1000 + 86400) 1 sampleChain = None
  /\ NFTStaking.unstake 7 (1000 + 86399) 1 sampleChain = None
  /\ (exists c', NFTStaking.unstake 7 (1000 + 86400) 1 sampleChain = Some c'
                 /\ ERC721.ownerOf 1 (NFTStaking.nftContract c') = Some 7%N).
Proof.
  split; [| split].
  - apply (proj1 (proj2 (unstake_only_staker_after_period sampleChain 8 (1000 + 86400)))).
    left. vm_compute. discriminate.
  - apply (proj1 (proj2 (unstake_only_staker_after_period sampleChain 7 (1000 + 86399)))).
    right. vm_compute. reflexivity.
  - vm_compute. eexists. split; reflexivity.
Defined.

Section Consistency.
Import NFTStaking.

(** The array of a staker and the index mapping after the swap and the
    pop of [unstake], for a token found at its recorded index. *)
Lemma moveLast_shape l index idx tokenId moved tokens :
  l !! N.to_nat idx = Some tokenId ->
  moveLast l index idx (N.of_nat (length l) - 1) = Some moved ->
  array_pop moved.1 = Some tokens ->
  exists l0 z, l = l0 ++ [z] /\
    ((N.to_nat idx = length l0 /\ z = tokenId /\ tokens = l0 /\ moved.2 = index)
     \/ (N.to_nat idx < length l0 /\ l0 !! N.to_nat idx = Some tokenId
         /\ tokens = <[N.to_nat idx := z]> l0 /\ moved.2 = <[z := idx]> index))%nat.
Proof.
  intros Hat Hmv Hpop.
  destruct l as [| x l'] using rev_ind; [rewrite lookup_nil in Hat; discriminate |].
  clear IHl'. exists l', x. split; [reflexivity |].
  rewrite length_app in Hmv. simpl in Hmv.
  replace (N.of_nat (length l' + 1) - 1)%N with (N.of_nat (length l')) in Hmv by lia.
  unfold moveLast in Hmv.
  apply lookup_snoc_Some in Hat as [[Hlt Hat] | [Heq Hx]].
  - right. destruct (N.eqb_spec idx (N.of_nat (length l'))) as [Hi | Hi]; [lia |].
    unfold array_get, array_set in Hmv. rewrite Nat2N.id in Hmv.
    rewrite list_lookup_middle in Hmv by reflexivity. simpl in Hmv.
    rewrite length_app in Hmv. simpl in Hmv.
    destruct (N.ltb_spec idx (N.of_nat (length l' + 1))) as [_ | Hge]; [| lia].
    simpl in Hmv. inversion Hmv; subst moved; clear Hmv. simpl in *.
    rewrite insert_app_l in Hpop by assumption.
    unfold array_pop in Hpop.
    destruct (<[N.to_nat idx:=x]> l' ++ [x]) eqn:Hl; [destruct (<[N.to_nat idx:=x]> l'); discriminate |].
    rewrite <- Hl in Hpop. inversion Hpop; subst tokens; clear Hpop.
    rewrite length_app, length_insert. simpl.
    replace (length l' + 1 - 1)%nat with (length (<[N.to_nat idx:=x]> l')) by (rewrite length_insert; lia).
    rewrite take_app_length. repeat split; assumption.
  - left. subst x.
    destruct (N.eqb_spec idx (N.of_nat (length l'))) as [Hi | Hi]; [| lia].
    inversion Hmv; subst moved; clear Hmv. simpl in *.
    unfold array_pop in Hpop.
    destruct (l' ++ [tokenId]) eqn:Hl; [destruct l'; discriminate |].
    rewrite <- Hl in Hpop. inversion Hpop; subst tokens; clear Hpop.
    rewrite length_app. simpl.
    replace (length l' + 1 - 1)%nat with (length l') by lia.
    rewrite take_app_length. repeat split; assumption.
Qed.

Lemma tokensOf_insert s a l m b :
  _stakedTokensByOwner s = <[a := l]> m ->
  tokensOf s b = if decide (a = b) then l else default [] (m !! b).
Proof.
  intros H. unfold tokensOf. rewrite H, lookup_insert.
  destruct (decide (a = b)); reflexivity.
Qed.

Lemma consistent_deploy deployer this nft : consistent (store (deploy deployer this nft)).
Proof.
  split.
  - intros a i t H. unfold tokensOf in H. simpl in H.
    rewrite lookup_empty in H. simpl in H. rewrite lookup_nil in H. discriminate.
  - intros t H. unfold info in H. simpl in H. rewrite lookup_empty in H. discriminate.
Qed.

Lemma consistent_stake sender now tokenId c c' :
  consistent (store c) -> stake sender now tokenId c = Some c' -> consistent (store c').
Proof.
  intros [W1 W2] H.
  apply stake_Some in H as (_ & Hfree & _ & _ & Hrec & Hby & Hidx & _).
  assert (Hinfo : forall t, info (store c') t
            = if decide (tokenId = t) then mkInfo sender now true else info (store c) t).
  { intros t. unfold info. rewrite Hrec, lookup_insert.
    destruct (decide (tokenId = t)); reflexivity. }
  assert (Htok : forall a, tokensOf (store c') a
            = if decide (sender = a) then tokensOf (store c) sender ++ [tokenId]
              else tokensOf (store c) a).
  { intros a. apply (tokensOf_insert _ _ _ _ _ Hby). }
  assert (Hix : forall t, indexOf (store c') t
            = if decide (tokenId = t) then N.of_nat (length (tokensOf (store c) sender))
              else indexOf (store c) t).
  { intros t. unfold indexOf. rewrite Hidx, lookup_insert.
    destruct (decide (tokenId = t)); reflexivity. }
  split.
  - intros a i t Hl. rewrite Htok in Hl. rewrite Hinfo, Hix.
    assert (Hold : forall a i, tokensOf (store c) a !! i = Some t -> tokenId <> t).
    { intros a0 i0 H0 ->. destruct (W1 _ _ _ H0) as (_ & Hs & _). congruence. }
    destruct (decide (sender = a)) as [<- | Hne].
    + apply lookup_snoc_Some in Hl as [[Hlt Hl] | [-> <-]].
      * rewrite !decide_False by (eapply Hold; eassumption). apply W1. assumption.
      * rewrite !decide_True by reflexivity. simpl. repeat split.
    + rewrite !decide_False by (eapply Hold; eassumption). apply W1. assumption.
  - intros t Hs. rewrite Hinfo in Hs |- *. rewrite Hix.
    destruct (decide (tokenId = t)) as [-> | Hne]; simpl.
    + rewrite Htok, decide_True by reflexivity. rewrite Nat2N.id.
      apply list_lookup_middle. reflexivity.
    + specialize (W2 t Hs). rewrite Htok.
      destruct (decide (sender = owner (info (store c) t))) as [Heq | ?]; [| assumption].
      rewrite <- Heq in W2. apply lookup_app_l_Some. assumption.
Qed.

Lemma consistent_unstake sender now tokenId c c' :
  consistent (store c) -> unstake sender now tokenId c = Some c' -> consistent (store c').
Proof.
  intros [W1 W2] H.
  apply unstake_Some in H as (Ho & Hs & _ & _ & rw & moved & tokens & _ & _ & Hmv & _ & Hpop & Hst).
  simpl in *.
  pose proof (W2 tokenId Hs) as Hat. rewrite Ho in Hat.
  destruct (moveLast_shape _ _ _ _ _ _ Hat Hmv Hpop) as (l0 & z & Hl & Hcase).
  assert (Hinfo : forall t, info (store c') t
            = if decide (tokenId = t) then noInfo else info (store c) t).
  { intros t. unfold info. rewrite Hst. simpl. rewrite lookup_delete.
    destruct (decide (tokenId = t)); reflexivity. }
  assert (Htok : forall a, tokensOf (store c') a
            = if decide (sender = a) then tokens else tokensOf (store c) a).
  { intros a. apply tokensOf_insert. rewrite Hst. reflexivity. }
  assert (Hix : forall t, indexOf (store c') t
            = if decide (tokenId = t) then 0%N else default 0%N (moved.2 !! t)).
  { intros t. unfold indexOf. rewrite Hst. simpl. rewrite lookup_delete.
    destruct (decide (tokenId = t)); reflexivity. }
  assert (Hz : owner (info (store c) z) = sender /\ isStaked (info (store c) z) = true
               /\ indexOf (store c) z = N.of_nat (length l0)).
  { apply W1. rewrite Hl. apply list_lookup_middle. reflexivity. }
  assert (Hl0 : forall i t, l0 !! i = Some t ->
            owner (info (store c) t) = sender /\ isStaked (info (store c) t) = true
            /\ indexOf (store c) t = N.of_nat i /\ (i < length l0)%nat).
  { intros i t Hi. pose proof (lookup_lt_Some _ _ _ Hi).
    destruct (W1 sender i t) as (? & ? & ?); [rewrite Hl; apply lookup_app_l_Some; assumption |].
    repeat split; assumption. }
  destruct Hz as (Hzo & Hzs & Hzi).
  split.
  - intros a i t Hlk. rewrite Htok in Hlk. rewrite Hinfo, Hix.
    destruct (decide (sender = a)) as [<- | Hne].
    + destruct Hcase as [(Hk & -> & -> & Hm) | (Hk & Hk0 & -> & Hm)].
      * destruct (Hl0 _ _ Hlk) as (? & ? & Hi & Hlt).
        assert (tokenId <> t) by (intros ->; lia).
        rewrite !decide_False by assumption. rewrite Hm. repeat split; assumption.
      * destruct (decide (i = N.to_nat (indexOf (store c) tokenId))) as [-> | Hik].
        -- rewrite list_lookup_insert_eq in Hlk by assumption. inversion Hlk; subst t.
           assert (tokenId <> z) by (intros ->; lia).
           rewrite !decide_False by assumption. rewrite Hm, lookup_insert_eq. simpl.
           repeat split; try assumption. lia.
        -- rewrite list_lookup_insert_ne in Hlk by congruence.
           destruct (Hl0 _ _ Hlk) as (? & ? & Hi & Hlt).
           assert (tokenId <> t) by (intros ->; lia).
           assert (z <> t) by (intros ->; lia).
           rewrite !decide_False by assumption.
           rewrite Hm, lookup_insert_ne by assumption. repeat split; assumption.
    + destruct (W1 _ _ _ Hlk) as (Hto & Hts & Hti).
      assert (tokenId <> t) by (intros ->; congruence).
      rewrite !decide_False by assumption.
      destruct Hcase as [(_ & _ & _ & Hm) | (_ & _ & _ & Hm)]; rewrite Hm.
      * repeat split; assumption.
      * assert (z <> t) by (intros ->; congruence).
        rewrite lookup_insert_ne by assumption. repeat split; assumption.
  - intros t Hts. rewrite Hinfo in Hts |- *. rewrite Hix, Htok.
    destruct (decide (tokenId = t)) as [-> | Hne]; [discriminate |].
    pose proof (W2 t Hts) as Ht.
    destruct (decide (sender = owner (info (store c) t))) as [Heq | Hdiff].
    + rewrite <- Heq, Hl in Ht.
      apply lookup_snoc_Some in Ht as [[Hlt Ht] | [Hlast Hzt]].
      * destruct (Hl0 _ _ Ht) as (_ & _ & Hi & _).
        destruct Hcase as [(_ & _ & -> & Hm) | (Hk & Hk0 & -> & Hm)]; rewrite Hm.
        -- exact Ht.
        -- assert (z <> t) by (intros ->; lia).
           rewrite lookup_insert_ne by assumption.
           rewrite list_lookup_insert_ne; [exact Ht |].
           intros Hkk. fold (indexOf (store c) t) in Hkk.
           rewrite Hkk in Hk0. congruence.
      * subst t.
        destruct Hcase as [(_ & Hzt & _ & _) | (Hk & Hk0 & -> & Hm)]; [congruence |].
        rewrite Hm, lookup_insert_eq. simpl.
        apply list_lookup_insert_eq. assumption.
    + destruct Hcase as [(_ & _ & _ & Hm) | (_ & _ & _ & Hm)]; rewrite Hm.
      * exact Ht.
      * assert (z <> t) by (intros ->; congruence).
        rewrite lookup_insert_ne by assumption. exact Ht.
Qed.

Lemma consistent_run sender now k c c' :
  consistent (store c) -> run sender now k c = Some c' -> consistent (store c').
Proof.
  intros W H. destruct k as [t | t | | r | p]; simpl in H.
  - eapply consistent_stake; eassumption.
  - eapply consistent_unstake; eassumption.
  - apply claimRewards_Some in H as (_ & Hr & Hb & Hi & _).
    unfold consistent, info, tokensOf, indexOf in *. rewrite Hr, Hb, Hi. exact W.
  - apply setRewardRate_Some in H as (_ & Hr & Hb & Hi).
    unfold consistent, info, tokensOf, indexOf in *. rewrite Hr, Hb, Hi. exact W.
  - apply setMinimumStakingPeriod_Some in H as (_ & Hr & Hb & Hi).
    unfold consistent, info, tokensOf, indexOf in *. rewrite Hr, Hb, Hi. exact W.
Qed.

Lemma reachable_consistent c : reachable c -> consistent (store c).
Proof.
  induction 1 as [deployer this nft | c sender tm k c' _ IH Hrun | c nft' _ IH].
  - apply consistent_deploy.
  - eapply consistent_run; eassumption.
  - exact IH.
Qed.

End Consistency.

Section RewardAccounting.
Import NFTStaking.

Lemma sol_add_assoc p x y :
  (p + x <= Sol.MAX_UINT256)%N -> Sol.add (p + x) y = Sol.add p (x + y).
Proof.
  intros _. unfold Sol.add. rewrite N.add_assoc. reflexivity.
Qed.

Lemma sol_add_over p x y :
  (Sol.MAX_UINT256 < p + x)%N -> Sol.add p (x + y) = None.
Proof.
  intros H. unfold Sol.add. destruct (N.leb_spec (p + (x + y)) Sol.MAX_UINT256); [lia | reflexivity].
Qed.

Lemma pendingLoop_total tm s l p :
  (p <= Sol.MAX_UINT256)%N ->
  pendingLoop tm s l p = (T ← pendingTotal tm s l; Sol.add p T).
Proof.
  revert p. induction l as [| t l IH]; intros p Hp; simpl.
  - unfold Sol.add. rewrite N.add_0_r.
    destruct (N.leb_spec p Sol.MAX_UINT256); [reflexivity | lia].
  - destruct (calculateReward tm t s) as [x |]; simpl; [| reflexivity].
    destruct (Sol.add p x) as [q |] eqn:Hq; simpl.
    + apply sol_add_Some in Hq as [-> Hle]. rewrite IH by assumption.
      destruct (pendingTotal tm s l) as [y |]; simpl; [| reflexivity].
      apply sol_add_assoc. assumption.
    + destruct (pendingTotal tm s l) as [y |]; simpl; [| reflexivity].
      symmetry. apply sol_add_over. unfold Sol.add in Hq.
      destruct (N.leb_spec (p + x) Sol.MAX_UINT256); [discriminate | assumption].
Qed.

Lemma pendingTotal_perm tm s l l' :
  Permutation l l' -> pendingTotal tm s l = pendingTotal tm s l'.
Proof.
  induction 1 as [| x l l' _ IH | x y l | l l' l'' _ IH1 _ IH2]; simpl.
  - reflexivity.
  - rewrite IH. reflexivity.
  - destruct (calculateReward tm y s), (calculateReward tm x s),
      (pendingTotal tm s l); simpl; try reflexivity. f_equal. lia.
  - congruence.
Qed.

Lemma pendingTotal_ext tm s s' l :
  (forall t, t ∈ l -> calculateReward tm t s' = calculateReward tm t s) ->
  pendingTotal tm s' l = pendingTotal tm s l.
Proof.
  induction l as [| t l IH]; intros H; simpl; [reflexivity |].
  rewrite H by apply list_elem_of_here.
  rewrite IH; [reflexivity |]. intros t' Ht'. apply H. apply list_elem_of_further. assumption.
Qed.

Lemma getRewardAmount_total tm a s :
  getRewardAmount tm a s
  = (T ← pendingTotal tm s (tokensOf s a); Sol.add (accumulated s a) T).
Proof.
  unfold getRewardAmount. rewrite pendingLoop_total by (vm_compute; discriminate).
  destruct (pendingTotal tm s (tokensOf s a)) as [T |]; simpl; [| reflexivity].
  assert (H0 : Sol.add 0 T = if (T <=? Sol.MAX_UINT256)%N then Some T else None)
    by (unfold Sol.add; rewrite N.add_0_l; reflexivity).
  rewrite H0; clear H0.
  destruct (N.leb_spec T Sol.MAX_UINT256) as [Hle | Hgt]; simpl; [reflexivity |].
  unfold Sol.add. destruct (N.leb_spec (accumulated s a + T) Sol.MAX_UINT256); [lia | reflexivity].
Qed.

Lemma unstake_list_perm l index idx tokenId moved tokens :
  l !! N.to_nat idx = Some tokenId ->
  moveLast l index idx (N.of_nat (length l) - 1) = Some moved ->
  array_pop moved.1 = Some tokens ->
  Permutation l (tokenId :: tokens).
Proof.
  intros Hat Hmv Hpop.
  destruct (moveLast_shape _ _ _ _ _ _ Hat Hmv Hpop)
    as (l0 & z & -> & [(_ & -> & -> & _) | (Hk & Hk0 & -> & _)]).
  - symmetry. apply Permutation_cons_append.
  - rewrite insert_take_drop by assumption.
    rewrite <- (take_drop_middle _ _ _ Hk0) at 1.
    rewrite <- app_assoc. simpl.
    symmetry. apply Permutation_cons_app.
    apply Permutation_app_head. apply Permutation_cons_append.
Qed.

End RewardAccounting.

(** C9.  In a chain the staking contract can reach, a successful
    [unstake] leaves [getRewardAmount], evaluated at the timestamp of the
    call, as it was for every address (a revert of the view included): the
    pending reward of the token is added to [accumulatedRewards] of the
    caller and the token leaves the array the view sums over. *)
Theorem unstake_preserves_getRewardAmount
    (c c' : NFTStaking.Chain) (sender now tokenId : N) :
  NFTStaking.reachable c ->
  NFTStaking.unstake sender now tokenId c = Some c' ->
  (forall a, NFTStaking.getRewardAmount now a (NFTStaking.store c')
             = NFTStaking.getRewardAmount now a (NFTStaking.store c))
  /\ (exists reward,
        NFTStaking.calculateReward now tokenId (NFTStaking.store c) = Some reward
        /\ NFTStaking.accumulated (NFTStaking.store c') sender
           = (NFTStaking.accumulated (NFTStaking.store c) sender + reward)%N)
  /\ tokenId ∉ NFTStaking.tokensOf (NFTStaking.store c') sender.
Proof.
  intros Hreach Hun.
  pose proof (reachable_consistent _ Hreach) as W.
  pose proof (consistent_unstake _ _ _ _ _ W Hun) as W'.
  destruct W as [W1 W2]. destruct W' as [W1' _].
  apply unstake_Some in Hun
    as (Ho & Hs & _ & _ & rw & moved & tokens & Hrw & _ & Hmv & _ & Hpop & Hst).
  simpl in *.
  pose proof (W2 tokenId Hs) as Hat. rewrite Ho in Hat.
  pose proof (unstake_list_perm _ _ _ _ _ _ Hat Hmv Hpop) as Hperm.
  assert (Hinfo : forall t, t <> tokenId ->
            NFTStaking.info (NFTStaking.store c') t
            = NFTStaking.info (NFTStaking.store c) t).
  { intros t Ht. unfold NFTStaking.info. rewrite Hst. simpl.
    rewrite lookup_delete_ne by congruence. reflexivity. }
  assert (Hgone : NFTStaking.isStaked
                    (NFTStaking.info (NFTStaking.store c') tokenId) = false).
  { unfold NFTStaking.info. rewrite Hst. simpl. rewrite lookup_delete_eq. reflexivity. }
  assert (Hcalc : forall t, t <> tokenId ->
            NFTStaking.calculateReward now t (NFTStaking.store c')
            = NFTStaking.calculateReward now t (NFTStaking.store c)).
  { intros t Ht. unfold NFTStaking.calculateReward. rewrite (Hinfo t Ht).
    rewrite Hst. reflexivity. }
  assert (Htok : forall a, NFTStaking.tokensOf (NFTStaking.store c') a
            = if decide (sender = a) then tokens
              else NFTStaking.tokensOf (NFTStaking.store c) a).
  { intros a. apply tokensOf_insert. rewrite Hst. reflexivity. }
  assert (Hacc : forall a, NFTStaking.accumulated (NFTStaking.store c') a
            = if decide (sender = a)
              then (NFTStaking.accumulated (NFTStaking.store c) sender + rw)%N
              else NFTStaking.accumulated (NFTStaking.store c) a).
  { intros a. unfold NFTStaking.accumulated at 1. rewrite Hst. simpl.
    destruct (decide (sender = a)) as [<- | Hne].
    - rewrite lookup_insert_eq. reflexivity.
    - rewrite lookup_insert_ne by assumption. reflexivity. }
  assert (Hnotin : tokenId ∉ tokens).
  { intros Hin. apply list_elem_of_lookup in Hin as [i Hi].
    destruct (W1' sender i tokenId) as (_ & Hst' & _).
    - rewrite Htok, decide_True by reflexivity. exact Hi.
    - congruence. }
  split; [| split].
  - intros a. rewrite !getRewardAmount_total, Htok, Hacc.
    destruct (decide (sender = a)) as [<- | Hne].
    + rewrite (pendingTotal_ext now (NFTStaking.store c) (NFTStaking.store c') tokens)
        by (intros t Ht; apply Hcalc; intros ->; contradiction).
      rewrite (pendingTotal_perm now _ _ _ Hperm). simpl. rewrite Hrw. simpl.
      destruct (NFTStaking.pendingTotal now (NFTStaking.store c) tokens) as [y |]; simpl; [| reflexivity].
      unfold Sol.add. rewrite N.add_assoc. reflexivity.
    + rewrite (pendingTotal_ext now (NFTStaking.store c) (NFTStaking.store c')); [reflexivity |].
      intros t Ht. apply Hcalc. intros ->.
      apply list_elem_of_lookup in Ht as [i Hi].
      destruct (W1 a i tokenId Hi) as (Hoa & _). congruence.
  - exists rw. split; [exact Hrw |]. rewrite Hacc, decide_True by reflexivity. reflexivity.
  - rewrite Htok, decide_True by reflexivity. exact Hnotin.
Qed.

Lemma sampleChain_reachable : NFTStaking.reachable sampleChain.
Proof.
  apply (NFTStaking.reach_call (NFTStaking.deploy 1 99 sampleLedger) 7 1000
           (NFTStaking.Stake 1)).
  - apply NFTStaking.reach_deploy.
  - vm_compute. reflexivity.
Qed.

Lemma unstake_preserves_getRewardAmount_witness :
  let c' := NFTStaking.exec 7 (1000 + 172800) (NFTStaking.Unstake 1) sampleChain in
  NFTStaking.getRewardAmount (1000 + 172800) 7 (NFTStaking.store c')
  = NFTStaking.getRewardAmount (1000 + 172800) 7 (NFTStaking.store sampleChain)
  /\ NFTStaking.getRewardAmount (1000 + 172800) 7 (NFTStaking.store c')
     = Some (20 * Sol.ETHER)%N.
Proof.
  split.
  - apply (unstake_preserves_getRewardAmount sampleChain _ 7 (1000 + 172800) 1).
    + exact sampleChain_reachable.
    + vm_compute. reflexivity.
  - vm_compute. reflexivity.
Defined.

Section SupplyCap.
Import MonadNFT.

Lemma _mint_supply to tokenId l l' :
  ERC721._mint to tokenId l = Some l' ->
  ERC721.totalSupply l' = (ERC721.totalSupply l + 1)%N.
Proof.
  unfold ERC721._mint. intros H. sol_inv. subst.
  unfold ERC721.totalSupply. simpl. rewrite length_app. simpl. lia.
Qed.

Lemma _safeMint_passive to tokenId h s s' :
  passive h -> _safeMint to tokenId h s = Some s' ->
  totalSupply s' = (totalSupply s + 1)%N /\ maxSupply s' = maxSupply s.
Proof.
  unfold _safeMint. intros Hp H. sol_inv.
  match goal with H : ERC721._mint _ _ _ = Some _ |- _ => apply _mint_supply in H end.
  destruct (Hp (set_ledger x s)) as [Hh | Hh]; [| congruence].
  assert (s' = set_ledger x s) by congruence. subst s'.
  unfold totalSupply. simpl. split; [assumption | reflexivity].
Qed.

Lemma mintLoop_passive sender n i h s s' :
  (forall j, passive (h j)) -> mintLoop sender n i h s = Some s' ->
  totalSupply s' = (totalSupply s + N.of_nat n)%N /\ maxSupply s' = maxSupply s.
Proof.
  intros Hp. revert i s. induction n as [| n IH]; intros i s H; simpl in H.
  - inversion H; subst. split; [lia | reflexivity].
  - sol_inv.
    match goal with H : _safeMint _ _ _ _ = Some _ |- _ =>
      apply _safeMint_passive in H as [Hs Hm]; [| apply Hp] end.
    match goal with H : mintLoop _ _ _ _ _ = Some _ |- _ =>
      apply IH in H as [Hs' Hm'] end.
    split; [lia | congruence].
Qed.

(** The cap holds across every call whose notified contracts do not call
    back. *)
Lemma capped_passive sender k s s' :
  passive_call k -> capped s -> run sender k s = Some s' -> capped s'.
Proof.
  unfold capped. intros Hp Hc H. destruct k; simpl in H, Hp.
  - unfold mint in H. sol_inv.
    match goal with H : _safeMint _ _ _ _ = Some _ |- _ =>
      apply _safeMint_passive in H as [Hs Hm]; [| assumption] end.
    match goal with H : (_ <? _)%N = true |- _ => apply N.ltb_lt in H end.
    unfold totalSupply in *. simpl in *. lia.
  - unfold mintMultiple in H. sol_inv.
    match goal with H : mintLoop _ _ _ _ _ = Some _ |- _ =>
      apply mintLoop_passive in H as [Hs Hm]; [| assumption] end.
    match goal with H : (_ <=? maxSupply _)%N = true |- _ => apply N.leb_le in H end.
    unfold totalSupply in *. simpl in *. lia.
  - unfold whitelistMint in H. sol_inv. subst.
    match goal with H : _safeMint _ _ _ _ = Some _ |- _ =>
      apply _safeMint_passive in H as [Hs Hm]; [| assumption] end.
    match goal with H : (_ <? _)%N = true |- _ => apply N.ltb_lt in H end.
    unfold totalSupply in *. simpl in *. lia.
  - unfold addToWhitelist in H. sol_inv. subst. exact Hc.
  - unfold setMintPrice in H. sol_inv. subst. exact Hc.
  - unfold setMaxSupply in H. sol_inv. subst.
    match goal with H : (_ <=? _)%N = true |- _ => apply N.leb_le in H end.
    simpl. assumption.
  - unfold withdraw in H. sol_inv.
    match goal with H : onPaid ?x = Some _ |- _ =>
      destruct (Hp x) as [Hh | Hh]; [| congruence];
      assert (s' = x) by congruence; subst s' end.
    exact Hc.
Qed.

End SupplyCap.

(** C10 (the code does not keep the invariant).  With no token minted
    and a maximum supply of two, [mintMultiple(2)] sent by a contract
    that calls [mint] from its token-received hook passes the check
    [totalSupply() + count <= maxSupply], and the loop then mints on top
    of the token minted by the nested call: the transaction succeeds and
    leaves [totalSupply() = 3] with [maxSupply = 2]. *)
Theorem mintMultiple_reentrant_exceeds_maxSupply :
  MonadNFT.capped smallCollection
  /\ exists s',
       MonadNFT.run 7 (MonadNFT.MintMultiple (2 * (Sol.ETHER / 100)) 2
                         reentrantReceiver) smallCollection = Some s'
       /\ MonadNFT.totalSupply s' = 3%N
       /\ MonadNFT.maxSupply s' = 2%N
       /\ ~ MonadNFT.capped s'.
Proof.
  split; [vm_compute; discriminate |].
  eexists. split; [vm_compute; reflexivity |].
  split; [reflexivity |]. split; [reflexivity |].
  vm_compute. intros H. apply H. reflexivity.
Qed.

(** * Properties of the client *)

Section ResilientCaller.
Import Client.
Context `{E : Env}.

Lemma attempts_app tr1 tr2 : attempts (tr1 ++ tr2) = attempts tr1 ++ attempts tr2.
Proof. apply omap_app. Qed.

Lemma schedule_app tr1 tr2 : schedule (tr1 ++ tr2) = schedule tr1 ++ schedule tr2.
Proof. apply omap_app. Qed.

(** Unfolds one layer of the monad. *)
Ltac step :=
  unfold tryCatch, finally, attemptOf, console, sleep, emit, set, random, liftOp,
    liftE, throw, method, metadataPhase, mret, M_ret, ret, mbind, M_bind, bind in *;
  simpl in *.

(** One turn of the loop of [safeRpcCall] on an invocation that rejects. *)
Lemma safeRpcAttempt_rejected {A} (fn : M A) name n attempt st e :
  (fn st).2 = inl e ->
  let st1 := (fn st).1 in
  let out := safeRpcAttempt fn name n attempt st in
  attempts (trace out.1) = attempts (trace st1) ++ [Some e]
  /\ ui out.1 = ui st1
  /\ (if (S attempt =? n)%nat
      then out.2 = inl e /\ world out.1 = world st1
           /\ schedule (trace out.1) = schedule (trace st1) ++ [Tried true]
      else out.2 = inr None /\ world out.1 = (Math_random (world st1)).1
           /\ schedule (trace out.1)
              = schedule (trace st1)
                ++ [Tried true;
                    Waited (baseDelay attempt + (Math_random (world st1)).2 * 500)%Q]).
Proof.
  intros He. unfold safeRpcAttempt.
  destruct (S attempt =? n)%nat; step;
    destruct (fn st) as [st1 r]; simpl in *; subst r; simpl.
  - rewrite !attempts_app, !schedule_app. simpl. rewrite !app_nil_r.
    repeat split; reflexivity.
  - destruct (Math_random (world st1)) as [w q]. simpl.
    rewrite !attempts_app, !schedule_app. simpl. rewrite !app_nil_r, <- !app_assoc.
    repeat split; reflexivity.
Qed.

(** One turn on an invocation that resolves. *)
Lemma safeRpcAttempt_resolved {A} (fn : M A) name n attempt st a :
  (fn st).2 = inr a ->
  let st1 := (fn st).1 in
  let out := safeRpcAttempt fn name n attempt st in
  out.2 = inr (Some a) /\ world out.1 = world st1 /\ ui out.1 = ui st1
  /\ attempts (trace out.1) = attempts (trace st1) ++ [None]
  /\ schedule (trace out.1) = schedule (trace st1) ++ [Tried false].
Proof.
  intros He. unfold safeRpcAttempt.
  destruct (0 <? attempt)%nat; step;
    destruct (fn st) as [st1 r]; simpl in *; subst r; simpl;
    rewrite ?attempts_app, ?schedule_app; simpl; rewrite ?app_nil_r;
    repeat split; reflexivity.
Qed.

Lemma safeRpcLoop_S {A} (fn : M A) name n remaining attempt st :
  safeRpcLoop fn name n (S remaining) attempt st
  = match safeRpcAttempt fn name n attempt st with
    | (st', inl e) => (st', inl e)
    | (st', inr (Some result)) => (st', inr result)
    | (st', inr None) => safeRpcLoop fn name n remaining (S attempt) st'
    end.
Proof.
  simpl. unfold mbind, M_bind, bind.
  destruct (safeRpcAttempt fn name n attempt st) as [st' [e | [a |]]]; reflexivity.
Qed.

Lemma safeRpcLoop_exhausts {A} (fn : M A) name n :
  alwaysFails fn -> plain fn ->
  forall remaining attempt st,
    (attempt + S remaining)%nat = n ->
    let out := safeRpcLoop fn name n (S remaining) attempt st in
    exists errs e,
      attempts (trace out.1) = attempts (trace st) ++ map Some errs
      /\ length errs = S remaining /\ last errs = Some e /\ out.2 = inl e.
Proof.
  intros Hfail Hplain. induction remaining as [| remaining IH]; intros attempt st Hn out;
    subst out; rewrite safeRpcLoop_S;
    destruct (Hfail st) as [e He];
    destruct (safeRpcAttempt_rejected fn name n attempt st e He) as (Hat & _ & Hlast);
    destruct (Hplain st) as [Hpl _]; rewrite Hpl in Hat.
  - replace (S attempt =? n)%nat with true in Hlast by (symmetry; apply Nat.eqb_eq; lia).
    destruct Hlast as (Hr & _).
    destruct (safeRpcAttempt fn name n attempt st) as [st2 r]. simpl in *. subst r.
    exists [e], e. repeat split. exact Hat.
  - replace (S attempt =? n)%nat with false in Hlast by (symmetry; apply Nat.eqb_neq; lia).
    destruct Hlast as (Hr & _).
    destruct (safeRpcAttempt fn name n attempt st) as [st2 r]. simpl in *. subst r.
    destruct (IH (S attempt) st2 ltac:(lia)) as (errs & e' & Hat' & Hlen & Hl & Hout).
    exists (e :: errs), e'. rewrite Hat', Hat, <- app_assoc. simpl.
    repeat split; [congruence | | exact Hout].
    destruct errs; [discriminate | exact Hl].
Qed.

Lemma retryRpcLoop_S_rejected {A} (fn : M A) n remaining i lastError st e :
  (fn st).2 = inl e ->
  exists st2,
    retryRpcLoop fn n (S remaining) i lastError st
    = retryRpcLoop fn n remaining (S i) (Some e) st2
    /\ attempts (trace st2) = attempts (trace (fn st).1) ++ [Some e].
Proof.
  intros He. simpl. step. destruct (fn st) as [st1 r]. simpl in *. subst r.
  eexists. split; [reflexivity |]. simpl.
  rewrite !attempts_app. simpl. rewrite !app_nil_r. reflexivity.
Qed.

Lemma retryRpcLoop_exhausts {A} (fn : M A) n :
  alwaysFails fn -> plain fn ->
  forall remaining i lastError st,
    let out := retryRpcLoop fn n remaining i lastError st in
    exists errs,
      attempts (trace out.1) = attempts (trace st) ++ map Some errs
      /\ length errs = remaining
      /\ out.2 = inl (match last errs with Some e => Some e | None => lastError end).
Proof.
  intros Hfail Hplain. induction remaining as [| remaining IH]; intros i lastError st out;
    subst out.
  - exists []. simpl. step. rewrite attempts_app, !app_nil_r. repeat split.
  - destruct (Hfail st) as [e He]. destruct (Hplain st) as [Hpl _].
    destruct (retryRpcLoop_S_rejected fn n remaining i lastError st e He) as (st2 & -> & Hat2).
    destruct (IH (S i) (Some e) st2) as (errs & Hat & Hlen & Hout).
    exists (e :: errs). rewrite Hat, Hout, Hat2, Hpl, <- app_assoc. simpl.
    repeat split; [congruence |].
    destruct errs as [| e0 errs]; [reflexivity |].
    rewrite last_cons_cons.
    destruct (last (e0 :: errs)) eqn:Hl; [reflexivity |].
    apply last_None in Hl. discriminate.
Qed.

End ResilientCaller.

(** C5.  On an operation that rejects at every invocation (and is not
    itself a retry wrapper), [safeRpcCall] and [retryRpcCall] invoke it
    exactly [maxAttempts] times and then raise the error of the last
    invocation as the operation raised it; the label is not added to it.
    With a maximum of zero nothing is invoked: [safeRpcCall] raises a
    [Failed after 0 attempts] error, [retryRpcCall] throws [undefined]. *)
Theorem safeRpcCall_exhausts_attempts `{E : Client.Env} {A} (fn : Client.M A)
    (name : string) (maxAttempts : nat) (st : Client.St) :
  Client.alwaysFails fn -> Client.plain fn ->
  (exists errs,
      Client.attempts (Client.trace (Client.safeRpcCall fn name maxAttempts st).1)
      = Client.attempts (Client.trace st) ++ map Some errs
      /\ length errs = maxAttempts
      /\ (Client.safeRpcCall fn name maxAttempts st).2
         = inl (default
                  (Client.mkErr ("Failed after " +:+ pretty maxAttempts +:+ " attempts"))
                  (last errs)))
  /\ (exists errs,
        Client.attempts (Client.trace (Client.retryRpcCall fn maxAttempts st).1)
        = Client.attempts (Client.trace st) ++ map Some errs
        /\ length errs = maxAttempts
        /\ (Client.retryRpcCall fn maxAttempts st).2 = inl (last errs)).
Proof.
  intros Hfail Hplain. split.
  - unfold Client.safeRpcCall. destruct maxAttempts as [| n].
    + exists []. simpl. rewrite app_nil_r. repeat split.
    + destruct (safeRpcLoop_exhausts fn name (S n) Hfail Hplain n 0%nat st eq_refl)
        as (errs & e & Hat & Hlen & Hl & Hout).
      exists errs. rewrite Hl. simpl. repeat split; assumption.
  - unfold Client.retryRpcCall.
    destruct (retryRpcLoop_exhausts fn maxAttempts Hfail Hplain maxAttempts 0%nat None st)
      as (errs & Hat & Hlen & Hout).
    exists errs. repeat split; [assumption .. |].
    rewrite Hout. destruct (last errs); reflexivity.
Qed.

Section Frames.
Import Client.
Context `{E : Env}.

Lemma keeps_ret {A X} (p : UI -> X) (a : A) : keeps p (mret a).
Proof. intros st. reflexivity. Qed.

Lemma keeps_throw {A X} (p : UI -> X) e : keeps p (throw e : M A).
Proof. intros st. reflexivity. Qed.

Lemma keeps_liftE {A X} (p : UI -> X) (r : Err + A) : keeps p (liftE r).
Proof. intros st. reflexivity. Qed.

Lemma keeps_emit {X} (p : UI -> X) ev : keeps p (emit ev).
Proof. intros st. reflexivity. Qed.

Lemma keeps_liftOp {A X} (p : UI -> X) (op : Op A) : keeps p (liftOp op).
Proof. intros st. unfold liftOp. destruct (op (world st)). reflexivity. Qed.

Lemma keeps_set {X} (p : UI -> X) f : (forall u, p (f u) = p u) -> keeps p (set f).
Proof. intros H st. apply H. Qed.

Lemma keeps_bind {A B X} (p : UI -> X) (m : M A) (k : A -> M B) :
  keeps p m -> (forall a, keeps p (k a)) -> keeps p (mbind k m).
Proof.
  intros Hm Hk st. unfold mbind, M_bind, bind.
  specialize (Hm st). destruct (m st) as [st1 [e | a]]; simpl in *; [exact Hm |].
  rewrite Hk. exact Hm.
Qed.

Lemma keeps_tryCatch {A X} (p : UI -> X) (m : M A) h :
  keeps p m -> (forall e, keeps p (h e)) -> keeps p (tryCatch m h).
Proof.
  intros Hm Hh st. unfold tryCatch.
  specialize (Hm st). destruct (m st) as [st1 [e | a]]; simpl in *; [| exact Hm].
  rewrite Hh. exact Hm.
Qed.

Lemma keeps_finally {A X} (p : UI -> X) (m : M A) fin :
  keeps p m -> keeps p fin -> keeps p (finally m fin).
Proof.
  intros Hm Hf st. unfold finally.
  specialize (Hm st). destruct (m st) as [st1 r]. simpl in *.
  specialize (Hf st1). destruct (fin st1) as [st2 [e | u]]; simpl in *; congruence.
Qed.

Lemma keeps_attemptOf {A X} (p : UI -> X) name (fn : M A) :
  keeps p fn -> keeps p (attemptOf name fn).
Proof.
  intros Hm st. unfold attemptOf. specialize (Hm st).
  destruct (fn st) as [st1 [e | a]]; exact Hm.
Qed.

Lemma keeps_method {A X} (p : UI -> X) (r : request A) : keeps p (method r).
Proof.
  unfold method. apply keeps_bind; [apply keeps_emit | intros; apply keeps_liftOp].
Qed.

Lemma keeps_if {A X} (p : UI -> X) (b : bool) (m1 m2 : M A) :
  keeps p m1 -> keeps p m2 -> keeps p (if b then m1 else m2).
Proof. destruct b; auto. Qed.

Lemma keeps_safeRpcLoop {A X} (p : UI -> X) (fn : M A) name n remaining attempt :
  keeps p fn -> keeps p (safeRpcLoop fn name n remaining attempt).
Proof.
  intros Hfn. revert attempt.
  induction remaining as [| remaining IH]; intros attempt; simpl.
  - apply keeps_throw.
  - apply keeps_bind.
    + unfold safeRpcAttempt. apply keeps_tryCatch.
      * apply keeps_bind; [apply keeps_attemptOf; exact Hfn |].
        intros a. apply keeps_bind; [| intros; apply keeps_ret].
        apply keeps_if; [apply keeps_emit | apply keeps_ret].
      * intros e. apply keeps_bind; [apply keeps_emit |]. intros _.
        apply keeps_if.
        -- apply keeps_bind; [apply keeps_emit | intros; apply keeps_throw].
        -- apply keeps_bind; [apply keeps_liftOp |]. intros q.
           apply keeps_bind; [apply keeps_emit |]. intros _.
           apply keeps_bind; [apply keeps_emit | intros; apply keeps_ret].
    + intros [a |]; [apply keeps_ret | apply IH].
Qed.

Lemma keeps_safeRpcCall {A X} (p : UI -> X) (fn : M A) name n :
  keeps p fn -> keeps p (safeRpcCall fn name n).
Proof. apply keeps_safeRpcLoop. Qed.

Lemma keeps_forLoop {S X} (p : UI -> X) n i (body : N -> S -> M S) acc :
  (forall i acc, keeps p (body i acc)) -> keeps p (forLoop n i body acc).
Proof.
  intros Hb. revert i acc. induction n as [| n IH]; intros i acc; simpl.
  - apply keeps_ret.
  - apply keeps_bind; [apply Hb | intros; apply IH].
Qed.

Lemma resolves_ret {A} (a : A) : resolves (mret a).
Proof. intros st. eexists. reflexivity. Qed.

Lemma resolves_set f : resolves (set f).
Proof. intros st. eexists. reflexivity. Qed.

Lemma resolves_emit ev : resolves (emit ev).
Proof. intros st. eexists. reflexivity. Qed.

Lemma resolves_bind {A B} (m : M A) (k : A -> M B) :
  resolves m -> (forall a, resolves (k a)) -> resolves (mbind k m).
Proof.
  intros Hm Hk st. unfold mbind, M_bind, bind.
  destruct (Hm st) as [a Ha]. destruct (m st) as [st1 r]. simpl in *. subst r.
  apply Hk.
Qed.

Lemma resolves_tryCatch {A} (m : M A) h :
  (forall e, resolves (h e)) -> resolves (tryCatch m h).
Proof.
  intros Hh st. unfold tryCatch. destruct (m st) as [st1 [e | a]].
  - apply Hh.
  - eexists. reflexivity.
Qed.

Lemma resolves_finally {A} (m : M A) fin :
  resolves m -> resolves fin -> resolves (finally m fin).
Proof.
  intros Hm Hf st. unfold finally.
  destruct (Hm st) as [a Ha]. destruct (m st) as [st1 r]. simpl in *. subst r.
  destruct (Hf st1) as [u Hu]. destruct (fin st1) as [st2 r]. simpl in *. subst r.
  eexists. reflexivity.
Qed.

Lemma resolves_if {A} (b : bool) (m1 m2 : M A) :
  resolves m1 -> resolves m2 -> resolves (if b then m1 else m2).
Proof. destruct b; auto. Qed.

Lemma resolves_forLoop {S} n i (body : N -> S -> M S) acc :
  (forall i acc, resolves (body i acc)) -> resolves (forLoop n i body acc).
Proof.
  intros Hb. revert i acc. induction n as [| n IH]; intros i acc; simpl.
  - apply resolves_ret.
  - apply resolves_bind; [apply Hb | intros; apply IH].
Qed.

End Frames.

(** Proves that a computation keeps a part of the state, or never
    rejects, by following its structure. *)
Ltac frame :=
  repeat first
    [ progress intros
    | apply keeps_safeRpcCall | apply keeps_method
    | apply keeps_bind | apply keeps_tryCatch | apply keeps_finally
    | apply keeps_if | apply keeps_forLoop
    | apply keeps_ret | apply keeps_throw
    | apply keeps_liftE | apply keeps_emit | apply keeps_liftOp
    | apply keeps_set; intros; reflexivity
    | apply resolves_bind | apply resolves_tryCatch | apply resolves_finally
    | apply resolves_if | apply resolves_forLoop
    | apply resolves_ret | apply resolves_set | apply resolves_emit
    | match goal with
      | |- Client.keeps _ (match ?x with _ => _ end) => destruct x
      | |- Client.resolves (match ?x with _ => _ end) => destruct x
      end ].

Section Reconciliation.
Import Client.
Context `{E : Env}.


Lemma resolves_contractMethods ca : resolves (contractMethods ca).
Proof. unfold contractMethods. frame. Qed.


Lemma resolves_ownershipVerification ca : resolves (ownershipVerification ca).
Proof. unfold ownershipVerification. frame. Qed.


Lemma resolves_chainTokenIds ca : resolves (chainTokenIds ca).
Proof.
  unfold chainTokenIds. frame;
    first [apply resolves_contractMethods | apply resolves_ownershipVerification].
Qed.

Lemma keeps_loadNFTsFromBlockchain {X} (p : UI -> X) a b1 b2 :
  (forall f u, p (setOwnedNFTs f u) = p u) ->
  (forall f u, p (setIsLoading f u) = p u) ->
  (forall f u, p (setErrorMessage f u) = p u) ->
  keeps p (loadNFTsFromBlockchain a b1 b2).
Proof.
  intros H1 H2 H3. unfold loadNFTsFromBlockchain, metadataPhase. frame;
    first [apply keeps_set; intros; first [apply H1 | apply H2 | apply H3]].
Qed.

Lemma resolves_loadNFTsFromBlockchain a b1 b2 :
  resolves (loadNFTsFromBlockchain a b1 b2).
Proof. unfold loadNFTsFromBlockchain. frame. Qed.


Lemma resolves_loadStakedNFTs cap a : resolves (loadStakedNFTs cap a).
Proof. unfold loadStakedNFTs. frame. Qed.

Lemma keeps_refreshRewardData {X} (p : UI -> X) cap a :
  (forall f u, p (setEarnedRewards f u) = p u) ->
  (forall f u, p (setRewardBalance f u) = p u) ->
  (forall f u, p (setDailyRewardCap f u) = p u) ->
  (forall f u, p (setTotalStaked f u) = p u) ->
  keeps p (refreshRewardData cap a).
Proof.
  intros H1 H2 H3 H4. unfold refreshRewardData. frame;
    first [apply keeps_set; intros; first [apply H1 | apply H2 | apply H3 | apply H4]].
Qed.

Lemma resolves_refreshRewardData cap a : resolves (refreshRewardData cap a).
Proof. unfold refreshRewardData. frame. Qed.

End Reconciliation.

Section Collections.
Import Client.
Context `{E : Env}.

Lemma uniqueLoop_firsts l seen acc :
  uniqueLoop l seen acc = acc ++ recordsOf true (firsts seen l).
Proof.
  revert seen acc. induction l as [| t l IH]; intros seen acc; simpl.
  - rewrite app_nil_r. reflexivity.
  - destruct (decide (t ∈ seen)); rewrite IH; [reflexivity |].
    rewrite <- app_assoc. reflexivity.
Qed.



Lemma firsts_nil l : firsts ∅ l = [] <-> l = [].
Proof.
  split; [| intros ->; reflexivity].
  destruct l as [| x l]; [reflexivity |]. simpl.
  destruct (decide (x ∈ (∅ : gset N))) as [Hin | _]; [| discriminate].
  apply not_elem_of_empty in Hin. contradiction.
Qed.


(** Beyond 2^53 two identifiers can round to one number: the loop keeps
    both and their records carry the same [id]. *)
Example Number_rounds :
  Number (2 ^ 53 + 1) = (2 ^ 53)%N /\ Number (2 ^ 53 + 3) = (2 ^ 53 + 4)%N
  /\ ids (uniqueLoop [2 ^ 53; 2 ^ 53 + 1]%N ∅ []) = [2 ^ 53; 2 ^ 53]%N.
Proof. repeat split; vm_compute; reflexivity. Qed.



Lemma recordsOf_nil b l : recordsOf b l = [] <-> l = [].
Proof. destruct l; simpl; split; congruence. Qed.

(** What [loadStakedNFTs] leaves in [stakedNFTs]. *)
Lemma loadStakedNFTs_staked cap a st ca l :
  contract cap = true -> web3 cap = true -> nftContract cap = true ->
  toChecksumAddress a = inr ca ->
  (stakedTokenIdsOf cap ca st).2 = inr l ->
  stakedNFTs (ui (loadStakedNFTs cap a st).1) = recordsOf true (firsts ∅ l).
Proof.
  intros Hc Hw Hn Hca Hl. unfold loadStakedNFTs. rewrite Hc, Hw, Hn, Hca.
  unfold tryCatch, mbind, M_bind, bind, liftE, mret, M_ret, ret. simpl.
  destruct (stakedTokenIdsOf cap ca st) as [st1 r]. simpl in Hl. subst r.
  destruct l as [| t l]; [reflexivity |].
  rewrite uniqueLoop_firsts. reflexivity.
Qed.


End Collections.

Section Outcomes.
Import Client.
Context `{E : Env}.


Lemma leaves_throw {A X} (p : UI -> X) (Q : X -> Prop) e : leaves p Q (throw e : M A).
Proof. intros st a H. discriminate. Qed.

Lemma leaves_bind_r {A B X} (p : UI -> X) (Q : X -> Prop) (m : M A) (k : A -> M B) :
  (forall a, leaves p Q (k a)) -> leaves p Q (mbind k m).
Proof.
  intros Hk st b. unfold mbind, M_bind, bind.
  destruct (m st) as [st1 [e | a]]; simpl; [discriminate |]. apply Hk.
Qed.

Lemma leaves_bind_l {A B X} (p : UI -> X) (Q : X -> Prop) (m : M A) (k : A -> M B) :
  leaves p Q m -> (forall a, keeps p (k a)) -> leaves p Q (mbind k m).
Proof.
  intros Hm Hk st b. unfold mbind, M_bind, bind.
  specialize (Hm st). destruct (m st) as [st1 [e | a]]; simpl in *; [discriminate |].
  intros _. rewrite Hk. eapply Hm. reflexivity.
Qed.


Lemma leaves_finally {A X} (p : UI -> X) (Q : X -> Prop) (m : M A) fin :
  leaves p Q m -> keeps p fin -> leaves p Q (finally m fin).
Proof.
  intros Hm Hf st a. unfold finally.
  specialize (Hm st). destruct (m st) as [st1 r]. simpl in *.
  specialize (Hf st1). destruct (fin st1) as [st2 [e | u]]; simpl in *; [discriminate |].
  intros ->. rewrite Hf. eapply Hm. reflexivity.
Qed.



End Outcomes.

Section RateLimitBlind.
Import Client.
Context `{E : Env}.

Lemma sameShape_inl_l {A} (r1 r2 : Err + A) e :
  sameShape r1 r2 -> r1 = inl e -> exists e', r2 = inl e'.
Proof. destruct r1, r2; simpl; intros H H1; try contradiction; try discriminate; eauto. Qed.

Lemma sameShape_inr_l {A} (r1 r2 : Err + A) a :
  sameShape r1 r2 -> r1 = inr a -> r2 = inr a.
Proof. destruct r1, r2; simpl; intros H H1; try contradiction; congruence. Qed.

Lemma safeRpcLoop_alike {A} (R : World -> World -> Prop) (fn1 fn2 : M A) name n :
  sameDraws R -> settleAlike R fn1 fn2 -> plain fn1 -> plain fn2 ->
  forall remaining attempt st1 st2,
    R (world st1) (world st2) ->
    schedule (trace st1) = schedule (trace st2) ->
    let out1 := safeRpcLoop fn1 name n remaining attempt st1 in
    let out2 := safeRpcLoop fn2 name n remaining attempt st2 in
    schedule (trace out1.1) = schedule (trace out2.1)
    /\ R (world out1.1) (world out2.1)
    /\ sameShape out1.2 out2.2.
Proof.
  intros Hdraw Halike Hp1 Hp2.
  induction remaining as [| remaining IH]; intros attempt st1 st2 HR Hs out1 out2;
    subst out1 out2.
  - simpl. repeat split; assumption.
  - rewrite !safeRpcLoop_S.
    destruct (Halike st1 st2 HR) as [Hshape HR'].
    destruct (Hp1 st1) as [_ Hs1]. destruct (Hp2 st2) as [_ Hs2].
    destruct (fn1 st1).2 as [e1 | a1] eqn:H1.
    + destruct (sameShape_inl_l _ _ e1 Hshape eq_refl) as [e2 H2].
      destruct (safeRpcAttempt_rejected fn1 name n attempt st1 e1 H1) as (_ & _ & Hl1).
      destruct (safeRpcAttempt_rejected fn2 name n attempt st2 e2 H2) as (_ & _ & Hl2).
      destruct (Hdraw _ _ HR') as [Hq HRq].
      destruct (S attempt =? n)%nat.
      * destruct Hl1 as (Hr1 & Hw1 & Hsc1). destruct Hl2 as (Hr2 & Hw2 & Hsc2).
        destruct (safeRpcAttempt fn1 name n attempt st1) as [s1 r1].
        destruct (safeRpcAttempt fn2 name n attempt st2) as [s2 r2].
        simpl in *. subst r1 r2. simpl.
        rewrite Hsc1, Hsc2, Hw1, Hw2, Hs1, Hs2, Hs. repeat split; assumption.
      * destruct Hl1 as (Hr1 & Hw1 & Hsc1). destruct Hl2 as (Hr2 & Hw2 & Hsc2).
        destruct (safeRpcAttempt fn1 name n attempt st1) as [s1 r1].
        destruct (safeRpcAttempt fn2 name n attempt st2) as [s2 r2].
        simpl in *. subst r1 r2.
        apply IH.
        -- rewrite Hw1, Hw2. exact HRq.
        -- rewrite Hsc1, Hsc2, Hs1, Hs2, Hs, Hq. reflexivity.
    + pose proof (sameShape_inr_l _ _ a1 Hshape eq_refl) as H2.
      destruct (safeRpcAttempt_resolved fn1 name n attempt st1 a1 H1)
        as (Hr1 & Hw1 & _ & _ & Hsc1).
      destruct (safeRpcAttempt_resolved fn2 name n attempt st2 a1 H2)
        as (Hr2 & Hw2 & _ & _ & Hsc2).
      destruct (safeRpcAttempt fn1 name n attempt st1) as [s1 r1].
      destruct (safeRpcAttempt fn2 name n attempt st2) as [s2 r2].
      simpl in *. subst r1 r2. simpl.
      rewrite Hsc1, Hsc2, Hw1, Hw2, Hs1, Hs2, Hs. repeat split; assumption.
Qed.

End RateLimitBlind.

(** C6.  Two runs of [safeRpcCall] on operations that settle alike
    (both reject, with errors of whatever message and hence of whatever
    rate-limit class, or both resolve to the same value), with the same
    draws of [Math.random()], make the same attempts and wait the same
    delays, and end alike: the class of an error reaches the console only. *)
Theorem safeRpcCall_blind_to_rate_limit_class `{E : Client.Env} {A}
    (R : Client.World -> Client.World -> Prop) (fn1 fn2 : Client.M A)
    (name : string) (maxAttempts : nat) (st1 st2 : Client.St) :
  Client.sameDraws R -> Client.settleAlike R fn1 fn2 ->
  Client.plain fn1 -> Client.plain fn2 ->
  R (Client.world st1) (Client.world st2) ->
  Client.schedule (Client.trace st1) = Client.schedule (Client.trace st2) ->
  Client.schedule (Client.trace (Client.safeRpcCall fn1 name maxAttempts st1).1)
  = Client.schedule (Client.trace (Client.safeRpcCall fn2 name maxAttempts st2).1)
  /\ Client.sameShape (Client.safeRpcCall fn1 name maxAttempts st1).2
                      (Client.safeRpcCall fn2 name maxAttempts st2).2.
Proof.
  intros Hdraw Halike Hp1 Hp2 HR Hs.
  destruct (safeRpcLoop_alike R fn1 fn2 name maxAttempts Hdraw Halike Hp1 Hp2
              maxAttempts 0%nat st1 st2 HR Hs) as (H1 & _ & H2).
  split; assumption.
Qed.

Section Passes.
Import Client.
Context `{E : Env}.

Lemma leaves_tryCatch_resolves {A X} (p : UI -> X) (Q : X -> Prop) (m : M A) h :
  resolves m -> leaves p Q m -> leaves p Q (tryCatch m h).
Proof.
  intros Hr Hm st a. unfold tryCatch.
  destruct (Hr st) as [a' Ha']. specialize (Hm st a' Ha').
  destruct (m st) as [st1 r]. simpl in *. subst r. intros _. exact Hm.
Qed.

Lemma connected_guard cap :
  connected cap ->
  String.eqb (account cap) "" || negb (web3 cap) || negb (nftContract cap)
  || negb (contract cap) = false.
Proof.
  intros (Ha & -> & -> & ->). apply String.eqb_neq in Ha. rewrite Ha. reflexivity.
Qed.

Lemma resolves_reload cap : resolves (reload cap).
Proof.
  unfold reload. apply resolves_bind; [apply resolves_loadNFTsFromBlockchain |].
  intros _. apply resolves_bind; [apply resolves_loadStakedNFTs |].
  intros _. apply resolves_refreshRewardData.
Qed.


Lemma reload_staked cap (Q : list NFT -> Prop) :
  (forall st, Q (stakedNFTs (ui (loadStakedNFTs cap (account cap) st).1))) ->
  leaves stakedNFTs Q (reload cap).
Proof.
  intros HQ. unfold reload. apply leaves_bind_r. intros _. apply leaves_bind_l.
  - intros st a _. apply HQ.
  - intros _. apply keeps_refreshRewardData; reflexivity.
Qed.

Lemma refreshAllNFTData_leaves {X} (p : UI -> X) (Q : X -> Prop) cap :
  connected cap ->
  (forall f u, p (setIsLoading f u) = p u) ->
  leaves p Q (reload cap) ->
  forall st, Q (p (ui (refreshAllNFTData cap st).1)).
Proof.
  intros Hc Hp Hre st.
  assert (Hres : resolves (refreshAllNFTData cap)).
  { unfold refreshAllNFTData. rewrite (connected_guard _ Hc).
    apply resolves_bind; [apply resolves_set |]. intros _.
    apply resolves_finally; [| apply resolves_set].
    apply resolves_tryCatch. intros e. apply resolves_set. }
  destruct (Hres st) as [u Hu]. clear Hres. revert st u Hu.
  change (leaves p Q (refreshAllNFTData cap)).
  unfold refreshAllNFTData. rewrite (connected_guard _ Hc).
  apply leaves_bind_r. intros _.
  apply leaves_finally; [| apply keeps_set; intros; apply Hp].
  apply leaves_tryCatch_resolves; [apply resolves_reload | exact Hre].
Qed.

Lemma loadAccurateNFTData_leaves {X} (p : UI -> X) (Q : X -> Prop) cap :
  connected cap ->
  (forall f u, p (setIsLoading f u) = p u) ->
  (forall f u, p (setTransactionMessage f u) = p u) ->
  resolves (safeRpcCall (method GetTotalStakedNFTs) "Get total staked" 3) ->
  leaves p Q (reload cap) ->
  forall st, Q (p (ui (loadAccurateNFTData cap st).1)).
Proof.
  intros Hc Hp Hp' Htotal Hre st.
  assert (Hbody : resolves
            (totalStakedCount ← safeRpcCall (method GetTotalStakedNFTs)
                                  "Get total staked" 3;
             _ ← set (setTotalStaked (fun _ => Z.of_N totalStakedCount));
             reload cap)).
  { apply resolves_bind; [exact Htotal |]. intros c.
    apply resolves_bind; [apply resolves_set |]. intros _. apply resolves_reload. }
  assert (Hres : resolves (loadAccurateNFTData cap)).
  { unfold loadAccurateNFTData. rewrite (connected_guard _ Hc).
    apply resolves_bind; [apply resolves_set |]. intros _.
    apply resolves_bind; [apply resolves_set |]. intros _.
    apply resolves_finally.
    - apply resolves_tryCatch. intros e. apply resolves_set.
    - apply resolves_bind; [apply resolves_set |]. intros _. apply resolves_set. }
  destruct (Hres st) as [u Hu]. clear Hres. revert st u Hu.
  change (leaves p Q (loadAccurateNFTData cap)).
  unfold loadAccurateNFTData. rewrite (connected_guard _ Hc).
  do 2 (apply leaves_bind_r; intros _).
  apply leaves_finally.
  - apply (leaves_tryCatch_resolves p Q _ _ Hbody).
    do 2 (apply leaves_bind_r; intros). exact Hre.
  - apply keeps_bind; [apply keeps_set; intros; apply Hp |].
    intros _. apply keeps_set; intros; apply Hp'.
Qed.

(** The identifiers [loadStakedNFTs] settles on when the chain reports no
    staked token to any discovery method: those of the captured cards. *)
Lemma loadStakedNFTs_cached cap ca :
  connected cap -> toChecksumAddress (account cap) = inr ca ->
  (forall st0, (chainTokenIds ca st0).2 = inr []) ->
  forall st,
    stakedNFTs (ui (loadStakedNFTs cap (account cap) st).1)
    = recordsOf true (firsts ∅ (map id (stakedNFTs cap))).
Proof.
  intros (_ & Hw & Hc & Hn) Hca Hnone st.
  apply (loadStakedNFTs_staked cap (account cap) st ca); try assumption.
  unfold stakedTokenIdsOf, mbind, M_bind, bind.
  specialize (Hnone st). destruct (chainTokenIds ca st) as [st1 r]. simpl in *.
  subst r. reflexivity.
Qed.

End Passes.


(** C3.  When no discovery method finds a token on the chain, whatever
    total [getTotalStakedNFTs()] reports, a full reconciliation pass of a
    connected wallet leaves StakedSet empty exactly when the StakedSet the
    pass captured was empty: otherwise the cached fallback puts the
    captured tokens back.  The reported total is stored for display and
    is not consulted when StakedSet is built. *)
Theorem pass_staked_empty_iff_cache_empty `{E : Client.Env} (cap : Client.UI)
    (ca : string) (st : Client.St) :
  Client.connected cap ->
  Client.toChecksumAddress (Client.account cap) = inr ca ->
  (forall st0, exists count,
      (Client.safeRpcCall (Client.method Client.GetTotalStakedNFTs)
         "Get total staked" 3 st0).2 = inr count) ->
  (forall st0, (Client.chainTokenIds ca st0).2 = inr []) ->
  (Client.stakedNFTs (Client.ui (Client.loadAccurateNFTData cap st).1) = []
   <-> Client.stakedNFTs cap = [])
  /\ (Client.stakedNFTs (Client.ui (Client.refreshAllNFTData cap st).1) = []
      <-> Client.stakedNFTs cap = []).
Proof.
  intros Hc Hca Htotal Hnone.
  assert (Hiff : forall l : list Client.NFT,
             l = Client.recordsOf true (Client.firsts ∅ (map Client.id (Client.stakedNFTs cap))) ->
             (l = [] <-> Client.stakedNFTs cap = [])).
  { intros l ->. rewrite recordsOf_nil, firsts_nil.
    destruct (Client.stakedNFTs cap); simpl; split; congruence. }
  pose (Q := fun l : list Client.NFT =>
               l = Client.recordsOf true
                     (Client.firsts ∅ (map Client.id (Client.stakedNFTs cap)))).
  pose proof (reload_staked cap Q (loadStakedNFTs_cached cap ca Hc Hca Hnone)) as Hre.
  split; apply Hiff.
  - exact (loadAccurateNFTData_leaves Client.stakedNFTs Q cap Hc
             (fun _ _ => eq_refl) (fun _ _ => eq_refl) Htotal Hre st).
  - exact (refreshAllNFTData_leaves Client.stakedNFTs Q cap Hc
             (fun _ _ => eq_refl) Hre st).
Qed.

Section Footprints.
Import Client.
Context `{E : Env}.




Lemma silent_liftE {A} q (r : Err + A) : silent q (liftE r).
Proof. intros st. reflexivity. Qed.

Lemma silent_set q f : silent q (set f).
Proof. intros st. reflexivity. Qed.





















End Footprints.


Section RewardEvents.
Import Client.
Context `{E : Env}.







End RewardEvents.

Section TwoDays.
Import NFTStaking.



End TwoDays.


(** ** The properties on the sample chains *)

Lemma session_connected owned staked : Client.connected (session owned staked).
Proof. repeat split. discriminate. Qed.





Lemma quiet_total_resolves (st0 : @Client.St quietEnv) :
  exists count,
    (@Client.safeRpcCall quietEnv _ (Client.method Client.GetTotalStakedNFTs)
       "Get total staked" 3 st0).2 = inr count.
Proof. exists 0%N. reflexivity. Qed.

Lemma quiet_chain_finds_nothing (st0 : @Client.St quietEnv) :
  (@Client.chainTokenIds quietEnv "0xuser" st0).2 = inr [].
Proof. reflexivity. Qed.

Lemma pass_staked_empty_iff_cache_empty_witness :
  Client.stakedNFTs
    (Client.ui (@Client.loadAccurateNFTData quietEnv (session [7%N] [])
                  (quietStart (session [7%N] []))).1) = [].
Proof.
  apply (proj1 (@pass_staked_empty_iff_cache_empty quietEnv (session [7%N] [])
                  "0xuser" (quietStart (session [7%N] []))
                  (session_connected [7%N] []) eq_refl
                  quiet_total_resolves quiet_chain_finds_nothing)).
  reflexivity.
Defined.

(** C3, as stated, fails: [getTotalStakedNFTs()] reports 0 and no
    discovery method finds a token, but the captured StakedSet lists
    token 7 and the pass ends with token 7 in StakedSet. *)
Lemma stale_cache_survives_zero_total :
  let cap := session [] [7%N] in
  (@Client.method quietEnv _ Client.GetTotalStakedNFTs (quietStart cap)).2 = inr 0%N
  /\ Client.stakedNFTs
       (Client.ui (@Client.loadAccurateNFTData quietEnv cap (quietStart cap)).1)
     = [Client.createNFTObject 7 true].
Proof. split; vm_compute; reflexivity. Qed.

(** C4 (the card handler does not keep the property).  Token 9 belongs
    to [0xother] and its card is still shown.  [stakeNFT] makes no
    ownership check: the approval goes out, the stake transaction is sent
    to the staking contract, and the user sees the raw revert message.
    [quickStakeNFT], on the same chain, reads [ownerOf], raises its
    ownership error and sends nothing. *)
Theorem stakeNFT_sends_stake_for_foreign_token :
  let cap := session [9%N] [] in
  let card := @Client.stakeNFT quietEnv cap "9" (quietStart cap) in
  let quick := @Client.quickStakeNFT quietEnv (Client.setNftIdInput "9" cap)
                 (quietStart cap) in
  (@Client.method quietEnv _ (Client.OwnerOf 9) (quietStart cap)).2 = inr "0xother"
  /\ Client.stakingWrites (Client.trace card.1)
     = [Client.EvRpc (Client.SendStakeNFT (Client.ArgStr "9") "0xuser")]
  /\ Client.errorMessage (Client.ui card.1)
     = Some "Staking failed: execution reverted"
  /\ Client.writes (Client.trace quick.1) = []
  /\ Client.errorMessage (Client.ui quick.1)
     = Some ("Failed to stake NFT: " +:+ Client.message (Client.notOwnerError 9)).
Proof. repeat split; vm_compute; reflexivity. Qed.

Lemma rejecting_alwaysFails msg : @Client.alwaysFails quietEnv N (rejecting msg).
Proof. intros st. eexists. reflexivity. Qed.

Lemma rejecting_plain msg : @Client.plain quietEnv N (rejecting msg).
Proof. intros st. split; reflexivity. Qed.

Lemma safeRpcCall_exhausts_attempts_witness :
  exists errs,
    Client.attempts
      (Client.trace (@Client.safeRpcCall quietEnv N (rejecting "boom")
                       "Get NFT balance" 3 (quietStart Client.initialUI)).1)
    = map Some errs
    /\ length errs = 3%nat.
Proof.
  destruct (proj1 (@safeRpcCall_exhausts_attempts quietEnv N (rejecting "boom")
                     "Get NFT balance" 3 (quietStart Client.initialUI)
                     (rejecting_alwaysFails "boom") (rejecting_plain "boom")))
    as (errs & Hat & Hlen & _).
  exists errs. split; assumption.
Defined.

(** C5, as stated, fails: after three rejected attempts the error raised
    is the one the operation raised, and its message does not carry the
    label of the call. *)
Lemma raised_error_carries_no_label :
  (@Client.safeRpcCall quietEnv N (rejecting "boom") "Get NFT balance" 3
     (quietStart Client.initialUI)).2 = inl (Client.mkErr "boom")
  /\ ~ Client.tagged "Get NFT balance" (Client.mkErr "boom").
Proof. split; [vm_compute; reflexivity | vm_compute; discriminate]. Qed.

Lemma safeRpcCall_blind_to_rate_limit_class_witness :
  Client.isRateLimitError (Client.mkErr "429 Too Many Requests") = true
  /\ Client.isRateLimitError (Client.mkErr "connection reset") = false
  /\ Client.schedule
       (Client.trace (@Client.safeRpcCall quietEnv N (rejecting "429 Too Many Requests")
                        "Get NFT balance" 3 (quietStart Client.initialUI)).1)
     = Client.schedule
         (Client.trace (@Client.safeRpcCall quietEnv N (rejecting "connection reset")
                          "Get NFT balance" 3 (quietStart Client.initialUI)).1).
Proof.
  split; [reflexivity |]. split; [reflexivity |].
  exact (proj1 (@safeRpcCall_blind_to_rate_limit_class quietEnv N eq
                  (rejecting "429 Too Many Requests") (rejecting "connection reset")
                  "Get NFT balance" 3
                  (quietStart Client.initialUI) (quietStart Client.initialUI)
                  (fun w1 w2 H => conj (f_equal (fun w => (@Client.Math_random quietEnv w).2) H)
                                       (f_equal (fun w => (@Client.Math_random quietEnv w).1) H))
                  (fun s1 s2 H => conj I H)
                  (rejecting_plain "429 Too Many Requests")
                  (rejecting_plain "connection reset")
                  eq_refl eq_refl)).
Defined.



(** * Further properties of the staking contract *)

Section StakedCount.
Import NFTStaking.

Lemma stake_total sender now tokenId c c' :
  stake sender now tokenId c = Some c' ->
  totalStaked (store c') = (totalStaked (store c) + 1)%N.
Proof. unfold stake. intros H. sol_inv. subst. reflexivity. Qed.

Lemma counted_lookup s t :
  counted s -> isStaked (info s t) = true <-> is_Some (stakedTokens s !! t).
Proof.
  intros [_ Hall]. unfold info.
  destruct (stakedTokens s !! t) as [i |] eqn:Hl; simpl.
  - split; [eauto | intros _; eapply Hall; eassumption].
  - split; [discriminate | intros [? ?]; discriminate].
Qed.

Lemma counted_deploy deployer this nft : counted (store (deploy deployer this nft)).
Proof.
  split; simpl.
  - rewrite map_size_empty. reflexivity.
  - intros t i H. rewrite lookup_empty in H. discriminate.
Qed.

Lemma counted_run sender now k c c' :
  counted (store c) -> run sender now k c = Some c' -> counted (store c').
Proof.
  intros Hc Hrun. destruct k as [t | t | | r | p]; simpl in Hrun.
  - pose proof (stake_total _ _ _ _ _ Hrun) as Htot.
    apply stake_Some in Hrun as (_ & Hfree & _ & _ & Hrec & _).
    assert (Hnone : stakedTokens (store c) !! t = None).
    { destruct (stakedTokens (store c) !! t) eqn:Hl; [| reflexivity].
      assert (Hs : isStaked (info (store c) t) = true)
        by (apply counted_lookup; [assumption | rewrite Hl; eauto]).
      congruence. }
    split.
    + rewrite Hrec, map_size_insert_None, Htot, (proj1 Hc) by assumption. lia.
    + intros t' i. rewrite Hrec.
      intros [[-> <-] | [_ Hl]]%lookup_insert_Some; [reflexivity |].
      eapply Hc. eassumption.
  - assert (Hone : (1 <= totalStaked (store c))%N)
      by (unfold unstake in Hrun; sol_inv; assumption).
    apply unstake_Some in Hrun as (_ & Hst & _ & _ & rw & mv & tk & _ & _ & _ & _ & _ & Hs).
    apply (counted_lookup _ _ Hc) in Hst.
    rewrite Hs. split; simpl.
    + rewrite map_size_delete_Some by assumption.
      pose proof (proj1 Hc) as Htot.
      destruct (size (stakedTokens (store c))); simpl; lia.
    + intros t' i [_ Hl]%lookup_delete_Some. eapply Hc. eassumption.
  - unfold claimRewards in Hrun. sol_inv. subst. exact Hc.
  - unfold setRewardRate in Hrun. sol_inv. subst. exact Hc.
  - unfold setMinimumStakingPeriod in Hrun. sol_inv. subst. exact Hc.
Qed.

Lemma reachable_counted c : reachable c -> counted (store c).
Proof.
  induction 1 as [deployer this nft | c sender now k c' _ IH Hrun | c nft' _ IH].
  - apply counted_deploy.
  - eapply counted_run; eassumption.
  - exact IH.
Qed.

End StakedCount.

(** X1.  In every chain the staking contract can reach, [totalStaked] is
    the number of tokens recorded as staked: [stakedTokens] keeps a record
    for exactly the tokens whose [isStaked] is true, and [totalStaked] is
    the number of these records. *)
Theorem totalStaked_counts_staked_tokens (c : NFTStaking.Chain) :
  NFTStaking.reachable c ->
  NFTStaking.totalStaked (NFTStaking.store c)
  = N.of_nat (size (NFTStaking.stakedTokens (NFTStaking.store c)))
  /\ forall t, NFTStaking.isStaked (NFTStaking.info (NFTStaking.store c) t) = true
               <-> is_Some (NFTStaking.stakedTokens (NFTStaking.store c) !! t).
Proof.
  intros Hr. pose proof (reachable_counted c Hr) as Hc. split.
  - exact (proj1 Hc).
  - intros t. apply counted_lookup. exact Hc.
Qed.

Lemma totalStaked_counts_staked_tokens_witness :
  NFTStaking.totalStaked (NFTStaking.store sampleChain) = 1%N
  /\ NFTStaking.isStaked (NFTStaking.info (NFTStaking.store sampleChain) 1) = true.
Proof.
  destruct (totalStaked_counts_staked_tokens sampleChain sampleChain_reachable)
    as [Htot Hiff].
  split.
  - rewrite Htot. vm_compute. reflexivity.
  - apply Hiff. vm_compute. eauto.
Defined.

Section StakedArrays.
Import NFTStaking.

Lemma consistent_NoDup s a : consistent s -> NoDup (tokensOf s a).
Proof.
  intros [W1 _]. apply NoDup_alt. intros i j t Hi Hj.
  destruct (W1 a i t Hi) as (_ & _ & Hii). destruct (W1 a j t Hj) as (_ & _ & Hjj).
  lia.
Qed.

Lemma consistent_elem_of s a t :
  consistent s ->
  t ∈ tokensOf s a <-> isStaked (info s t) = true /\ owner (info s t) = a.
Proof.
  intros [W1 W2]. split.
  - intros [i Hi]%list_elem_of_lookup_1. destruct (W1 a i t Hi) as (Ho & Hs & _).
    split; assumption.
  - intros [Hs <-]. eapply list_elem_of_lookup_2. apply W2. exact Hs.
Qed.

End StakedArrays.

(** X2.  In every chain the staking contract can reach, the array
    [getStakedTokens(a)] lists, without repetition, exactly the tokens
    recorded as staked by [a]; a token is therefore in the array of at
    most one address. *)
Theorem getStakedTokens_lists_the_staked_tokens (c : NFTStaking.Chain) :
  NFTStaking.reachable c ->
  (forall a, NoDup (NFTStaking.getStakedTokens a (NFTStaking.store c)))
  /\ (forall a t,
        t ∈ NFTStaking.getStakedTokens a (NFTStaking.store c)
        <-> NFTStaking.isStaked (NFTStaking.info (NFTStaking.store c) t) = true
            /\ NFTStaking.owner (NFTStaking.info (NFTStaking.store c) t) = a)
  /\ (forall a b t,
        t ∈ NFTStaking.getStakedTokens a (NFTStaking.store c) ->
        t ∈ NFTStaking.getStakedTokens b (NFTStaking.store c) -> a = b).
Proof.
  intros Hr. pose proof (reachable_consistent c Hr) as Hc.
  unfold NFTStaking.getStakedTokens. split; [| split].
  - intros a. apply consistent_NoDup. exact Hc.
  - intros a t. apply consistent_elem_of. exact Hc.
  - intros a b t Ha Hb.
    apply (consistent_elem_of _ _ _ Hc) in Ha as [_ Ha].
    apply (consistent_elem_of _ _ _ Hc) in Hb as [_ Hb]. congruence.
Qed.

Lemma getStakedTokens_lists_the_staked_tokens_witness :
  NFTStaking.getStakedTokens 7 (NFTStaking.store sampleChain) = [1%N]
  /\ NoDup (NFTStaking.getStakedTokens 7 (NFTStaking.store sampleChain))
  /\ 1%N ∉ NFTStaking.getStakedTokens 8 (NFTStaking.store sampleChain).
Proof.
  destruct (getStakedTokens_lists_the_staked_tokens sampleChain sampleChain_reachable)
    as (Hnd & _ & Hone).
  split; [vm_compute; reflexivity |]. split; [apply Hnd |].
  intros H8. assert (H7 : 1%N ∈ NFTStaking.getStakedTokens 7 (NFTStaking.store sampleChain))
    by (vm_compute; left).
  pose proof (Hone 7%N 8%N 1%N H7 H8). discriminate.
Defined.

Section StakingLiveness.
Import NFTStaking.

Lemma sol_add_fits a b :
  (a + b <= Sol.MAX_UINT256)%N -> Sol.add a b = Some (a + b)%N.
Proof. intros H. apply sol_add_Some. split; [reflexivity | assumption]. Qed.

Lemma sol_sub_fits a b : (b <= a)%N -> Sol.sub a b = Some (a - b)%N.
Proof. intros H. apply sol_sub_Some. split; [reflexivity | assumption]. Qed.




End StakingLiveness.



Section StakeConditions.
Import NFTStaking.

Lemma stake_conditions sender now tokenId c c' :
  stake sender now tokenId c = Some c' ->
  (totalStaked (store c) + 1 <= Sol.MAX_UINT256)%N
  /\ ERC721.isApprovedOrOwner (self (store c)) tokenId (nftContract c) = true
  /\ self (store c) <> 0%N.
Proof.
  unfold stake. intros H. sol_inv.
  match goal with H : ERC721.safeTransferFrom _ _ _ _ _ = Some _ |- _ =>
    unfold ERC721.safeTransferFrom in H end.
  sol_inv.
  match goal with H : negb (_ =? 0)%N = true |- _ =>
    apply negb_true_iff, N.eqb_neq in H end.
  repeat split; assumption.
Qed.

End StakeConditions.

(** X4.  [stake] succeeds exactly when the caller owns the token, the
    token is not recorded as staked, the staking contract may transfer it
    (it was approved for the token or for the caller's tokens),
    [totalStaked + 1] fits 256 bits and the address of the staking
    contract is not zero; short of these it reverts. *)
Theorem stake_succeeds_iff (c : NFTStaking.Chain) (sender now tokenId : N) :
  is_Some (NFTStaking.stake sender now tokenId c)
  <-> ERC721.ownerOf tokenId (NFTStaking.nftContract c) = Some sender
      /\ NFTStaking.isStaked (NFTStaking.info (NFTStaking.store c) tokenId) = false
      /\ (NFTStaking.totalStaked (NFTStaking.store c) + 1 <= Sol.MAX_UINT256)%N
      /\ ERC721.isApprovedOrOwner (NFTStaking.self (NFTStaking.store c)) tokenId
           (NFTStaking.nftContract c) = true
      /\ NFTStaking.self (NFTStaking.store c) <> 0%N.
Proof.
  split.
  - intros [c' H]. pose proof (stake_conditions _ _ _ _ _ H) as (Ht & Ha & Hs).
    apply stake_Some in H as (Ho & Hf & _). repeat split; assumption.
  - intros (Ho & Hf & Ht & Ha & Hs). unfold NFTStaking.stake.
    rewrite Ho. simpl. rewrite N.eqb_refl, Hf. simpl.
    rewrite sol_sub_fits by (rewrite length_app; simpl; lia). simpl.
    rewrite sol_add_fits by assumption. simpl.
    unfold ERC721.safeTransferFrom. rewrite Ha. simpl.
    unfold ERC721.ownerOf in Ho. rewrite Ho.
    rewrite bool_decide_eq_true_2 by reflexivity. simpl.
    destruct (N.eqb_spec (NFTStaking.self (NFTStaking.store c)) 0) as [H0 | _];
      [contradiction |].
    simpl. eauto.
Qed.

Section RoundTrip.
Import NFTStaking.

Lemma array_pop_snoc l x : array_pop (l ++ [x]) = Some l.
Proof.
  unfold array_pop. destruct (l ++ [x]) eqn:H; [destruct l; discriminate |].
  rewrite <- H, length_app. simpl.
  replace (length l + 1 - 1)%nat with (length l) by lia.
  rewrite take_app_length. reflexivity.
Qed.

Lemma calculateReward_Some now tokenId s reward :
  isStaked (info s tokenId) = true ->
  calculateReward now tokenId s = Some reward ->
  reward = ((now - stakedAt (info s tokenId)) * rewardRate s / Sol.DAY)%N
  /\ (stakedAt (info s tokenId) <= now)%N.
Proof.
  intros Hs. unfold calculateReward. rewrite Hs. simpl. intros H. sol_inv. subst.
  split; [reflexivity | assumption].
Qed.

End RoundTrip.

(** X5.  Staking a token and unstaking it again restores the staking
    records: in a chain the staking contract can reach, after a successful
    [stake] at [t0] followed by a successful [unstake] at [t1] of the same
    token, every record, every array [getStakedTokens] and [totalStaked]
    are as before the stake, the token is back with the staker, no other
    token has moved, and the staker's accumulated rewards have grown by
    [(t1 - t0) * rewardRate / 1 days]. *)
Theorem stake_then_unstake_restores (c c1 c2 : NFTStaking.Chain)
    (sender t0 t1 tokenId : N) :
  NFTStaking.reachable c ->
  NFTStaking.stake sender t0 tokenId c = Some c1 ->
  NFTStaking.unstake sender t1 tokenId c1 = Some c2 ->
  (forall t, NFTStaking.info (NFTStaking.store c2) t
             = NFTStaking.info (NFTStaking.store c) t)
  /\ (forall a, NFTStaking.getStakedTokens a (NFTStaking.store c2)
                = NFTStaking.getStakedTokens a (NFTStaking.store c))
  /\ NFTStaking.totalStaked (NFTStaking.store c2)
     = NFTStaking.totalStaked (NFTStaking.store c)
  /\ ERC721.ownerOf tokenId (NFTStaking.nftContract c2) = Some sender
  /\ (forall t, t <> tokenId ->
        ERC721.ownerOf t (NFTStaking.nftContract c2)
        = ERC721.ownerOf t (NFTStaking.nftContract c))
  /\ NFTStaking.accumulated (NFTStaking.store c2) sender
     = (NFTStaking.accumulated (NFTStaking.store c) sender
        + (t1 - t0) * NFTStaking.rewardRate (NFTStaking.store c) / Sol.DAY)%N
  /\ (forall a, a <> sender ->
        NFTStaking.accumulated (NFTStaking.store c2) a
        = NFTStaking.accumulated (NFTStaking.store c) a).
Proof.
  intros Hr Hstake Hunstake.
  pose proof (reachable_counted c Hr) as Hcount.
  pose proof (stake_total _ _ _ _ _ Hstake) as Htot1.
  apply stake_Some in Hstake
    as (_ & Hfree & Htr1 & _ & Hrec1 & Hby1 & Hidx1 & Hacc1 & Hrate1 & _).
  assert (Hone : (1 <= NFTStaking.totalStaked (NFTStaking.store c1))%N) by lia.
  apply unstake_Some in Hunstake
    as (_ & Hst1 & _ & Htr2 & reward & moved & tokens & Hrw & _ & Hmv & _ & Hpop & Hs2).
  simpl in *.
  assert (Hinfo1 : NFTStaking.info (NFTStaking.store c1) tokenId
                   = NFTStaking.mkInfo sender t0 true)
    by (unfold NFTStaking.info; rewrite Hrec1, lookup_insert_eq; reflexivity).
  assert (Htok1 : NFTStaking.tokensOf (NFTStaking.store c1) sender
                  = NFTStaking.tokensOf (NFTStaking.store c) sender ++ [tokenId])
    by (unfold NFTStaking.tokensOf at 1; rewrite Hby1, lookup_insert_eq; reflexivity).
  assert (Hindex1 : NFTStaking.indexOf (NFTStaking.store c1) tokenId
                    = N.of_nat (length (NFTStaking.tokensOf (NFTStaking.store c) sender)))
    by (unfold NFTStaking.indexOf; rewrite Hidx1, lookup_insert_eq; reflexivity).
  rewrite Htok1, Hindex1 in Hmv. unfold NFTStaking.moveLast in Hmv.
  rewrite length_app in Hmv. simpl in Hmv.
  replace (N.of_nat (length (NFTStaking.tokensOf (NFTStaking.store c) sender) + 1) - 1)%N
    with (N.of_nat (length (NFTStaking.tokensOf (NFTStaking.store c) sender)))
    in Hmv by lia.
  rewrite N.eqb_refl in Hmv. inversion Hmv; subst moved; clear Hmv. simpl in Hpop.
  rewrite array_pop_snoc in Hpop. inversion Hpop; subst tokens; clear Hpop.
  apply (calculateReward_Some _ _ _ _ Hst1) in Hrw as [-> _].
  rewrite Hinfo1, Hrate1 in Hs2. simpl in Hs2.
  apply safeTransferFrom_owner in Htr1 as (_ & _ & Hother1).
  apply safeTransferFrom_owner in Htr2 as (_ & Hback & Hother2).
  assert (Hnone : NFTStaking.stakedTokens (NFTStaking.store c) !! tokenId = None).
  { destruct (NFTStaking.stakedTokens (NFTStaking.store c) !! tokenId) eqn:Hl;
      [| reflexivity].
    assert (NFTStaking.isStaked (NFTStaking.info (NFTStaking.store c) tokenId) = true)
      by (apply counted_lookup; [assumption | rewrite Hl; eauto]).
    congruence. }
  split; [| split; [| split; [| split; [| split; [| split]]]]].
  - intros t. unfold NFTStaking.info. rewrite Hs2. simpl. rewrite Hrec1.
    destruct (decide (t = tokenId)) as [-> | Hne].
    + rewrite lookup_delete_eq, Hnone. reflexivity.
    + rewrite lookup_delete_ne, lookup_insert_ne by congruence. reflexivity.
  - intros a. unfold NFTStaking.getStakedTokens, NFTStaking.tokensOf.
    rewrite Hs2. simpl. rewrite Hby1.
    destruct (decide (a = sender)) as [-> | Hne].
    + rewrite lookup_insert_eq. reflexivity.
    + rewrite !lookup_insert_ne by congruence. reflexivity.
  - rewrite Hs2. simpl. lia.
  - exact Hback.
  - intros t Hne. rewrite Hother2, Hother1 by assumption. reflexivity.
  - unfold NFTStaking.accumulated at 1. rewrite Hs2. simpl.
    rewrite lookup_insert_eq. simpl.
    unfold NFTStaking.accumulated. rewrite Hacc1. reflexivity.
  - intros a Hne. unfold NFTStaking.accumulated. rewrite Hs2. simpl.
    rewrite lookup_insert_ne, Hacc1 by congruence. reflexivity.
Qed.

Lemma stake_then_unstake_restores_witness :
  exists c2,
    NFTStaking.unstake 7 (1000 + 2 * 86400) 1 sampleChain = Some c2
    /\ NFTStaking.totalStaked (NFTStaking.store c2) = 0%N
    /\ NFTStaking.accumulated (NFTStaking.store c2) 7 = (20 * Sol.ETHER)%N.
Proof.
  destruct (NFTStaking.unstake 7 (1000 + 2 * 86400) 1 sampleChain) as [c2 |] eqn:Hun;
    [| vm_compute in Hun; discriminate].
  exists c2. split; [reflexivity |].
  destruct (stake_then_unstake_restores (NFTStaking.deploy 1 99 sampleLedger)
              sampleChain c2 7 1000 (1000 + 2 * 86400) 1
              (NFTStaking.reach_deploy 1 99 sampleLedger)
              ltac:(vm_compute; reflexivity) Hun)
    as (_ & _ & Htot & _ & _ & Hacc & _).
  split; [rewrite Htot; reflexivity |].
  rewrite Hacc. vm_compute. reflexivity.
Defined.

Section Claiming.
Import NFTStaking.

Lemma pendingLoop_ext tm s s' l p :
  (forall t, calculateReward tm t s' = calculateReward tm t s) ->
  pendingLoop tm s' l p = pendingLoop tm s l p.
Proof.
  intros Hext. revert p. induction l as [| t l IH]; intros p; simpl; [reflexivity |].
  rewrite Hext. destruct (calculateReward tm t s) as [r |]; simpl; [| reflexivity].
  destruct (Sol.add p r) as [q |]; simpl; [apply IH | reflexivity].
Qed.

Lemma pendingLoop_bound tm s l p q :
  (p <= Sol.MAX_UINT256)%N -> pendingLoop tm s l p = Some q ->
  (q <= Sol.MAX_UINT256)%N.
Proof.
  revert p. induction l as [| t l IH]; intros p Hp H; simpl in H.
  - inversion H; subst. assumption.
  - sol_inv. eapply IH; [| eassumption]. subst. assumption.
Qed.

End Claiming.

(** X6.  [claimRewards] pays out the accumulated and the pending rewards
    but resets the accumulated part only: the staking clocks are left
    as they are, so right after a successful claim the pending part is
    still reported by [getRewardAmount] for the caller, in full.  What the
    other addresses can claim is unchanged, and [lastClaimTime] of the
    caller is the timestamp of the call. *)
Theorem claimRewards_leaves_pending_claimable (c c' : NFTStaking.Chain)
    (sender now : N) :
  NFTStaking.claimRewards sender now c = Some c' ->
  (exists pending,
      NFTStaking.getRewardAmount now sender (NFTStaking.store c)
      = Some (NFTStaking.accumulated (NFTStaking.store c) sender + pending)%N
      /\ NFTStaking.getRewardAmount now sender (NFTStaking.store c') = Some pending)
  /\ (forall tm t,
        NFTStaking.calculateReward tm t (NFTStaking.store c')
        = NFTStaking.calculateReward tm t (NFTStaking.store c))
  /\ (forall tm a, a <> sender ->
        NFTStaking.getRewardAmount tm a (NFTStaking.store c')
        = NFTStaking.getRewardAmount tm a (NFTStaking.store c))
  /\ NFTStaking.lastClaimTime (NFTStaking.store c') !! sender = Some now.
Proof.
  intros H. unfold NFTStaking.claimRewards in H. sol_inv. subst c'. simpl.
  assert (Hcalc : forall tm t,
             NFTStaking.calculateReward tm t
               {| NFTStaking.self := NFTStaking.self (NFTStaking.store c);
                  NFTStaking.contractOwner := NFTStaking.contractOwner (NFTStaking.store c);
                  NFTStaking.rewardRate := NFTStaking.rewardRate (NFTStaking.store c);
                  NFTStaking.minimumStakingPeriod :=
                    NFTStaking.minimumStakingPeriod (NFTStaking.store c);
                  NFTStaking.stakedTokens := NFTStaking.stakedTokens (NFTStaking.store c);
                  NFTStaking._stakedTokensByOwner :=
                    NFTStaking._stakedTokensByOwner (NFTStaking.store c);
                  NFTStaking._stakedTokensIndex :=
                    NFTStaking._stakedTokensIndex (NFTStaking.store c);
                  NFTStaking.accumulatedRewards :=
                    <[sender := 0%N]> (NFTStaking.accumulatedRewards (NFTStaking.store c));
                  NFTStaking.lastClaimTime :=
                    <[sender := now]> (NFTStaking.lastClaimTime (NFTStaking.store c));
                  NFTStaking.totalStaked := NFTStaking.totalStaked (NFTStaking.store c) |}
             = NFTStaking.calculateReward tm t (NFTStaking.store c))
    by reflexivity.
  match goal with H : NFTStaking.getRewardAmount _ _ _ = Some _ |- _ =>
    rename H into Hget end.
  split; [| split; [| split]].
  - unfold NFTStaking.getRewardAmount in Hget. sol_inv. subst.
    match goal with H : NFTStaking.pendingLoop _ _ _ _ = Some ?p |- _ =>
      rename H into Hloop; exists p end.
    split.
    + unfold NFTStaking.getRewardAmount. rewrite Hloop. simpl.
      apply sol_add_fits. assumption.
    + unfold NFTStaking.getRewardAmount.
      rewrite (pendingLoop_ext now (NFTStaking.store c)) by exact (Hcalc now).
      unfold NFTStaking.tokensOf, NFTStaking.accumulated. simpl.
      fold (NFTStaking.tokensOf (NFTStaking.store c) sender).
      rewrite Hloop, lookup_insert_eq. simpl.
      apply sol_add_fits. rewrite N.add_0_l.
      eapply pendingLoop_bound; [| exact Hloop]. vm_compute. discriminate.
  - exact Hcalc.
  - intros tm a Hne. unfold NFTStaking.getRewardAmount.
    rewrite (pendingLoop_ext tm (NFTStaking.store c)) by exact (Hcalc tm).
    unfold NFTStaking.tokensOf, NFTStaking.accumulated. simpl.
    rewrite lookup_insert_ne by congruence. reflexivity.
  - apply lookup_insert_eq.
Qed.

Lemma claimRewards_leaves_pending_claimable_witness :
  exists c',
    NFTStaking.claimRewards 7 (1000 + 86400) sampleChain = Some c'
    /\ NFTStaking.getRewardAmount (1000 + 86400) 7 (NFTStaking.store c')
       = Some (10 * Sol.ETHER)%N
    /\ is_Some (NFTStaking.claimRewards 7 (1000 + 86400) c').
Proof.
  destruct (NFTStaking.claimRewards 7 (1000 + 86400) sampleChain) as [c' |] eqn:Hc;
    [| vm_compute in Hc; discriminate].
  exists c'. split; [reflexivity |].
  destruct (claimRewards_leaves_pending_claimable sampleChain c' 7 (1000 + 86400) Hc)
    as ((pending & Hbefore & Hafter) & _).
  assert (Hp : pending = (10 * Sol.ETHER)%N).
  { vm_compute in Hbefore. inversion Hbefore. vm_compute. lia. }
  subst pending. split; [exact Hafter |].
  unfold NFTStaking.claimRewards. rewrite Hafter. simpl. eauto.
Defined.



(** * Further properties of the collection contract *)

Section Minting.
Import MonadNFT.

Lemma _safeMint_passive_inv to tokenId h s s' :
  passive h -> _safeMint to tokenId h s = Some s' ->
  exists l', ERC721._mint to tokenId (ledger s) = Some l' /\ s' = set_ledger l' s.
Proof.
  unfold _safeMint. intros Hp H. sol_inv.
  match goal with H : ERC721._mint _ _ _ = Some ?l |- _ => exists l end.
  split; [assumption |].
  match goal with H : h ?x = Some _ |- _ =>
    destruct (Hp x) as [Hh | Hh]; congruence end.
Qed.

Lemma _mint_Some to tokenId l l' :
  ERC721._mint to tokenId l = Some l' ->
  to <> 0%N /\ ERC721.owners l !! tokenId = None
  /\ ERC721.owners l' = <[tokenId := to]> (ERC721.owners l)
  /\ ERC721.allTokens l' = ERC721.allTokens l ++ [tokenId].
Proof.
  unfold ERC721._mint, ERC721._exists. intros H. sol_inv. subst. simpl.
  repeat match goal with H : negb _ = true |- _ => apply negb_true_iff in H end.
  match goal with H : (_ =? 0)%N = false |- _ => apply N.eqb_neq in H end.
  match goal with H : bool_decide _ = false |- _ => apply bool_decide_eq_false in H end.
  repeat split; try assumption.
  destruct (ERC721.owners l !! tokenId) eqn:Hl; [| reflexivity].
  exfalso. eauto.
Qed.

Lemma sequential_mint to l l' :
  sequential l -> ERC721._mint to (ERC721.totalSupply l + 1) l = Some l' ->
  sequential l'.
Proof.
  intros [Hall Hdom] H. apply _mint_Some in H as (_ & _ & Ho & Ha).
  unfold sequential, ERC721.totalSupply in *. rewrite Ho, Ha. split.
  - rewrite length_app. simpl. rewrite Nat.add_1_r, seq_S, map_app, <- Hall. simpl.
    do 2 f_equal. lia.
  - intros t. rewrite lookup_insert_is_Some, Hdom, length_app. simpl.
    split; [intros [<- | [Hne Hin]]; lia |].
    intros Hin.
    destruct (decide (N.of_nat (length (ERC721.allTokens l)) + 1 = t)%N) as [He | Hne];
      [left; exact He | right; split; [exact Hne | lia]].
Qed.

(** What the loop of [mintMultiple] does when no notified contract calls
    back. *)
Lemma mintLoop_passive_inv sender n i h s s' :
  (forall j, passive (h j)) -> mintLoop sender n i h s = Some s' ->
  totalSupply s' = (totalSupply s + N.of_nat n)%N
  /\ (forall t, (totalSupply s < t <= totalSupply s + N.of_nat n)%N ->
        ERC721.ownerOf t (ledger s') = Some sender)
  /\ (forall t, ~ (totalSupply s < t <= totalSupply s + N.of_nat n)%N ->
        ERC721.ownerOf t (ledger s') = ERC721.ownerOf t (ledger s))
  /\ (sequential (ledger s) -> sequential (ledger s'))
  /\ contractOwner s' = contractOwner s /\ maxSupply s' = maxSupply s
  /\ mintPrice s' = mintPrice s /\ whitelisted s' = whitelisted s
  /\ balance s' = balance s.
Proof.
  intros Hp. revert i s. induction n as [| n IH]; intros i s H; simpl in H.
  - inversion H; subst. split; [lia |]. split; [intros; lia |].
    split; [reflexivity |]. split; [auto |]. repeat split.
  - sol_inv. subst.
    match goal with H : _safeMint _ _ _ _ = Some _ |- _ =>
      apply _safeMint_passive_inv in H as (l1 & Hm & ->); [| apply Hp] end.
    match goal with H : mintLoop _ _ _ _ _ = Some _ |- _ =>
      apply IH in H as (Hs & Hnew & Hold & Hseq & Hco & Hmax & Hpr & Hwl & Hbal) end.
    pose proof (_mint_supply _ _ _ _ Hm) as Hs1.
    pose proof (_mint_Some _ _ _ _ Hm) as (_ & _ & Ho1 & _).
    unfold totalSupply in *. simpl in *.
    split; [lia |]. split; [| split; [| split]].
    + intros t Ht.
      destruct (decide (t = ERC721.totalSupply (ledger s) + 1)%N) as [-> | Hne].
      * rewrite Hold by lia. unfold ERC721.ownerOf. rewrite Ho1.
        apply lookup_insert_eq.
      * apply Hnew. lia.
    + intros t Ht. rewrite Hold by lia. unfold ERC721.ownerOf. rewrite Ho1.
      apply lookup_insert_ne. lia.
    + intros Hq. apply Hseq. eapply sequential_mint; eassumption.
    + repeat split; assumption.
Qed.

Lemma sequential_run sender k s s' :
  passive_call k -> sequential (ledger s) -> run sender k s = Some s' ->
  sequential (ledger s').
Proof.
  intros Hp Hq H. destruct k; simpl in H, Hp.
  - unfold mint in H. sol_inv. subst.
    match goal with H : _safeMint _ _ _ _ = Some _ |- _ =>
      apply _safeMint_passive_inv in H as (l1 & Hm & ->); [| assumption] end.
    simpl. eapply sequential_mint; eassumption.
  - unfold mintMultiple in H. sol_inv.
    match goal with H : mintLoop _ _ _ _ _ = Some _ |- _ =>
      apply mintLoop_passive_inv in H as (_ & _ & _ & Hseq & _); [| assumption] end.
    apply Hseq. exact Hq.
  - unfold whitelistMint in H. sol_inv. subst.
    match goal with H : _safeMint _ _ _ _ = Some _ |- _ =>
      apply _safeMint_passive_inv in H as (l1 & Hm & ->); [| assumption] end.
    simpl. eapply sequential_mint; eassumption.
  - unfold addToWhitelist in H. sol_inv. subst. exact Hq.
  - unfold setMintPrice in H. sol_inv. subst. exact Hq.
  - unfold setMaxSupply in H. sol_inv. subst. exact Hq.
  - unfold withdraw in H. sol_inv.
    match goal with H : onPaid ?x = Some _ |- _ =>
      destruct (Hp x) as [Hh | Hh]; [| congruence];
      assert (s' = x) by congruence; subst s' end.
    exact Hq.
Qed.

Lemma reachable_sequential s : reachable s -> sequential (ledger s).
Proof.
  induction 1 as [deployer | s sender k s' _ IH Hp Hrun].
  - split; [reflexivity |]. intros t. simpl. rewrite lookup_empty.
    unfold ERC721.totalSupply. simpl. split; [intros [? ?]; discriminate | lia].
  - eapply sequential_run; eassumption.
Qed.

Lemma smallCollection_reachable : reachable smallCollection.
Proof.
  apply (reach_call (deploy 1) 1 (SetMaxSupply 2)); [apply reach_deploy | exact I |].
  vm_compute. reflexivity.
Qed.

Lemma noHook_passive : passive noHook.
Proof. intros s. left. reflexivity. Qed.

Lemma mintedCollection_reachable : reachable mintedCollection.
Proof.
  apply (reach_call smallCollection 7 (Mint (Sol.ETHER / 100) noHook));
    [apply smallCollection_reachable | apply noHook_passive |].
  vm_compute. reflexivity.
Qed.

End Minting.

(** X8.  As long as no notified contract calls back, the collection hands
    out token identifiers in sequence from 1: in every state it reaches
    the tokens minted so far are exactly [1], ..., [totalSupply()], listed
    in that order by the enumeration. *)
Theorem token_ids_are_one_to_totalSupply (s : MonadNFT.State) :
  MonadNFT.reachable s ->
  ERC721.allTokens (MonadNFT.ledger s)
  = map N.of_nat (seq 1 (N.to_nat (MonadNFT.totalSupply s)))
  /\ forall t, is_Some (ERC721.ownerOf t (MonadNFT.ledger s))
               <-> (1 <= t <= MonadNFT.totalSupply s)%N.
Proof.
  intros Hr. destruct (reachable_sequential s Hr) as [Hall Hdom]. split.
  - unfold MonadNFT.totalSupply, ERC721.totalSupply. rewrite Nat2N.id. exact Hall.
  - exact Hdom.
Qed.

Lemma token_ids_are_one_to_totalSupply_witness :
  ERC721.allTokens (MonadNFT.ledger mintedCollection) = [1%N]
  /\ ERC721.ownerOf 2 (MonadNFT.ledger mintedCollection) = None.
Proof.
  destruct (token_ids_are_one_to_totalSupply mintedCollection mintedCollection_reachable)
    as [Hall Hdom].
  split; [rewrite Hall; vm_compute; reflexivity |].
  destruct (ERC721.ownerOf 2 (MonadNFT.ledger mintedCollection)) eqn:Ho; [| reflexivity].
  assert (Hin : (1 <= 2 <= MonadNFT.totalSupply mintedCollection)%N)
    by (apply Hdom; rewrite Ho; eauto).
  vm_compute in Hin. destruct Hin as [_ Hin]. exfalso. apply Hin. reflexivity.
Defined.

(** X9.  A mint cannot fail for a reason of the contract's own: in a
    state reached without call-backs, [mint] sent with at least the price
    while [totalSupply() < maxSupply], to a recipient that accepts the
    token, succeeds; the new token is number [totalSupply() + 1] and
    belongs to the sender, no other token changes hands, and the whole
    value sent stays in the contract (nothing is refunded). *)
Theorem mint_succeeds (s : MonadNFT.State) (sender value : N) (h : MonadNFT.Hook) :
  MonadNFT.reachable s ->
  sender <> 0%N ->
  (MonadNFT.totalSupply s < MonadNFT.maxSupply s)%N ->
  (MonadNFT.maxSupply s <= Sol.MAX_UINT256)%N ->
  (MonadNFT.mintPrice s <= value)%N ->
  (forall s1, h s1 = Some s1) ->
  exists s',
    MonadNFT.mint sender value h s = Some s'
    /\ ERC721.ownerOf (MonadNFT.totalSupply s + 1) (MonadNFT.ledger s') = Some sender
    /\ (forall t, t <> (MonadNFT.totalSupply s + 1)%N ->
          ERC721.ownerOf t (MonadNFT.ledger s') = ERC721.ownerOf t (MonadNFT.ledger s))
    /\ MonadNFT.totalSupply s' = (MonadNFT.totalSupply s + 1)%N
    /\ MonadNFT.balance s' = (MonadNFT.balance s + value)%N.
Proof.
  intros Hr Hsender Hroom Hmax Hprice Hh.
  destruct (reachable_sequential s Hr) as [_ Hdom].
  unfold MonadNFT.mint, MonadNFT.totalSupply in *. simpl.
  destruct (N.ltb_spec (ERC721.totalSupply (MonadNFT.ledger s)) (MonadNFT.maxSupply s))
    as [_ | Hge]; [| lia].
  destruct (N.leb_spec (MonadNFT.mintPrice s) value) as [_ | Hlt]; [| lia].
  simpl. rewrite sol_add_fits by lia. simpl.
  unfold MonadNFT._safeMint, ERC721._mint, ERC721._exists. simpl.
  destruct (N.eqb_spec sender 0) as [H0 | _]; [contradiction |]. simpl.
  rewrite bool_decide_eq_false_2 by (rewrite Hdom; lia). simpl.
  rewrite Hh. eexists. split; [reflexivity |]. simpl.
  unfold ERC721.ownerOf, ERC721.totalSupply. simpl.
  split; [apply lookup_insert_eq |]. split; [| split; [| reflexivity]].
  - intros t Hne. apply lookup_insert_ne. congruence.
  - rewrite length_app. simpl. lia.
Qed.

Lemma mint_succeeds_witness :
  exists s',
    MonadNFT.mint 8 (Sol.ETHER / 100 + 5) MonadNFT.noHook mintedCollection = Some s'
    /\ ERC721.ownerOf 2 (MonadNFT.ledger s') = Some 8%N
    /\ MonadNFT.balance s' = (2 * (Sol.ETHER / 100) + 5)%N.
Proof.
  destruct (mint_succeeds mintedCollection 8 (Sol.ETHER / 100 + 5) MonadNFT.noHook
              mintedCollection_reachable)
    as (s' & Hm & Ho & _ & _ & Hb);
    [vm_compute; discriminate | vm_compute; reflexivity | vm_compute; discriminate
    | vm_compute; discriminate | reflexivity |].
  exists s'. split; [exact Hm |]. split; [exact Ho |].
  rewrite Hb. vm_compute. reflexivity.
Defined.



Section PassiveCalls.
Import MonadNFT.

(** What a call changes besides the ledger when no notified contract
    calls back. *)
Lemma passive_run_fields sender k s s' :
  passive_call k -> run sender k s = Some s' ->
  contractOwner s' = contractOwner s
  /\ (sender <> contractOwner s ->
      maxSupply s' = maxSupply s /\ mintPrice s' = mintPrice s
      /\ whitelisted s' ⊆ whitelisted s)
  /\ ((balance s <= balance s')%N
      \/ (exists onPaid, k = Withdraw onPaid) /\ sender = contractOwner s
         /\ (0 < balance s)%N /\ balance s' = 0%N /\ ledger s' = ledger s).
Proof.
  intros Hp H. destruct k; simpl in H, Hp.
  - unfold mint in H. sol_inv. subst.
    match goal with H : _safeMint _ _ _ _ = Some _ |- _ =>
      apply _safeMint_passive_inv in H as (l1 & Hm & ->); [| assumption] end.
    simpl. split; [reflexivity |].
    split; [intros _; split; [reflexivity |]; split; reflexivity |].
    left. lia.
  - unfold mintMultiple in H. sol_inv.
    match goal with H : mintLoop _ _ _ _ _ = Some _ |- _ =>
      apply mintLoop_passive_inv in H
        as (_ & _ & _ & _ & Hco & Hmax & Hpr & Hwl & Hbal); [| assumption] end.
    simpl in *. split; [assumption |].
    split; [intros _; rewrite Hwl; split; [assumption |]; split; [assumption | reflexivity] |].
    left. lia.
  - unfold whitelistMint in H. sol_inv. subst.
    match goal with H : _safeMint _ _ _ _ = Some _ |- _ =>
      apply _safeMint_passive_inv in H as (l1 & Hm & ->); [| assumption] end.
    simpl. split; [reflexivity |].
    split; [intros _; split; [reflexivity |]; split; [reflexivity |] |].
    + intros a [Ha _]%elem_of_difference. exact Ha.
    + left. lia.
  - unfold addToWhitelist in H. sol_inv. subst. simpl.
    match goal with H : (_ =? _)%N = true |- _ => apply N.eqb_eq in H end.
    split; [reflexivity |]. split; [intros; contradiction | left; lia].
  - unfold setMintPrice in H. sol_inv. subst. simpl.
    match goal with H : (_ =? _)%N = true |- _ => apply N.eqb_eq in H end.
    split; [reflexivity |]. split; [intros; contradiction | left; lia].
  - unfold setMaxSupply in H. sol_inv. subst. simpl.
    match goal with H : (_ =? contractOwner _)%N = true |- _ => apply N.eqb_eq in H end.
    split; [reflexivity |]. split; [intros; contradiction | left; lia].
  - unfold withdraw in H. sol_inv.
    match goal with H : onPaid ?x = Some _ |- _ =>
      destruct (Hp x) as [Hh | Hh]; [| congruence];
      assert (s' = x) by congruence; subst s' end.
    match goal with H : (_ =? _)%N = true |- _ => apply N.eqb_eq in H end.
    match goal with H : (_ <? _)%N = true |- _ => apply N.ltb_lt in H end.
    simpl. split; [reflexivity |]. split; [intros; contradiction |].
    right. repeat split; eauto.
Qed.

End PassiveCalls.

(** X11.  A place on the whitelist is good for one free token: when no
    notified contract calls back, a successful [whitelistMint] was sent by
    a whitelisted address, mints token [totalSupply() + 1] to it without
    payment and takes the address, and no other, off the whitelist, so
    that a second [whitelistMint] of that address reverts. *)
Theorem whitelistMint_is_one_shot (s s' : MonadNFT.State) (sender : address)
    (h : MonadNFT.Hook) :
  MonadNFT.passive h ->
  MonadNFT.whitelistMint sender h s = Some s' ->
  (sender ∈ MonadNFT.whitelisted s)
  /\ (sender ∉ MonadNFT.whitelisted s')
  /\ (forall a, a <> sender ->
        (a ∈ MonadNFT.whitelisted s') <-> (a ∈ MonadNFT.whitelisted s))
  /\ (forall h', MonadNFT.whitelistMint sender h' s' = None)
  /\ ERC721.ownerOf (MonadNFT.totalSupply s + 1) (MonadNFT.ledger s') = Some sender
  /\ MonadNFT.balance s' = MonadNFT.balance s.
Proof.
  intros Hp H. unfold MonadNFT.whitelistMint in H. sol_inv. subst.
  match goal with H : MonadNFT._safeMint _ _ _ _ = Some _ |- _ =>
    apply _safeMint_passive_inv in H as (l1 & Hm & ->); [| assumption] end.
  match goal with H : bool_decide _ = true |- _ => apply bool_decide_eq_true in H end.
  apply _mint_Some in Hm as (_ & _ & Ho & _).
  assert (Hout : sender ∉ MonadNFT.whitelisted s ∖ {[sender]}).
  { intros [_ Hn]%elem_of_difference. apply Hn, elem_of_singleton. reflexivity. }
  simpl. split; [assumption |]. split; [exact Hout |].
  split; [intros a Ha; rewrite elem_of_difference, elem_of_singleton; tauto |].
  split; [| split; [| reflexivity]].
  - intros h'. unfold MonadNFT.whitelistMint. simpl.
    rewrite bool_decide_eq_false_2 by exact Hout. reflexivity.
  - unfold ERC721.ownerOf. rewrite Ho. apply lookup_insert_eq.
Qed.

Lemma whitelistMint_is_one_shot_witness :
  exists s',
    MonadNFT.whitelistMint 7 MonadNFT.noHook whitelistedCollection = Some s'
    /\ MonadNFT.whitelistMint 7 MonadNFT.noHook s' = None
    /\ (8%N ∈ MonadNFT.whitelisted s').
Proof.
  destruct (MonadNFT.whitelistMint 7 MonadNFT.noHook whitelistedCollection)
    as [s' |] eqn:Hm; [| vm_compute in Hm; discriminate].
  exists s'. split; [reflexivity |].
  destruct (whitelistMint_is_one_shot whitelistedCollection s' 7 MonadNFT.noHook
              noHook_passive Hm)
    as (_ & _ & Hothers & Hagain & _).
  split; [apply Hagain |].
  apply Hothers; [discriminate |]. vm_compute. reflexivity.
Defined.

(** X12.  The payments stay in the collection contract until its owner
    withdraws them: when no notified contract calls back, a successful
    call either leaves [address(this).balance] at least as high as it
    was, or it is a [withdraw] sent by the owner on a positive balance,
    which empties the balance and changes no token. *)
Theorem funds_leave_only_by_withdraw (s s' : MonadNFT.State) (sender : address)
    (k : MonadNFT.call) :
  MonadNFT.passive_call k ->
  MonadNFT.run sender k s = Some s' ->
  (MonadNFT.balance s <= MonadNFT.balance s')%N
  \/ (exists onPaid, k = MonadNFT.Withdraw onPaid)
     /\ sender = MonadNFT.contractOwner s
     /\ (0 < MonadNFT.balance s)%N
     /\ MonadNFT.balance s' = 0%N
     /\ MonadNFT.ledger s' = MonadNFT.ledger s.
Proof.
  intros Hp H. exact (proj2 (proj2 (passive_run_fields sender k s s' Hp H))).
Qed.

Lemma funds_leave_only_by_withdraw_witness :
  (MonadNFT.balance smallCollection <= MonadNFT.balance mintedCollection)%N
  /\ MonadNFT.run 7 (MonadNFT.Withdraw MonadNFT.noHook) mintedCollection = None.
Proof.
  split; [| vm_compute; reflexivity].
  destruct (funds_leave_only_by_withdraw smallCollection mintedCollection 7
              (MonadNFT.Mint (Sol.ETHER / 100) MonadNFT.noHook) noHook_passive
              ltac:(vm_compute; reflexivity))
    as [Hle | ((onPaid & Hk) & _)]; [exact Hle | discriminate Hk].
Defined.



Section TokenURIs.

Lemma list_ascii_of_string_app s1 s2 :
  list_ascii_of_string (s1 +:+ s2)
  = list_ascii_of_string s1 ++ list_ascii_of_string s2.
Proof.
  induction s1 as [| c s1 IH]; simpl; [reflexivity | rewrite IH; reflexivity].
Qed.

Lemma string_app_inv_tail s1 s2 x : s1 +:+ x = s2 +:+ x -> s1 = s2.
Proof.
  intros H. apply (f_equal list_ascii_of_string) in H.
  rewrite !list_ascii_of_string_app in H. apply app_inv_tail in H.
  apply (f_equal string_of_list_ascii) in H.
  rewrite !string_of_list_ascii_of_string in H. exact H.
Qed.

End TokenURIs.

(** X14.  In a state reached without call-backs, [tokenURI] answers for
    exactly the tokens [1], ..., [totalSupply()] and reverts for every
    other identifier; with a non-empty base URI the answer is the base
    followed by the decimal identifier and [.json], so that two tokens
    never share a URI. *)
Theorem tokenURI_defined_and_distinct (s : MonadNFT.State) (baseURI : string) :
  MonadNFT.reachable s ->
  (forall t, is_Some (MonadNFT.tokenURI baseURI t s)
             <-> (1 <= t <= MonadNFT.totalSupply s)%N)
  /\ (baseURI <> ""%string ->
      forall t1 t2 uri,
        MonadNFT.tokenURI baseURI t1 s = Some uri ->
        MonadNFT.tokenURI baseURI t2 s = Some uri -> t1 = t2).
Proof.
  intros Hr. destruct (reachable_sequential s Hr) as [_ Hdom]. split.
  - intros t. unfold MonadNFT.tokenURI, ERC721._exists. rewrite <- Hdom.
    destruct (decide (is_Some (ERC721.owners (MonadNFT.ledger s) !! t))) as [Hin | Hout].
    + rewrite bool_decide_eq_true_2 by assumption. simpl. split; eauto.
    + rewrite bool_decide_eq_false_2 by assumption. simpl.
      split; [intros [? ?]; discriminate | contradiction].
  - intros Hbase t1 t2 uri H1 H2. unfold MonadNFT.tokenURI in H1, H2. sol_inv.
    assert (Hlen : (0 <? String.length baseURI)%nat = true)
      by (destruct baseURI; [contradiction | reflexivity]).
    rewrite Hlen in *. subst uri.
    match goal with H : _ +:+ _ = _ +:+ _ |- _ =>
      apply String.app_inj, string_app_inv_tail in H; apply (inj pretty) in H end.
    congruence.
Qed.

Lemma tokenURI_defined_and_distinct_witness :
  MonadNFT.tokenURI "https://example.com/token/" 1 mintedCollection
  = Some "https://example.com/token/1.json"%string
  /\ MonadNFT.tokenURI "https://example.com/token/" 2 mintedCollection = None.
Proof.
  destruct (tokenURI_defined_and_distinct mintedCollection "https://example.com/token/"
              mintedCollection_reachable) as [Hdef _].
  split; [vm_compute; reflexivity |].
  destruct (MonadNFT.tokenURI "https://example.com/token/" 2 mintedCollection) eqn:Hu;
    [| reflexivity].
  assert (Hin : (1 <= 2 <= MonadNFT.totalSupply mintedCollection)%N)
    by (apply Hdef; rewrite Hu; eauto).
  vm_compute in Hin. destruct Hin as [_ Hin]. exfalso. apply Hin. reflexivity.
Defined.

(** X15.  Without call-backs the supply cap holds: in every state the
    collection reaches when no notified contract calls back into it,
    [totalSupply() <= maxSupply]. *)
Theorem supply_cap_holds_without_callbacks (s : MonadNFT.State) :
  MonadNFT.reachable s -> (MonadNFT.totalSupply s <= MonadNFT.maxSupply s)%N.
Proof.
  induction 1 as [deployer | s sender k s' _ IH Hp Hrun].
  - vm_compute. discriminate.
  - exact (capped_passive sender k s s' Hp IH Hrun).
Qed.

Lemma supply_cap_holds_without_callbacks_witness :
  (MonadNFT.totalSupply mintedCollection <= 2)%N.
Proof.
  exact (supply_cap_holds_without_callbacks mintedCollection mintedCollection_reachable).
Defined.

(** * Further properties of the client *)

Section Hush.
Import Client.
Context `{E : Env}.

Lemma filter_snoc_false (p : event -> bool) tr ev :
  p ev = false -> List.filter p (tr ++ [ev]) = List.filter p tr.
Proof. intros H. rewrite List.filter_app. simpl. rewrite H. apply app_nil_r. Qed.

Lemma blind_sent : blind sent.
Proof. repeat split. Qed.

Lemma blind_timer : blind timer.
Proof. repeat split. Qed.

Lemma hush_ret {A} p (a : A) : hush p (mret a).
Proof. intros st. reflexivity. Qed.

Lemma hush_throw {A} p e : hush p (throw e : M A).
Proof. intros st. reflexivity. Qed.

Lemma hush_liftE {A} p (r : Err + A) : hush p (liftE r).
Proof. intros st. reflexivity. Qed.

Lemma hush_set p f : hush p (set f).
Proof. intros st. reflexivity. Qed.

Lemma hush_liftOp {A} p (op : Op A) : hush p (liftOp op).
Proof. intros st. unfold liftOp. destruct (op (world st)). reflexivity. Qed.

Lemma hush_emit p ev : p ev = false -> hush p (emit ev).
Proof. intros H st. unfold emit. simpl. apply filter_snoc_false. exact H. Qed.

Lemma hush_bind {A B} p (m : M A) (k : A -> M B) :
  hush p m -> (forall a, hush p (k a)) -> hush p (mbind k m).
Proof.
  intros Hm Hk st. unfold mbind, M_bind, bind.
  specialize (Hm st). destruct (m st) as [st1 [e | a]]; simpl in *; [exact Hm |].
  rewrite Hk. exact Hm.
Qed.

Lemma hush_tryCatch {A} p (m : M A) h :
  hush p m -> (forall e, hush p (h e)) -> hush p (tryCatch m h).
Proof.
  intros Hm Hh st. unfold tryCatch.
  specialize (Hm st). destruct (m st) as [st1 [e | a]]; simpl in *; [| exact Hm].
  rewrite Hh. exact Hm.
Qed.

Lemma hush_finally {A} p (m : M A) fin :
  hush p m -> hush p fin -> hush p (finally m fin).
Proof.
  intros Hm Hf st. unfold finally.
  specialize (Hm st). destruct (m st) as [st1 r]. simpl in *.
  specialize (Hf st1). destruct (fin st1) as [st2 [e | u]]; simpl in *; congruence.
Qed.

Lemma hush_if {A} p (b : bool) (m1 m2 : M A) :
  hush p m1 -> hush p m2 -> hush p (if b then m1 else m2).
Proof. destruct b; auto. Qed.

Lemma hush_attemptOf {A} p name (fn : M A) :
  blind p -> hush p fn -> hush p (attemptOf name fn).
Proof.
  intros (Hb & _ & _) Hm st. unfold attemptOf. specialize (Hm st).
  destruct (fn st) as [st1 [e | a]]; simpl in *;
    rewrite filter_snoc_false by apply Hb; exact Hm.
Qed.

Lemma hush_method {A} p (r : request A) : p (EvRpc r) = false -> hush p (method r).
Proof.
  intros H. unfold method.
  apply hush_bind; [apply hush_emit; exact H | intros; apply hush_liftOp].
Qed.

Lemma hush_safeRpcLoop {A} p (fn : M A) name n remaining attempt :
  blind p -> hush p fn -> hush p (safeRpcLoop fn name n remaining attempt).
Proof.
  intros Hb Hfn. pose proof Hb as (_ & Hc & Hs). revert attempt.
  induction remaining as [| remaining IH]; intros attempt; simpl.
  - apply hush_throw.
  - apply hush_bind.
    + unfold safeRpcAttempt, console, sleep, random. apply hush_tryCatch.
      * apply hush_bind; [apply hush_attemptOf; assumption |].
        intros a. apply hush_bind; [| intros; apply hush_ret].
        apply hush_if; [apply hush_emit, Hc | apply hush_ret].
      * intros e. apply hush_bind; [apply hush_emit, Hc |]. intros _.
        apply hush_if.
        -- apply hush_bind; [apply hush_emit, Hc | intros; apply hush_throw].
        -- apply hush_bind; [apply hush_liftOp |]. intros r.
           apply hush_bind; [apply hush_emit, Hc |]. intros _.
           apply hush_bind; [apply hush_emit, Hs | intros; apply hush_ret].
    + intros [a |]; [apply hush_ret | apply IH].
Qed.

Lemma hush_safeRpcCall {A} p (fn : M A) name n :
  blind p -> hush p fn -> hush p (safeRpcCall fn name n).
Proof. apply hush_safeRpcLoop. Qed.

Lemma hush_forLoop {S} p n i (body : N -> S -> M S) acc :
  (forall i acc, hush p (body i acc)) -> hush p (forLoop n i body acc).
Proof.
  intros Hb. revert i acc. induction n as [| n IH]; intros i acc; simpl.
  - apply hush_ret.
  - apply hush_bind; [apply Hb | intros; apply IH].
Qed.

End Hush.

(** Proves that a computation adds none of the selected events by
    following its structure. *)
Ltac quiet :=
  repeat first
    [ progress intros
    | apply hush_safeRpcCall; [first [apply blind_sent | apply blind_timer] |]
    | apply hush_method; reflexivity
    | apply hush_bind | apply hush_tryCatch | apply hush_finally
    | apply hush_if | apply hush_forLoop
    | apply hush_ret | apply hush_throw | apply hush_set
    | apply hush_liftE | apply hush_liftOp
    | apply hush_emit; reflexivity
    | match goal with
      | |- Client.hush _ (match ?x with _ => _ end) => destruct x
      end ].

Section ReadOnly.
Import Client.
Context `{E : Env}.

Lemma hush_loadNFTsFromBlockchain a b1 b2 :
  hush sent (loadNFTsFromBlockchain a b1 b2).
Proof. unfold loadNFTsFromBlockchain, metadataPhase. quiet. Qed.

Lemma hush_loadStakedNFTs cap a : hush sent (loadStakedNFTs cap a).
Proof.
  unfold loadStakedNFTs, stakedTokenIdsOf, chainTokenIds, contractMethods,
    ownershipVerification, isStakedByUser, firstAttempt, secondAttempt, thirdAttempt,
    fourthAttempt, lastAttempt, metadataPhase.
  quiet.
Qed.

Lemma hush_refreshRewardData cap a : hush sent (refreshRewardData cap a).
Proof. unfold refreshRewardData. quiet. Qed.

Lemma hush_refreshAllNFTData cap : hush sent (refreshAllNFTData cap).
Proof.
  unfold refreshAllNFTData. quiet;
    first [apply hush_loadNFTsFromBlockchain | apply hush_loadStakedNFTs
          | apply hush_refreshRewardData].
Qed.

Lemma hush_loadAccurateNFTData cap : hush sent (loadAccurateNFTData cap).
Proof.
  unfold loadAccurateNFTData. quiet;
    first [apply hush_loadNFTsFromBlockchain | apply hush_loadStakedNFTs
          | apply hush_refreshRewardData].
Qed.

Lemma hush_checkAndAddStakedNFT cap : hush sent (checkAndAddStakedNFT cap).
Proof. unfold checkAndAddStakedNFT, isNftStaked, addIfOwned. quiet. Qed.

Lemma hush_checkSingleNftId cap id_ : hush sent (checkSingleNftId cap id_).
Proof. unfold checkSingleNftId, stakedByUser, nullContract. quiet. Qed.

Lemma hush_onStaked cap t staker : hush sent (onStaked cap t staker).
Proof. unfold onStaked. quiet; apply hush_refreshRewardData. Qed.

Lemma hush_onUnstaked cap t staker : hush sent (onUnstaked cap t staker).
Proof. unfold onUnstaked. quiet; apply hush_refreshRewardData. Qed.

Lemma hush_onRewardsClaimed cap staker amount :
  hush sent (onRewardsClaimed cap staker amount).
Proof. unfold onRewardsClaimed. quiet; apply hush_refreshRewardData. Qed.

End ReadOnly.

(** X16.  Reading never writes: the two reconciliation passes, the reward
    refresher, the check handlers of the quick-access form and the
    handlers of the contract events submit no transaction, whatever the
    chain answers: the transactions in the trace of a run are those that
    were there before it. *)
Theorem queries_send_no_transaction `{E : Client.Env} (cap : Client.UI)
    (st : Client.St) :
  Client.writes (Client.trace (Client.refreshAllNFTData cap st).1)
  = Client.writes (Client.trace st)
  /\ Client.writes (Client.trace (Client.loadAccurateNFTData cap st).1)
     = Client.writes (Client.trace st)
  /\ (forall userAddress,
        Client.writes (Client.trace (Client.refreshRewardData cap userAddress st).1)
        = Client.writes (Client.trace st))
  /\ Client.writes (Client.trace (Client.checkAndAddStakedNFT cap st).1)
     = Client.writes (Client.trace st)
  /\ (forall id_,
        Client.writes (Client.trace (Client.checkSingleNftId cap id_ st).1)
        = Client.writes (Client.trace st))
  /\ (forall tokenId staker,
        Client.writes (Client.trace (Client.onStaked cap tokenId staker st).1)
        = Client.writes (Client.trace st)
        /\ Client.writes (Client.trace (Client.onUnstaked cap tokenId staker st).1)
           = Client.writes (Client.trace st))
  /\ (forall staker amount,
        Client.writes (Client.trace (Client.onRewardsClaimed cap staker amount st).1)
        = Client.writes (Client.trace st)).
Proof.
  split; [apply (hush_refreshAllNFTData cap st) |].
  split; [apply (hush_loadAccurateNFTData cap st) |].
  split; [intros a; apply (hush_refreshRewardData cap a st) |].
  split; [apply (hush_checkAndAddStakedNFT cap st) |].
  split; [intros i; apply (hush_checkSingleNftId cap i st) |].
  split.
  - intros t s. split; [apply (hush_onStaked cap t s st) | apply (hush_onUnstaked cap t s st)].
  - intros s a. apply (hush_onRewardsClaimed cap s a st).
Qed.

Section Settling.
Import Client.
Context `{E : Env}.


Lemma resolves_loadAccurateNFTData cap : resolves (loadAccurateNFTData cap).
Proof. unfold loadAccurateNFTData. frame. Qed.








Lemma resolves_unit (m : M unit) st : resolves m -> (m st).2 = inr tt.
Proof. intros H. destruct (H st) as [[] Hu]. exact Hu. Qed.

(** The state a [finally] block leaves is the one its last clause
    leaves. *)
Lemma finally_last {A X} (p : UI -> X) (v : X) (m : M A) fin :
  (forall st, p (ui (fin st).1) = v) ->
  forall st, p (ui (finally m fin st).1) = v.
Proof.
  intros Hf st. unfold finally. destruct (m st) as [st1 r].
  specialize (Hf st1). destruct (fin st1) as [st2 [e | u]]; exact Hf.
Qed.

Lemma bind_last {A B X} (p : UI -> X) (v : X) (m : M A) (k : A -> M B) :
  resolves m -> (forall a st, p (ui (k a st).1) = v) ->
  forall st, p (ui (mbind k m st).1) = v.
Proof.
  intros Hm Hk st. unfold mbind, M_bind, bind.
  destruct (Hm st) as [a Ha]. destruct (m st) as [st1 r]. simpl in *. subst r.
  apply Hk.
Qed.

End Settling.


(** X18.  No handler leaves the loading flag on: for a connected wallet,
    once past its guard, each of the stake handlers, the check handler,
    [executeTransaction] and the reconciliation passes ends with
    [isLoading] false, on success and on failure. *)
Theorem handlers_clear_loading_flag `{E : Client.Env} (cap : Client.UI)
    (st : Client.St) :
  Client.connected cap ->
  Client.isLoading_ (Client.ui (Client.refreshAllNFTData cap st).1) = false
  /\ Client.isLoading_ (Client.ui (Client.loadAccurateNFTData cap st).1) = false
  /\ (forall transaction loadingMessage successMessage,
        Client.isLoading_
          (Client.ui (Client.executeTransaction cap transaction loadingMessage
                        successMessage st).1) = false)
  /\ (forall tokenIdToStake, tokenIdToStake <> ""%string ->
        Client.isLoading_ (Client.ui (Client.stakeNFT cap tokenIdToStake st).1) = false)
  /\ (Client.isBlank (Client.nftIdInput cap) = false ->
      Client.isLoading_ (Client.ui (Client.quickStakeNFT cap st).1) = false
      /\ Client.isLoading_ (Client.ui (Client.checkAndAddStakedNFT cap st).1) = false).
Proof.
  intros (Ha & Hw & Hc & Hn). apply String.eqb_neq in Ha.
  split; [| split; [| split; [| split]]].
  - unfold Client.refreshAllNFTData. rewrite Ha, Hw, Hc, Hn. simpl.
    apply bind_last; [apply resolves_set |]. intros _ st1.
    apply finally_last. reflexivity.
  - unfold Client.loadAccurateNFTData. rewrite Ha, Hw, Hc, Hn. simpl.
    apply bind_last; [apply resolves_set |]. intros _ st1.
    apply bind_last; [apply resolves_set |]. intros _ st2.
    apply finally_last. reflexivity.
  - intros tx lm sm. unfold Client.executeTransaction. rewrite Ha, Hw, Hc. simpl.
    apply bind_last; [apply resolves_set |]. intros _ st1.
    apply bind_last; [apply resolves_set |]. intros _ st2.
    apply finally_last. reflexivity.
  - intros t Ht. apply String.eqb_neq in Ht.
    unfold Client.stakeNFT. rewrite Ha, Hw, Hc, Hn, Ht. simpl.
    apply bind_last; [apply resolves_set |]. intros _ st1.
    apply bind_last; [apply resolves_set |]. intros _ st2.
    apply finally_last. reflexivity.
  - intros Hb. split.
    + unfold Client.quickStakeNFT. rewrite Ha, Hw, Hc, Hn, Hb. simpl.
      apply bind_last; [apply resolves_set |]. intros _ st1.
      apply bind_last; [apply resolves_set |]. intros _ st2.
      apply bind_last; [apply resolves_set |]. intros _ st3.
      apply finally_last. reflexivity.
    + unfold Client.checkAndAddStakedNFT. rewrite Ha, Hw, Hc, Hn, Hb. simpl.
      apply bind_last; [apply resolves_set |]. intros _ st1.
      apply bind_last; [apply resolves_set |]. intros _ st2.
      apply bind_last; [apply resolves_set |]. intros _ st3.
      apply finally_last. reflexivity.
Qed.

Lemma handlers_clear_loading_flag_witness :
  Client.isLoading_
    (Client.ui (@Client.stakeNFT quietEnv (session [9%N] []) "9"
                  (quietStart (session [9%N] []))).1) = false.
Proof.
  destruct (@handlers_clear_loading_flag quietEnv (session [9%N] [])
              (quietStart (session [9%N] [])) (session_connected [9%N] []))
    as (_ & _ & _ & Hstake & _).
  apply Hstake. discriminate.
Defined.

Section Running.
Import Client.
Context `{E : Env}.

Lemma writes_app tr1 tr2 : writes (tr1 ++ tr2) = (writes tr1 ++ writes tr2)%list.
Proof. apply List.filter_app. Qed.

Lemma stakingWrites_app tr1 tr2 :
  stakingWrites (tr1 ++ tr2) = (stakingWrites tr1 ++ stakingWrites tr2)%list.
Proof. apply List.filter_app. Qed.

(** A call through [safeRpcCall] that the chain answers at once. *)
Lemma safeRpcCall_first {A} (r : request A) name n st a :
  (rpc r (world st)).2 = inr a ->
  safeRpcCall (method r) name (S n) st
  = (mkSt (rpc r (world st)).1 (ui st)
       (trace st ++ [EvRpc r] ++ [EvAttempt name None]), inr a).
Proof.
  intros H. unfold safeRpcCall. simpl.
  unfold safeRpcAttempt, tryCatch, attemptOf, method, emit, liftOp, mbind, M_bind,
    bind, mret, M_ret, ret. simpl.
  destruct (rpc r (world st)) as [w res]. simpl in *. subst res. simpl.
  rewrite <- app_assoc. reflexivity.
Qed.

Lemma ids_map_loading (f : NFT -> NFT) l :
  (forall nft, id (f nft) = id nft) -> ids (map f l) = ids l.
Proof.
  intros H. unfold ids. rewrite map_map. apply map_ext. exact H.
Qed.

End Running.

(** X19.  The card handler does not send the stake when the approval
    fails: for a connected wallet, if the [approve] transaction of
    [stakeNFT] is rejected, no transaction goes to the staking contract,
    the rejection is shown as [Staking failed: ...] in the transaction and
    the error message, the staked collection is left as it was, the owned
    collection keeps its tokens, and the loading flag is cleared. *)
Theorem stakeNFT_stops_when_approval_fails `{E : Client.Env} (cap : Client.UI)
    (tokenIdToStake : string) (st : Client.St) (e : Client.Err) :
  Client.connected cap ->
  tokenIdToStake <> ""%string ->
  (Client.rpc (Client.SendApprove Client.stakingContractAddress
                 (Client.ArgStr tokenIdToStake) (Client.account cap))
     (Client.world st)).2 = inl e ->
  let st' := (Client.stakeNFT cap tokenIdToStake st).1 in
  Client.stakingWrites (Client.trace st') = Client.stakingWrites (Client.trace st)
  /\ Client.writes (Client.trace st')
     = (Client.writes (Client.trace st)
        ++ [Client.EvRpc (Client.SendApprove Client.stakingContractAddress
                            (Client.ArgStr tokenIdToStake) (Client.account cap))])%list
  /\ Client.errorMessage (Client.ui st')
     = Some ("Staking failed: " +:+ Client.message e)%string
  /\ Client.transactionMessage (Client.ui st')
     = ("Staking failed: " +:+ Client.message e)%string
  /\ Client.stakedNFTs (Client.ui st') = Client.stakedNFTs (Client.ui st)
  /\ Client.ids (Client.ownedNFTs (Client.ui st'))
     = Client.ids (Client.ownedNFTs (Client.ui st))
  /\ Client.isLoading_ (Client.ui st') = false.
Proof.
  intros (Ha & Hw & Hc & Hn) Ht Hrej st'. subst st'.
  apply String.eqb_neq in Ha. apply String.eqb_neq in Ht.
  unfold Client.stakeNFT. rewrite Ha, Hw, Hc, Hn, Ht. simpl.
  unfold Client.finally, Client.tryCatch, Client.method, Client.emit, Client.liftOp,
    Client.set, mbind, Client.M_bind, Client.bind. simpl.
  destruct (Client.rpc
              (Client.SendApprove Client.stakingContractAddress
                 (Client.ArgStr tokenIdToStake) (Client.account cap))
              (Client.world st)) as [w res].
  simpl in Hrej. subst res. simpl.
  rewrite stakingWrites_app, writes_app. simpl. rewrite app_nil_r.
  repeat split.
  rewrite !ids_map_loading; [reflexivity | |];
    intros nft; destruct (Client.hasId tokenIdToStake nft); reflexivity.
Qed.

Lemma stakeNFT_stops_when_approval_fails_witness :
  Client.errorMessage
    (Client.ui (@Client.stakeNFT deadEnv (session [7%N] []) "7"
                  (@Client.start deadEnv tt (session [7%N] []))).1)
  = Some "Staking failed: execution reverted"%string.
Proof.
  exact (proj1 (proj2 (proj2
           (@stakeNFT_stops_when_approval_fails deadEnv (session [7%N] []) "7"
              (@Client.start deadEnv tt (session [7%N] []))
              (Client.mkErr "execution reverted")
              (session_connected [7%N] []) ltac:(discriminate) eq_refl)))).
Defined.

Section StakeSuccess.
Import Client.
Context `{E : Env}.

Lemma loadAccurateNFTData_message cap st :
  connected cap -> transactionMessage (ui (loadAccurateNFTData cap st).1) = "".
Proof.
  intros (Ha & Hw & Hc & Hn). apply String.eqb_neq in Ha.
  unfold loadAccurateNFTData. rewrite Ha, Hw, Hc, Hn. simpl. revert st.
  apply bind_last; [apply resolves_set |]. intros _ st1.
  apply bind_last; [apply resolves_set |]. intros _ st2.
  apply finally_last. reflexivity.
Qed.

(** X20.  When both transactions are accepted, the card handler has sent
    the approval and then the stake, in this order and once each, and
    nothing else; it ends on the staked tab, and the transaction message
    is empty again: the reload that follows the stake clears the success
    message. *)
Theorem stakeNFT_approves_then_stakes (cap : UI) (tokenIdToStake : string)
    (st : St) :
  connected cap -> tokenIdToStake <> "" ->
  (forall w, (rpc (SendApprove stakingContractAddress (ArgStr tokenIdToStake)
                     (account cap)) w).2 = inr tt) ->
  (forall w, (rpc (SendStakeNFT (ArgStr tokenIdToStake) (account cap)) w).2 = inr tt) ->
  let st' := (stakeNFT cap tokenIdToStake st).1 in
  writes (trace st')
  = (writes (trace st)
     ++ [EvRpc (SendApprove stakingContractAddress (ArgStr tokenIdToStake)
                  (account cap));
         EvRpc (SendStakeNFT (ArgStr tokenIdToStake) (account cap))])%list
  /\ activeTab (ui st') = "staked"
  /\ transactionMessage (ui st') = ""
  /\ isLoading_ (ui st') = false.
Proof.
  intros Hconn Ht Happrove Hstake st'. subst st'.
  pose proof Hconn as (Ha & Hw & Hc & Hn).
  apply String.eqb_neq in Ha. apply String.eqb_neq in Ht.
  unfold stakeNFT. rewrite Ha, Hw, Hc, Hn, Ht. simpl.
  unfold finally, tryCatch, method, emit, liftOp, sleep, set, mbind, M_bind, bind,
    mret, M_ret, ret. simpl.
  match goal with |- context [rpc (SendApprove ?a ?b ?c) ?w] =>
    pose proof (Happrove w) as H1; destruct (rpc (SendApprove a b c) w) as [w1 r1] end.
  simpl in H1. subst r1. simpl.
  match goal with |- context [rpc (SendStakeNFT ?b ?c) ?w] =>
    pose proof (Hstake w) as H2; destruct (rpc (SendStakeNFT b c) w) as [w2 r2] end.
  simpl in H2. subst r2. simpl.
  assert (Htail : forall s,
            let out := refreshRewardData cap (account cap) (loadAccurateNFTData cap s).1 in
            writes (trace out.1) = writes (trace s)
            /\ transactionMessage (ui out.1) = "" /\ out.2 = inr tt
            /\ exists u, (loadAccurateNFTData cap s).2 = inr u).
  { intros s out. subst out. split; [| split; [| split]].
    - transitivity (writes (trace (loadAccurateNFTData cap s).1)).
      + apply (hush_refreshRewardData cap (account cap)).
      + apply (hush_loadAccurateNFTData cap).
    - rewrite (keeps_refreshRewardData transactionMessage cap (account cap))
        by reflexivity.
      apply loadAccurateNFTData_message. exact Hconn.
    - apply resolves_unit, resolves_refreshRewardData.
    - apply resolves_loadAccurateNFTData. }
  destruct (List.find (hasId tokenIdToStake) (ownedNFTs cap)); simpl;
    match goal with |- context [loadAccurateNFTData cap ?s] =>
      destruct (Htail s) as (Hwr & Hmsg & Hres & u & Hu);
      destruct (loadAccurateNFTData cap s) as [s1 r1]; simpl in *; subst r1;
      destruct (refreshRewardData cap (account cap) s1) as [s2 r2];
      simpl in *; subst r2; simpl
    end;
    (split; [rewrite Hwr, !writes_app; simpl; rewrite !app_nil_r, <- app_assoc;
             reflexivity |]);
    (split; [reflexivity |]); (split; [exact Hmsg | reflexivity]).
Qed.

End StakeSuccess.

Lemma stakeNFT_approves_then_stakes_witness :
  Client.activeTab
    (Client.ui (@Client.stakeNFT approvedEnv (session [7%N] []) "7"
                  (@Client.start approvedEnv tt (session [7%N] []))).1)
  = "staked"%string.
Proof.
  exact (proj1 (proj2
           (@stakeNFT_approves_then_stakes approvedEnv (session [7%N] []) "7"
              (@Client.start approvedEnv tt (session [7%N] []))
              (session_connected [7%N] []) ltac:(discriminate)
              (fun _ => eq_refl) (fun _ => eq_refl)))).
Defined.

Section QuickStake.
Import Client.
Context `{E : Env}.



(** X21.  The quick-access form refuses a token of somebody else before
    any transaction: for a connected wallet and an input that denotes a
    token whose [ownerOf] answers an address other than the account
    (compared without case), [quickStakeNFT] submits nothing, shows
    [Failed to stake NFT: You don't own NFT #id], leaves both collections
    as they were and clears the loading flag. *)
Theorem quickStakeNFT_refuses_foreign_token cap z owner ca st :
  connected cap -> isBlank (nftIdInput cap) = false ->
  NumberOfInput (nftIdInput cap) = Some z -> (0 <= z)%Z ->
  toChecksumAddress (account cap) = inr ca ->
  (forall w, (rpc (OwnerOf (Z.to_N z)) w).2 = inr owner) ->
  toLowerCase owner <> toLowerCase ca ->
  let st' := (quickStakeNFT cap st).1 in
  writes (trace st') = writes (trace st)
  /\ errorMessage (ui st')
     = Some ("Failed to stake NFT: You don't own NFT #" +:+ pretty (Z.to_N z))
  /\ ownedNFTs (ui st') = ownedNFTs (ui st)
  /\ stakedNFTs (ui st') = stakedNFTs (ui st)
  /\ isLoading_ (ui st') = false.
Proof.
  intros (Ha & Hw & Hc & Hn) Hb Hnum Hz Hca Hrpc Hne st'. subst st'.
  apply String.eqb_neq in Ha. apply String.eqb_neq in Hne.
  assert (Hlt : (z <? 0)%Z = false) by (apply Z.ltb_ge; exact Hz).
  unfold quickStakeNFT. rewrite Ha, Hw, Hc, Hn, Hb, Hnum, Hlt. simpl.
  unfold finally, tryCatch, set, mbind, M_bind, bind, mret, M_ret, ret. simpl.
  rewrite safeRpcCall_first with (a := owner) by apply Hrpc. simpl.
  rewrite Hca, Hne. simpl. unfold emit. simpl.
  rewrite !writes_app. simpl. rewrite !app_nil_r.
  repeat split.
Qed.


End QuickStake.

Lemma quickStakeNFT_refuses_foreign_token_witness :
  let st' := (@Client.quickStakeNFT quietEnv
                (Client.setNftIdInput "9" (session [7%N] []))
                (quietStart (Client.setNftIdInput "9" (session [7%N] [])))).1 in
  Client.writes (Client.trace st') = []
  /\ Client.errorMessage (Client.ui st')
     = Some "Failed to stake NFT: You don't own NFT #9"%string.
Proof.
  pose proof (@quickStakeNFT_refuses_foreign_token quietEnv
                (Client.setNftIdInput "9" (session [7%N] [])) 9%Z "0xother" "0xuser"
                (quietStart (Client.setNftIdInput "9" (session [7%N] [])))
                (session_connected [7%N] []) eq_refl eq_refl ltac:(discriminate)
                eq_refl (fun _ => eq_refl) ltac:(discriminate))
    as (Hwr & Herr & _).
  split; [exact Hwr | exact Herr].
Defined.


Section Transactions.
Import Client.
Context `{E : Env}.

(** X23.  [executeTransaction] reports how the transaction went and
    nothing else: for a connected wallet and any transaction, it invokes
    the transaction once, with the loading flag set and the loading message
    shown; when the transaction resolves it shows the success message and
    refreshes the reward data, when it rejects it shows
    [Transaction failed: ...] with the message of the rejection and does
    nothing more; either way it resolves with the loading flag cleared. *)
Theorem executeTransaction_reports_outcome cap (transaction : M unit)
    loadingMessage successMessage st :
  web3 cap = true -> contract cap = true -> account cap <> "" ->
  let sent := transaction (submitting loadingMessage st) in
  let out := executeTransaction cap transaction loadingMessage successMessage st in
  out.2 = inr tt
  /\ isLoading_ (ui out.1) = false
  /\ transactionMessage (ui out.1)
     = match sent.2 with
       | inr _ => successMessage
       | inl e => "Transaction failed: " +:+ message e
       end
  /\ (forall e, sent.2 = inl e ->
        trace out.1 = trace sent.1 /\ world out.1 = world sent.1).
Proof.
  intros Hw Hc Ha sent out. subst sent out. apply String.eqb_neq in Ha.
  unfold executeTransaction. rewrite Hw, Hc, Ha. simpl.
  unfold finally, tryCatch, set, mbind, M_bind, bind, mret, M_ret, ret. simpl.
  fold (submitting loadingMessage st).
  destruct (transaction (submitting loadingMessage st)) as [st1 [e | u]]; simpl.
  - split; [reflexivity |]. split; [reflexivity |]. split; [reflexivity |].
    intros e' He'. split; reflexivity.
  - match goal with |- context [refreshRewardData cap (account cap) ?s] =>
      pose proof (keeps_refreshRewardData transactionMessage cap (account cap)
                    ltac:(reflexivity) ltac:(reflexivity) ltac:(reflexivity)
                    ltac:(reflexivity) s) as Hkeep;
      pose proof (resolves_unit _ s (resolves_refreshRewardData cap (account cap)))
        as Hres;
      destruct (refreshRewardData cap (account cap) s) as [st2 r2]
    end.
    simpl in *. subst r2. simpl.
    split; [reflexivity |]. split; [reflexivity |]. split; [exact Hkeep |].
    intros e He. discriminate.
Qed.

End Transactions.

Lemma executeTransaction_reports_outcome_witness :
  Client.transactionMessage
    (Client.ui (@Client.executeTransaction deadEnv (session [] [])
                  (@Client.method deadEnv unit
                     (Client.SendStake (Client.ArgNum 7) "0xuser"))
                  "Staking..." "Staked!"
                  (@Client.start deadEnv tt (session [] []))).1)
  = "Transaction failed: execution reverted"%string.
Proof.
  exact (proj1 (proj2 (proj2
           (@executeTransaction_reports_outcome deadEnv (session [] [])
              (@Client.method deadEnv unit
                 (Client.SendStake (Client.ArgNum 7) "0xuser"))
              "Staking..." "Staked!" (@Client.start deadEnv tt (session [] []))
              eq_refl eq_refl ltac:(discriminate))))).
Defined.

Section Backoff.
Import Client.
Context `{E : Env}.





Lemma retryRpcLoop_schedule {A} (fn : M A) n :
  alwaysFails fn -> plain fn ->
  forall remaining i lastError st,
    schedule (trace (retryRpcLoop fn n remaining i lastError st).1)
    = (schedule (trace st) ++ retried (doubling i remaining))%list.
Proof.
  intros Hfail Hplain. induction remaining as [| remaining IH]; intros i lastError st.
  - simpl. unfold console, emit. simpl. rewrite schedule_app, !app_nil_r. reflexivity.
  - destruct (Hfail st) as [e He]. destruct (Hplain st) as [_ Hpl].
    simpl. unfold attemptOf, console, sleep, emit, mbind, M_bind, bind. simpl.
    destruct (fn st) as [st1 r]. simpl in *. subst r. simpl.
    rewrite IH. simpl. rewrite !schedule_app. simpl.
    rewrite Hpl, !app_nil_r, <- !app_assoc. reflexivity.
Qed.

Lemma totalWait_doubling i n :
  (totalWait (doubling i n)
   == inject_Z (2000 * 2 ^ Z.of_nat i * (2 ^ Z.of_nat n - 1)))%Q.
Proof.
  revert i. induction n as [| n IH]; intros i.
  - simpl. rewrite Z.mul_0_r. reflexivity.
  - change (totalWait (doubling i (S n)))
      with (inject_Z (2000 * 2 ^ Z.of_nat i) + totalWait (doubling (S i) n))%Q.
    rewrite IH, <- inject_Z_plus.
    rewrite !Nat2Z.inj_succ, !Z.pow_succ_r by lia.
    match goal with |- (inject_Z ?a == inject_Z ?b)%Q =>
      replace a with b by ring end.
    reflexivity.
Qed.

(** X25.  [retryRpcCall] backs off by doubling: on an operation that
    rejects at every invocation, the turn of index [i] is followed by a
    wait of [2000 * 2^i] ms, the last turn included, so that the call
    waits [2000 * (2^maxRetries - 1)] ms in all before it gives up. *)
Theorem retryRpcCall_waits {A} (fn : M A) (maxRetries : nat) (st : St) :
  alwaysFails fn -> plain fn ->
  schedule (trace (retryRpcCall fn maxRetries st).1)
  = (schedule (trace st) ++ retried (doubling 0 maxRetries))%list
  /\ length (doubling 0 maxRetries) = maxRetries
  /\ (totalWait (doubling 0 maxRetries)
      == inject_Z (2000 * (2 ^ Z.of_nat maxRetries - 1)))%Q.
Proof.
  intros Hfail Hplain. split; [| split].
  - apply retryRpcLoop_schedule; assumption.
  - generalize 0%nat. induction maxRetries as [| n IH]; intros i; simpl;
      [reflexivity | rewrite IH; reflexivity].
  - rewrite totalWait_doubling. simpl. rewrite Z.mul_1_r. reflexivity.
Qed.

End Backoff.


Lemma retryRpcCall_waits_witness :
  Client.schedule
    (Client.trace (@Client.retryRpcCall quietEnv N (rejecting "429") 2
                     (quietStart (session [] []))).1)
  = [Client.Tried true; Client.Waited (inject_Z 2000);
     Client.Tried true; Client.Waited (inject_Z 4000)].
Proof.
  exact (proj1 (@retryRpcCall_waits quietEnv N (rejecting "429") 2
                  (quietStart (session [] []))
                  (rejecting_alwaysFails "429") (rejecting_plain "429"))).
Defined.

Section StakingEvents.
Import Client.
Context `{E : Env}.











End StakingEvents.


Section Checks.
Import Client.
Context `{E : Env}.




End Checks.


Section SingleCheck.
Import Client.
Context `{E : Env}.

Lemma keeps_stakedQuery cap ca :
  keeps (fun u => u)
    (if contract cap then method (StakedNFTs ca) else nullContract : M N).
Proof. destruct (contract cap); frame. Qed.

(** X28.  [checkSingleNftId] always resolves, to a record for the
    identifier it was given, and what it does to the collections can be
    read off the status it reports: [owned] is true exactly for the four
    statuses [Already in your collection], [Already in your staked NFTs],
    [Belongs to your wallet] and [Staked by you]; the owned collection
    gains one unstaked record for the token exactly when the status is
    [Belongs to your wallet], the staked collection one staked record
    exactly when it is [Staked by you], and otherwise both are left as
    they were. *)
Theorem checkSingleNftId_result (cap : UI) (id_ : string) (st : St) :
  let out := checkSingleNftId cap id_ st in
  let nftIdNumber := Z.to_N (default 0%Z (NumberOfInput id_)) in
  exists result,
    out.2 = inr result
    /\ checkedId result = id_
    /\ owned result = existsb (String.eqb (status result)) ownedStatuses
    /\ ownedNFTs (ui out.1)
       = (if String.eqb (status result) "Belongs to your wallet"
          then ownedNFTs (ui st) ++ [createNFTObject nftIdNumber false]
          else ownedNFTs (ui st))%list
    /\ stakedNFTs (ui out.1)
       = (if String.eqb (status result) "Staked by you"
          then stakedNFTs (ui st) ++ [createNFTObject nftIdNumber true]
          else stakedNFTs (ui st))%list.
Proof.
  intros out nftIdNumber. subst out nftIdNumber.
  unfold checkSingleNftId, stakedByUser.
  destruct (negb (web3 cap) || negb (nftContract cap) || String.eqb (account cap) "");
    [eexists; repeat split |].
  destruct (NumberOfInput id_) as [z |]; simpl;
    [| eexists; repeat split].
  destruct (z <? 0)%Z; [eexists; repeat split |].
  destruct (hasNumber (Z.to_N z) (ownedNFTs cap)) eqn:Hown; [eexists; repeat split |].
  destruct (hasNumber (Z.to_N z) (stakedNFTs cap)) eqn:Hstk; [eexists; repeat split |].
  unfold tryCatch, liftE, stakedByUser, tryCatch, mbind, M_bind, bind, mret, M_ret, ret.
  simpl.
  destruct (toChecksumAddress (account cap)) as [e | ca]; simpl;
    [eexists; repeat split |].
  match goal with |- context [safeRpcCall ?fn ?name 3 ?s] =>
    pose proof (keeps_safeRpcCall (fun u => u) fn name 3 (keeps_method _ _) s) as Hui;
    destruct (safeRpcCall fn name 3 s) as [st1 [e | owner]]
  end; simpl in *; [eexists; rewrite Hui; repeat split |].
  destruct (String.eqb (toLowerCase owner) (toLowerCase ca)); simpl.
  { unfold set. simpl. eexists. rewrite Hui. repeat split. }
  destruct (String.eqb (toLowerCase owner) (toLowerCase stakingContractAddress)); simpl;
    [| eexists; rewrite Hui; repeat split].
  match goal with |- context [safeRpcCall ?fn ?name 3 ?s] =>
    pose proof (keeps_safeRpcCall (fun u => u) fn name 3 (keeps_stakedQuery cap ca) s)
      as Hui2;
    destruct (safeRpcCall fn name 3 s) as [st2 [e | stakedTokenId]]
  end; simpl in *; [eexists; rewrite Hui2, Hui; repeat split |].
  destruct (Number stakedTokenId =? Z.to_N z)%N; simpl;
    [| eexists; rewrite Hui2, Hui; repeat split].
  unfold set. simpl. eexists. rewrite Hui2, Hui. repeat split.
Qed.

End SingleCheck.

Section Rescheduling.
Import Client.
Context `{E : Env}.

Lemma bind_adds {A B} p (m : M A) (k : A -> M B) evs :
  resolves m -> hush p m ->
  (forall a st, List.filter p (trace (k a st).1) = (List.filter p (trace st) ++ evs)%list
                /\ exists b, (k a st).2 = inr b) ->
  forall st, List.filter p (trace (mbind k m st).1)
             = (List.filter p (trace st) ++ evs)%list
             /\ exists b, (mbind k m st).2 = inr b.
Proof.
  intros Hres Hhush Hk st. unfold mbind, M_bind, bind.
  destruct (Hres st) as [a Ha]. specialize (Hhush st).
  destruct (m st) as [st1 r]. simpl in *. subst r.
  rewrite <- Hhush. apply Hk.
Qed.

Lemma tryCatch_resolved {A} (m : M A) h st a :
  (m st).2 = inr a -> tryCatch m h st = m st.
Proof.
  intros H. unfold tryCatch. destruct (m st) as [st1 r]. simpl in H. subst r.
  reflexivity.
Qed.

(** X29.  Every refresh of the reward data schedules the next one, once:
    with web3 and the contract in place, [refreshRewardData] leaves
    exactly one timer, whatever the three reads do, due after 60 seconds,
    or after 90 seconds when the address cannot be checksummed. *)
Theorem refreshRewardData_reschedules_once (cap : UI) (userAddress : string)
    (st : St) :
  web3 cap = true -> contract cap = true ->
  List.filter timer (trace (refreshRewardData cap userAddress st).1)
  = (List.filter timer (trace st)
     ++ [EvTimer (match toChecksumAddress userAddress with
                  | inr _ => 60000
                  | inl _ => 90000
                  end)])%list.
Proof.
  intros Hw Hc. unfold refreshRewardData. rewrite Hw, Hc. simpl.
  destruct (toChecksumAddress userAddress) as [e | ca].
  - unfold tryCatch, liftE, emit, mbind, M_bind, bind. simpl.
    rewrite List.filter_app. reflexivity.
  - match goal with |- context [tryCatch ?body ?h st] =>
      assert (Hbody : forall st0,
                 List.filter timer (trace (body st0).1)
                 = (List.filter timer (trace st0) ++ [EvTimer 60000])%list
                 /\ exists b, (body st0).2 = inr b)
    end.
    { apply bind_adds; [intros st0; eexists; reflexivity | apply hush_liftE |].
      intros checksumAddress.
      apply bind_adds; [frame | quiet |]. intros _.
      apply bind_adds; [frame | quiet |]. intros _.
      apply bind_adds; [frame | quiet |]. intros _ st0.
      unfold emit. simpl. rewrite List.filter_app. split; [reflexivity | eauto]. }
    destruct (Hbody st) as [Hf [b Hb]].
    rewrite (tryCatch_resolved _ _ _ _ Hb). exact Hf.
Qed.

End Rescheduling.

Lemma refreshRewardData_reschedules_once_witness :
  List.filter Client.timer
    (Client.trace (@Client.refreshRewardData rewardsDownEnv (session [] []) "0xuser"
                     (@Client.start rewardsDownEnv tt (session [] []))).1)
  = [Client.EvTimer 60000].
Proof.
  exact (@refreshRewardData_reschedules_once rewardsDownEnv (session [] []) "0xuser"
           (@Client.start rewardsDownEnv tt (session [] [])) eq_refl eq_refl).
Defined.
